(** * Mini-Obsidian: note indexing and retrieval engine (server.js)

    A shallow embedding of the note store of [server.js]: the content
    parser ([extractLinks], [extractTags]), the write path ([upsertNote]
    and the routes that call it), the delete route and the retrieval
    step of the chat route, over an explicit model of the SQLite tables
    the server creates. *)

From Stdlib Require Import String Ascii List ZArith NArith Bool Lia.
From Stdlib Require Import Permutation Sorted.
Import ListNotations.

Set Implicit Arguments.

(** ** JavaScript strings

    A JavaScript string is a sequence of UTF-16 code units.  A regular
    expression without the [u] flag reads it unit by unit; one with the
    [u] flag reads it code point by code point. *)

Definition jsstring := list N.

Definition jsstring_eq_dec : forall a b : jsstring, {a = b} + {a <> b} :=
  list_eq_dec N.eq_dec.

(** ASCII literals, for readable examples. *)
Definition str (s : string) : jsstring :=
  map N_of_ascii (list_ascii_of_string s).

Module CodePoint.

Definition is_lead (c : N) : bool := (0xD800 <=? c)%N && (c <=? 0xDBFF)%N.
Definition is_trail (c : N) : bool := (0xDC00 <=? c)%N && (c <=? 0xDFFF)%N.

(** The code points of a UTF-16 string; a lone surrogate stands for
    itself. *)
Fixpoint decode (s : jsstring) : list N :=
  match s with
  | [] => []
  | hi :: t =>
      match t with
      | lo :: s' =>
          if is_lead hi && is_trail lo
          then (0x10000 + (hi - 0xD800) * 0x400 + (lo - 0xDC00))%N :: decode s'
          else hi :: decode t
      | [] => [hi]
      end
  end.

Definition units (cp : N) : jsstring :=
  if (cp <? 0x10000)%N then [cp]
  else [ (0xD800 + (cp - 0x10000) / 0x400)%N
       ; (0xDC00 + (cp - 0x10000) mod 0x400)%N ].

Definition encode (cps : list N) : jsstring := flat_map units cps.

Definition is_surrogate (c : N) : bool := (0xD800 <=? c)%N && (c <=? 0xDFFF)%N.

(** What a UTF-8 encoder writes for a code point: a surrogate that is
    not part of a pair becomes U+FFFD. *)
Definition scalar (cp : N) : N := if is_surrogate cp then 0xFFFD%N else cp.

(** The number of bytes of the UTF-8 form of a scalar value. *)
Definition utf8_bytes (cp : N) : N :=
  if (cp <? 0x80)%N then 1
  else if (cp <? 0x800)%N then 2
  else if (cp <? 0x10000)%N then 3
  else 4.

End CodePoint.

(** ** Text in the database

    The driver hands a string to SQLite as UTF-8 and reads it back from
    UTF-8: a string comes back with every unpaired surrogate replaced by
    U+FFFD. *)

Definition utf8_text (s : jsstring) : jsstring :=
  CodePoint.encode (map CodePoint.scalar (CodePoint.decode s)).

(** [sqlite3_value_bytes] of a bound string. *)
Definition utf8_length (s : jsstring) : N :=
  fold_right N.add 0%N
    (map (fun cp => CodePoint.utf8_bytes (CodePoint.scalar cp))
         (CodePoint.decode s)).

(** The text functions of SQLite ([substr], LIKE) read a text up to its
    first NUL character. *)
Fixpoint before_nul (cps : list N) : list N :=
  match cps with
  | [] => []
  | c :: cps' => if (c =? 0)%N then [] else c :: before_nul cps'
  end.

(** ** Character classes used by the two patterns and by [trim] *)

Module CharClass.

(** [\s] and the characters [String.prototype.trim] removes:
    WhiteSpace and LineTerminator of ECMAScript. *)
Definition is_space (c : N) : bool :=
  ((c =? 9) || (c =? 10) || (c =? 11) || (c =? 12) || (c =? 13)
   || (c =? 32) || (c =? 0xA0) || (c =? 0x1680)
   || ((0x2000 <=? c) && (c <=? 0x200A))
   || (c =? 0x2028) || (c =? 0x2029) || (c =? 0x202F)
   || (c =? 0x205F) || (c =? 0x3000) || (c =? 0xFEFF))%N.

(** [.] without the [s] flag: anything but a line terminator. *)
Definition dot (c : N) : bool :=
  negb ((c =? 10) || (c =? 13) || (c =? 0x2028) || (c =? 0x2029))%N.

Definition is_digit (c : N) : bool := ((48 <=? c) && (c <=? 57))%N.

(** [\w], which decides [\b]: [A-Za-z0-9_]. *)
Definition is_word (c : N) : bool :=
  (((65 <=? c) && (c <=? 90)) || ((97 <=? c) && (c <=? 122)))%N
  || is_digit c || (c =? 95)%N.

Definition lbracket : N := 91.   (* [ *)
Definition rbracket : N := 93.   (* ] *)
Definition pipe : N := 124.      (* | *)
Definition hash : N := 35.       (* # *)

(** [[^\]|#]] *)
Definition title_char (c : N) : bool :=
  negb ((c =? rbracket) || (c =? pipe) || (c =? hash))%N.

End CharClass.

(** ** A backtracking matcher for the fragment of ECMAScript patterns
       the server uses

    Quantifiers apply to character classes only, as in both patterns of
    [server.js].  The matcher is written in continuation-passing style:
    a continuation that fails makes the matcher try its next
    alternative, which is the backtracking order of ECMAScript. *)

Module Regex.

Inductive regex : Type :=
| Char (c : N)                 (* a literal character *)
| Class (p : N -> bool)        (* a class or class escape *)
| Seq (r1 r2 : regex)          (* r1 r2 *)
| Alt (r1 r2 : regex)          (* r1|r2 *)
| Group (i : nat) (r : regex)  (* ( r ), the i-th capturing group *)
| Opt (r : regex)              (* (?: r )?  greedy *)
| Plus (p : N -> bool)         (* [class]+  greedy *)
| LazyStar (p : N -> bool)     (* [class]*? lazy *)
| Bol                          (* ^ without the m flag *)
| WordBoundary.                (* \b *)

Definition captures := list (nat * list N).

(** A successful match: the captures and what is left of the input. *)
Record mres : Type := MRes { m_caps : captures; m_rest : list N }.

(** A continuation takes the character before the current position
    ([None] at the start of the input), the remaining input and the
    captures so far. *)
Definition cont := option N -> list N -> captures -> option mres.

Definition accept : cont := fun _ s caps => Some (MRes caps s).

Definition consumed (s s' : list N) : list N :=
  firstn (length s - length s') s.

Definition word_at (c : option N) : bool :=
  match c with Some x => CharClass.is_word x | None => false end.

Fixpoint star_greedy (p : N -> bool) (prev : option N) (s : list N)
         (caps : captures) (k : cont) : option mres :=
  match s with
  | c :: s' =>
      if p c then
        match star_greedy p (Some c) s' caps k with
        | Some m => Some m
        | None => k prev s caps
        end
      else k prev s caps
  | [] => k prev s caps
  end.

Fixpoint star_lazy (p : N -> bool) (prev : option N) (s : list N)
         (caps : captures) (k : cont) : option mres :=
  match k prev s caps with
  | Some m => Some m
  | None =>
      match s with
      | c :: s' => if p c then star_lazy p (Some c) s' caps k else None
      | [] => None
      end
  end.

Fixpoint rmatch (r : regex) (prev : option N) (s : list N)
         (caps : captures) (k : cont) : option mres :=
  match r with
  | Char c =>
      match s with
      | x :: s' => if (x =? c)%N then k (Some x) s' caps else None
      | [] => None
      end
  | Class p =>
      match s with
      | x :: s' => if p x then k (Some x) s' caps else None
      | [] => None
      end
  | Seq r1 r2 =>
      rmatch r1 prev s caps (fun prev' s' caps' => rmatch r2 prev' s' caps' k)
  | Alt r1 r2 =>
      match rmatch r1 prev s caps k with
      | Some m => Some m
      | None => rmatch r2 prev s caps k
      end
  | Group i r =>
      rmatch r prev s caps
             (fun prev' s' caps' => k prev' s' ((i, consumed s s') :: caps'))
  | Opt r =>
      (* an iteration that consumes nothing is rejected *)
      match rmatch r prev s caps
                   (fun prev' s' caps' =>
                      if (length s' =? length s)%nat then None
                      else k prev' s' caps') with
      | Some m => Some m
      | None => k prev s caps
      end
  | Plus p =>
      match s with
      | x :: s' => if p x then star_greedy p (Some x) s' caps k else None
      | [] => None
      end
  | LazyStar p => star_lazy p prev s caps k
  | Bol =>
      match prev with
      | None => k prev s caps
      | Some _ => None
      end
  | WordBoundary =>
      if xorb (word_at prev) (word_at (hd_error s)) then k prev s caps
      else None
  end.

(** One match attempt at the current position. *)
Definition match_here (r : regex) (prev : option N) (s : list N)
  : option mres :=
  rmatch r prev s [] accept.

(** The value of group [i] in a match ([m[i]]). *)
Fixpoint lookup (i : nat) (caps : captures) : option (list N) :=
  match caps with
  | [] => None
  | (j, v) :: caps' => if Nat.eqb i j then Some v else lookup i caps'
  end.

(** [String.prototype.matchAll] with a global pattern: the leftmost
    match from [lastIndex], then again from the end of that match; an
    empty match advances [lastIndex] by one.  [skip] counts the
    characters of the last match still to be stepped over. *)
Fixpoint scan (r : regex) (skip : nat) (prev : option N) (s : list N)
  : list captures :=
  match skip with
  | S n =>
      match s with
      | c :: s' => scan r n (Some c) s'
      | [] => []
      end
  | O =>
      match match_here r prev s with
      | Some m =>
          m_caps m ::
          match s with
          | c :: s' =>
              scan r (pred (length s - length (m_rest m))) (Some c) s'
          | [] => []
          end
      | None =>
          match s with
          | c :: s' => scan r 0 (Some c) s'
          | [] => []
          end
      end
  end.

Definition matchAll (r : regex) (s : list N) : list captures :=
  scan r 0 None s.

End Regex.

(** ** Helpers of server.js *)

Import Regex.

(** [const WIKILINK_RE = /\[\[([^\]|#]+)(?:#.*?)?\]\]/g] *)
Definition WIKILINK_RE : regex :=
  Seq (Char CharClass.lbracket)
 (Seq (Char CharClass.lbracket)
 (Seq (Group 1 (Plus CharClass.title_char))
 (Seq (Opt (Seq (Char CharClass.hash) (LazyStar CharClass.dot)))
 (Seq (Char CharClass.rbracket)
      (Char CharClass.rbracket))))).

(** [String.prototype.trim] *)
Fixpoint trim_start (s : jsstring) : jsstring :=
  match s with
  | c :: s' => if CharClass.is_space c then trim_start s' else s
  | [] => []
  end.

Definition trim_end (s : jsstring) : jsstring := rev (trim_start (rev s)).

Definition trim (s : jsstring) : jsstring := trim_end (trim_start s).

(** [Set.prototype.add] on a [Set] of strings kept in insertion order. *)
Definition set_add (x : jsstring) (set : list jsstring) : list jsstring :=
  if in_dec jsstring_eq_dec x set then set else set ++ [x].

(** [m[i]] of a match; every group read below takes part in every match
    of its pattern. *)
Definition group (i : nat) (m : captures) : list N :=
  match lookup i m with Some v => v | None => [] end.

(** [function extractLinks(content)] *)
Definition extractLinks (content : jsstring) : list jsstring :=
  fold_left
    (fun targets m =>
       let t := trim (group 1 m) in
       match t with
       | [] => targets
       | _ :: _ => set_add t targets
       end)
    (matchAll WIKILINK_RE content) [].

Section Tags.

(** The Unicode property [\p{L}] (general category Letter) is a table
    of the JavaScript engine; it is a parameter here. *)
Variable unicode_letter : N -> bool.

(** [[\p{L}0-9_\-\/]] *)
Definition tag_char (c : N) : bool :=
  unicode_letter c || CharClass.is_digit c
  || (c =? 95)%N || (c =? 45)%N || (c =? 47)%N.

(** [const TAG_RE = /(^|\s)#([\p{L}0-9_\-\/]+)\b/gu] *)
Definition TAG_RE : regex :=
  Seq (Group 1 (Alt Bol (Class CharClass.is_space)))
 (Seq (Char CharClass.hash)
 (Seq (Group 2 (Plus tag_char))
      WordBoundary)).

(** [function extractTags(content)]; the [u] flag makes the pattern
    read code points. *)
Definition extractTags (content : jsstring) : list jsstring :=
  fold_left
    (fun tags m => set_add (CodePoint.encode (group 2 m)) tags)
    (matchAll TAG_RE (CodePoint.decode content)) [].

End Tags.

(** ** JavaScript values and exceptions *)

(** What a JSON request body can put in [title] or [content]: a missing
    key, [null], a boolean, a number, a string, an array, an object.
    Numbers are those of integral value; the members of an object play
    no part in what the server does with it. *)
#[warnings="-register-all"]
Inductive jsval : Type :=
| JUndefined
| JNull
| JBool (b : bool)
| JNumber (n : Z)
| JString (s : jsstring)
| JArray (vs : list jsval)
| JObject.

Inductive sqlite_code : Type :=
| SQLITE_CONSTRAINT_NOTNULL
| SQLITE_CONSTRAINT_UNIQUE
| SQLITE_CONSTRAINT_FOREIGNKEY
| SQLITE_MISMATCH                (* datatype mismatch: a LIMIT that is no integer *)
| SQLITE_ERROR.                  (* fts5 syntax error, LIKE pattern too complex *)

Inductive exn : Type :=
| TypeError                      (* JavaScript, or the binder of better-sqlite3 *)
| RangeError                     (* the binder: too few or too many values *)
| SqliteError (code : sqlite_code).

Inductive result (A : Type) : Type :=
| Ok (a : A)
| Throw (e : exn).

Arguments Ok {A} a.
Arguments Throw {A} e.

(** ** The database

    The four tables of the [CREATE TABLE] statements, rows in storage
    order.  [notes_fts] is the full-text index with one document per
    indexed row. *)

Record note : Type := Note {
  id : Z;                        (* INTEGER PRIMARY KEY *)
  title : jsstring;              (* TEXT UNIQUE NOT NULL *)
  content : jsstring;            (* TEXT NOT NULL DEFAULT '' *)
  created_at : jsstring;
  updated_at : jsstring
}.

Record link : Type := Link { source_id : Z; target_title : jsstring }.

Record tag_row : Type := Tag { note_id : Z; tag : jsstring }.

Record fts_doc : Type := Doc {
  rowid : Z; doc_title : jsstring; doc_content : jsstring
}.

Record db : Type := Db {
  notes : list note;
  links : list link;
  tags : list tag_row;
  notes_fts : list fts_doc
}.

Definition empty_db : db := Db [] [] [] [].

(** ** Statements: state and exceptions

    A statement runs on the database and either returns or throws; each
    statement outside [transaction] commits on its own, so what ran
    before a throw stays. *)

Definition M (A : Type) : Type := db -> result A * db.

Definition ret {A} (a : A) : M A := fun d => (Ok a, d).

Definition throw {A} (e : exn) : M A := fun d => (Throw e, d).

Definition bind {A B} (m : M A) (f : A -> M B) : M B :=
  fun d =>
    match m d with
    | (Ok a, d') => f a d'
    | (Throw e, d') => (Throw e, d')
    end.

Notation "x <- m ;; k" := (bind m (fun x => k))
  (at level 61, m at next level, right associativity).
Notation "m ;;; k" := (bind m (fun _ => k))
  (at level 61, right associativity).

(** [db.transaction(fn)()]: BEGIN, [fn], COMMIT; a throw inside rolls
    back to the state at BEGIN and is thrown again. *)
Definition transaction {A} (body : M A) : M A :=
  fun d =>
    match body d with
    | (Ok a, d') => (Ok a, d')
    | (Throw e, _) => (Throw e, d)
    end.

(** [for (const x of xs) f(x)] *)
Fixpoint for_each {A} (xs : list A) (f : A -> M unit) : M unit :=
  match xs with
  | [] => ret tt
  | x :: xs' => f x ;;; for_each xs' f
  end.

(** ** Binding parameters *)

Fixpoint digits (u : Decimal.uint) : jsstring :=
  match u with
  | Decimal.Nil => []
  | Decimal.D0 u => 48%N :: digits u
  | Decimal.D1 u => 49%N :: digits u
  | Decimal.D2 u => 50%N :: digits u
  | Decimal.D3 u => 51%N :: digits u
  | Decimal.D4 u => 52%N :: digits u
  | Decimal.D5 u => 53%N :: digits u
  | Decimal.D6 u => 54%N :: digits u
  | Decimal.D7 u => 55%N :: digits u
  | Decimal.D8 u => 56%N :: digits u
  | Decimal.D9 u => 57%N :: digits u
  end.

(** The decimal digits of an integer, with its sign. *)
Definition text_of_int (n : Z) : jsstring :=
  match Z.to_int n with
  | Decimal.Pos u => digits u
  | Decimal.Neg u => 45%N :: digits u
  end.

(** The values SQLite receives: the driver binds [undefined] and [null]
    as NULL, every number as a REAL, a string as its UTF-8 text. *)
Inductive sqlval : Type :=
| SqlNull
| SqlReal (n : Z)
| SqlText (s : jsstring).

Definition sql_of (v : jsval) : option sqlval :=
  match v with
  | JUndefined | JNull => Some SqlNull
  | JNumber n => Some (SqlReal n)
  | JString s => Some (SqlText (utf8_text s))
  | JBool _ | JArray _ | JObject => None
  end.

(** The binder of better-sqlite3 takes the arguments of [run], [get] or
    [all] from left to right and gives each value the next parameter of
    the statement; [free] counts the parameters not bound yet.  A value
    it cannot bind is a [TypeError]; a value beyond the last parameter
    is a [RangeError] (too many parameter values). *)
Definition bind_value (free : nat) (v : jsval) : result sqlval :=
  match sql_of v, free with
  | None, _ => Throw TypeError
  | Some _, O => Throw RangeError
  | Some x, S _ => Ok x
  end.

(** An argument that is an array gives one value per element. *)
Fixpoint bind_array (free : nat) (vs : list jsval) : result (list sqlval) :=
  match vs with
  | [] => Ok []
  | v :: vs' =>
      match bind_value free v with
      | Throw e => Throw e
      | Ok x =>
          match bind_array (pred free) vs' with
          | Throw e => Throw e
          | Ok xs => Ok (x :: xs)
          end
      end
  end.

(** An argument that is an object binds the named parameters of the
    statement, and the statements of server.js have none; a second
    object is a [TypeError]. *)
Fixpoint bind_args (free : nat) (bound_object : bool) (args : list jsval)
  : result (list sqlval) :=
  match args with
  | [] => Ok []
  | JArray vs :: args' =>
      match bind_array free vs with
      | Throw e => Throw e
      | Ok xs =>
          match bind_args (free - length xs) bound_object args' with
          | Throw e => Throw e
          | Ok ys => Ok (xs ++ ys)
          end
      end
  | JObject :: args' =>
      if bound_object then Throw TypeError else bind_args free true args'
  | v :: args' =>
      match bind_value free v with
      | Throw e => Throw e
      | Ok x =>
          match bind_args (pred free) bound_object args' with
          | Throw e => Throw e
          | Ok ys => Ok (x :: ys)
          end
      end
  end.

(** The values of the [count] parameters of a statement, or the throw
    of the binder; too few values are a [RangeError]. *)
Definition bind_parameters (count : nat) (args : list jsval)
  : result (list sqlval) :=
  match bind_args count false args with
  | Throw e => Throw e
  | Ok xs => if (length xs <? count)%nat then Throw RangeError else Ok xs
  end.

(** The value of parameter [k], counted from 0. *)
Definition param (k : nat) (xs : list sqlval) : sqlval := nth k xs SqlNull.

(** ** The statements of server.js *)

Definition has_id (i : Z) (n : note) : bool := (id n =? i)%Z.

Definition has_title (t : jsstring) (n : note) : bool :=
  if jsstring_eq_dec (title n) t then true else false.

(** The rowid of a new row: one more than the largest, 1 in an empty
    table. *)
Definition next_rowid (ns : list note) : Z :=
  match ns with
  | [] => 1
  | n :: ns' => fold_left Z.max (map id ns') (id n) + 1
  end%Z.

(** Trigger [notes_ad], and the first statement of [notes_au]. *)
Definition fts_delete (i : Z) (docs : list fts_doc) : list fts_doc :=
  filter (fun d => negb (rowid d =? i)%Z) docs.

(** Trigger [notes_ai], and the second statement of [notes_au]. *)
Definition fts_insert (n : note) (docs : list fts_doc) : list fts_doc :=
  docs ++ [Doc (id n) (title n) (content n)].

Section Store.

(** Whether SQLite enforces the FOREIGN KEY clauses of [links] and
    [tags] is a setting of the SQLite build the driver ships, not of
    server.js. *)
Variable foreign_keys : bool.

Variable unicode_letter : N -> bool.

(** The text SQLite prints for a REAL of 16 digits or more, in exponent
    notation; it is left to SQLite's printf. *)
Variable exponent_text : Z -> jsstring.

(** The text of a REAL of integral value (format [%!.15g]): below
    [10^15] its digits followed by [.0]. *)
Definition real_text (n : Z) : jsstring :=
  if (Z.abs n <? 10 ^ 15)%Z then text_of_int n ++ [46%N; 48%N]
  else exponent_text n.

(** What a column of TEXT affinity stores for a value; [None] is
    NULL. *)
Definition text_column (v : sqlval) : option jsstring :=
  match v with
  | SqlNull => None
  | SqlReal n => Some (real_text n)
  | SqlText s => Some s
  end.

(** [INSERT INTO notes(title, content, updated_at) VALUES (?, ?, ?)]
    run with [(title, content, now)]; returns [info.lastInsertRowid].
    [now] is the clock reading, 19 ASCII characters, stored as it is;
    [created] is SQLite's [datetime('now')].  NOT NULL is checked
    before UNIQUE. *)
Definition insert_note (t c : jsval) (now created : jsstring) : M Z :=
  fun d =>
    match bind_parameters 3 [t; c; JString now] with
    | Throw e => (Throw e, d)
    | Ok xs =>
        match text_column (param 0 xs), text_column (param 1 xs) with
        | Some vt, Some vc =>
            if existsb (has_title vt) (notes d)
            then (Throw (SqliteError SQLITE_CONSTRAINT_UNIQUE), d)
            else
              let n := Note (next_rowid (notes d)) vt vc created now in
              (Ok (id n),
               Db (notes d ++ [n]) (links d) (tags d)
                  (fts_insert n (notes_fts d)))
        | _, _ => (Throw (SqliteError SQLITE_CONSTRAINT_NOTNULL), d)
        end
    end.

(** [UPDATE notes SET title=?, content=?, updated_at=? WHERE id=?] run
    with [(title, content, now, id)].  The constraints are checked on
    the rows the statement changes: with no row of that id nothing is
    checked and nothing changes. *)
Definition update_note (t c : jsval) (now : jsstring) (i : Z) : M unit :=
  fun d =>
    match bind_parameters 4 [t; c; JString now; JNumber i] with
    | Throw e => (Throw e, d)
    | Ok xs =>
        if existsb (has_id i) (notes d) then
          match text_column (param 0 xs), text_column (param 1 xs) with
          | Some vt, Some vc =>
              if existsb (fun n => negb (has_id i n) && has_title vt n)
                         (notes d)
              then (Throw (SqliteError SQLITE_CONSTRAINT_UNIQUE), d)
              else
                let upd n := Note (id n) vt vc (created_at n) now in
                (Ok tt,
                 Db (map (fun n => if has_id i n then upd n else n)
                         (notes d))
                    (links d) (tags d)
                    (fold_left
                       (fun docs n =>
                          if has_id i n
                          then fts_insert (upd n) (fts_delete (id n) docs)
                          else docs)
                       (notes d) (notes_fts d)))
          | _, _ => (Throw (SqliteError SQLITE_CONSTRAINT_NOTNULL), d)
          end
        else (Ok tt, d)
    end.

(** [DELETE FROM links WHERE source_id=?] *)
Definition delete_links (i : Z) : M unit :=
  fun d =>
    (Ok tt,
     Db (notes d) (filter (fun l => negb (source_id l =? i)%Z) (links d))
        (tags d) (notes_fts d)).

(** [DELETE FROM tags WHERE note_id=?] *)
Definition delete_tags (i : Z) : M unit :=
  fun d =>
    (Ok tt,
     Db (notes d) (links d)
        (filter (fun t => negb (note_id t =? i)%Z) (tags d))
        (notes_fts d)).

(** [INSERT INTO links(source_id, target_title) VALUES(?, ?)] run
    with [(id, t)], [t] a string *)
Definition insert_link (i : Z) (t : jsstring) : M unit :=
  fun d =>
    if foreign_keys && negb (existsb (has_id i) (notes d))
    then (Throw (SqliteError SQLITE_CONSTRAINT_FOREIGNKEY), d)
    else (Ok tt,
          Db (notes d) (links d ++ [Link i (utf8_text t)]) (tags d)
             (notes_fts d)).

(** [INSERT INTO tags(note_id, tag) VALUES(?, ?)] run with [(id, t)],
    [t] a string *)
Definition insert_tag (i : Z) (t : jsstring) : M unit :=
  fun d =>
    if foreign_keys && negb (existsb (has_id i) (notes d))
    then (Throw (SqliteError SQLITE_CONSTRAINT_FOREIGNKEY), d)
    else (Ok tt,
          Db (notes d) (links d) (tags d ++ [Tag i (utf8_text t)])
             (notes_fts d)).

(** [SELECT * FROM notes WHERE id=?] with [.get]: the first row or
    [undefined]. *)
Definition select_note (i : Z) : M (option note) :=
  fun d => (Ok (find (has_id i) (notes d)), d).

(** [DELETE FROM notes WHERE id=?]; returns [info.changes]. *)
Definition delete_note_row (i : Z) : M nat :=
  fun d =>
    if foreign_keys
       && existsb (has_id i) (notes d)
       && (existsb (fun l => (source_id l =? i)%Z) (links d)
           || existsb (fun t => (note_id t =? i)%Z) (tags d))
    then (Throw (SqliteError SQLITE_CONSTRAINT_FOREIGNKEY), d)
    else
      (Ok (length (filter (has_id i) (notes d))),
       Db (filter (fun n => negb (has_id i n)) (notes d))
          (links d) (tags d)
          (if existsb (has_id i) (notes d)
           then fts_delete i (notes_fts d) else notes_fts d)).

(** [content.matchAll(...)] exists on strings only. *)
Definition matchAll_receiver (c : jsval) : M jsstring :=
  match c with
  | JString s => ret s
  | _ => throw TypeError
  end.

(** [if (id)]: [undefined] and [0] are falsy. *)
Definition truthy (i : option Z) : bool :=
  match i with
  | Some z => negb (z =? 0)%Z
  | None => false
  end.

(** [function upsertNote({ id, title, content })]; [now] is the
    JavaScript clock, [created] SQLite's; [i] is the [id] passed in and
    [j] the [id] after the first statement. *)
Definition upsertNote (now created : jsstring)
           (i : option Z) (t c : jsval) : M (option note) :=
  j <- (if truthy i
        then update_note t c now (match i with Some z => z | None => 0%Z end)
             ;;; ret (match i with Some z => z | None => 0%Z end)
        else insert_note t c now created) ;;
  (* Rebuild links/tags for this note *)
  delete_links j ;;;
  delete_tags j ;;;
  s <- matchAll_receiver c ;;
  let targets := extractLinks s in
  let tags := extractTags unicode_letter s in
  transaction
    (for_each targets (insert_link j) ;;;
     for_each tags (insert_tag j)) ;;;
  select_note j.

End Store.

(** ** Routes *)

Inductive body : Type :=
| JsonNote (n : option note)     (* res.json(note); [undefined] is an empty body *)
| JsonError (e : exn)            (* { error: e.message } *)
| JsonBadId                      (* { error: 'Bad id' } *)
| JsonDeleted (changes : nat).   (* { deleted: info.changes } *)

Record response : Type := Response { status : Z; payload : body }.

Section Routes.

Variable foreign_keys : bool.
Variable unicode_letter : N -> bool.
Variable exponent_text : Z -> jsstring.

(** [app.post('/api/notes')]; [content] defaults to [''] when the key
    is missing. *)
Definition post_notes (now created : jsstring) (t c : jsval) (d : db)
  : response * db :=
  let c := match c with JUndefined => JString [] | _ => c end in
  match upsertNote foreign_keys unicode_letter exponent_text now created
                   None t c d with
  | (Ok n, d') => (Response 201 (JsonNote n), d')
  | (Throw e, d') => (Response 400 (JsonError e), d')
  end.

(** [app.put('/api/notes/:id')]; [i] is [Number(req.params.id)], [None]
    when that is not an integer. *)
Definition put_note (now created : jsstring) (i : option Z) (t c : jsval)
           (d : db) : response * db :=
  match i with
  | None => (Response 400 JsonBadId, d)
  | Some z =>
      match upsertNote foreign_keys unicode_letter exponent_text now created
                       (Some z) t c d with
      | (Ok n, d') => (Response 200 (JsonNote n), d')
      | (Throw e, d') => (Response 400 (JsonError e), d')
      end
  end.

(** [app.delete('/api/notes/:id')]; [i] is [Number(req.params.id)],
    [None] when that is not an integer: the three statements then
    select no row.  The route has no handler of its own for a throw:
    the framework answers 500. *)
Definition delete_note (i : option Z) (d : db) : response * db :=
  match i with
  | None => (Response 200 (JsonDeleted 0), d)
  | Some z =>
      match (delete_links z ;;;
             delete_tags z ;;;
             delete_note_row foreign_keys z) d with
      | (Ok changes, d') => (Response 200 (JsonDeleted changes), d')
      | (Throw e, d') => (Response 500 (JsonError e), d')
      end
  end.

End Routes.

(** ** Retrieval for the chat route *)

(** A row of the three [SELECT id,title,content] queries. *)
Record ctx_note : Type := Ctx {
  c_id : Z; c_title : jsstring; c_content : jsstring
}.

(** [substr(X, 1, n)] of SQLite counts characters, not code units, and
    stops at a NUL character. *)
Definition sql_substr (n : nat) (s : jsstring) : jsstring :=
  CodePoint.encode (firstn n (before_nul (CodePoint.decode s))).

(** A LIMIT bound from a number of integral value.  The number reaches
    SQLite as a double, and SQLite takes a double as LIMIT when its
    value is an integer of 64 bits other than the least and the
    greatest, strictly between [- 2 ^ 63] and [2 ^ 63 - 1]; it reports
    a datatype mismatch otherwise.  The doubles next to these bounds
    are [- 2 ^ 63 + 1024] and [2 ^ 63 - 1024], and the integers read as
    a double in between are those strictly between [- 2 ^ 63 + 512]
    and [2 ^ 63 - 512]. *)
Definition limit_ok (k : Z) : bool :=
  (- 2 ^ 63 + 512 <? k)%Z && (k <? 2 ^ 63 - 512)%Z.

(** [LIMIT k]: a negative bound is no bound. *)
Definition sql_limit {A} (k : Z) (rows : list A) : list A :=
  if (k <? 0)%Z then rows else firstn (Z.to_nat k) rows.

(** The LIKE operator: [%] is any run of characters, [_] any one
    character, ASCII letters match in either case. *)
Definition percent : N := 37.
Definition underscore : N := 95.

Definition ascii_lower (c : N) : N :=
  if ((65 <=? c) && (c <=? 90))%N then (c + 32)%N else c.

Fixpoint like_match (pat : list N) : list N -> bool :=
  match pat with
  | [] => fun txt => match txt with [] => true | _ :: _ => false end
  | p :: pat' =>
      if (p =? percent)%N then
        fix any (txt : list N) : bool :=
          like_match pat' txt
          || match txt with
             | [] => false
             | _ :: txt' => any txt'
             end
      else if (p =? underscore)%N then
        fun txt =>
          match txt with
          | [] => false
          | _ :: txt' => like_match pat' txt'
          end
      else
        fun txt =>
          match txt with
          | [] => false
          | c :: txt' =>
              (ascii_lower c =? ascii_lower p)%N && like_match pat' txt'
          end
  end.

(** [text LIKE pattern]: both are read up to their first NUL. *)
Definition sql_like (pattern text : jsstring) : bool :=
  like_match (before_nul (CodePoint.decode pattern))
             (before_nul (CodePoint.decode text)).

(** SQLITE_MAX_LIKE_PATTERN_LENGTH, in bytes. *)
Definition like_pattern_limit : N := 50000.

(** Text order of the BINARY collation on timestamps. *)
Fixpoint text_ltb (a b : jsstring) : bool :=
  match a, b with
  | _, [] => false
  | [], _ :: _ => true
  | x :: a', y :: b' => (x <? y)%N || ((x =? y)%N && text_ltb a' b')
  end.

(** [ORDER BY updated_at DESC] as a stable sort of the table. *)
Fixpoint insert_desc (n : note) (sorted : list note) : list note :=
  match sorted with
  | [] => [n]
  | m :: sorted' =>
      if text_ltb (updated_at m) (updated_at n) then n :: sorted
      else m :: insert_desc n sorted'
  end.

Definition order_by_updated_desc (ns : list note) : list note :=
  fold_left (fun sorted n => insert_desc n sorted) ns [].

Inductive chat_context : Type :=
| PromptRequired                     (* 400 'Prompt required' *)
| ContextNotes (ns : list ctx_note)  (* [contextNotes] at the generation call *)
| RouteFailure (e : exn).            (* 500 'AI route failure' *)

Section Chat.

(** The MATCH operator of the fts5 module on a query string handed
    over by the driver: the rowids of the indexed documents that match
    the query, in the order the module yields them, or [None] when the
    query is not well formed. *)
Variable fts5_match : jsstring -> list fts_doc -> option (list Z).

(** [usedIds] and [contextNotes] *)
Definition chat_state : Type := list Z * list ctx_note.

(** [function pushNote(n)] *)
Definition pushNote (st : chat_state) (n : option ctx_note) : chat_state :=
  match n with
  | None => st
  | Some n =>
      if existsb (Z.eqb (c_id n)) (fst st) then st
      else (fst st ++ [c_id n], snd st ++ [n])
  end.

(** [rows.forEach(pushNote)] *)
Definition forEach_pushNote (rows : list ctx_note) (st : chat_state)
  : chat_state :=
  fold_left (fun st n => pushNote st (Some n)) rows st.

(** [SELECT id,title,content FROM notes WHERE id=?] *)
Definition select_anchor (i : Z) (d : db) : option ctx_note :=
  option_map (fun n => Ctx (id n) (title n) (content n))
             (find (has_id i) (notes d)).

(** [SELECT id,title,content FROM notes ORDER BY updated_at DESC
    LIMIT 50] *)
Definition select_recent (d : db) : list ctx_note :=
  map (fun n => Ctx (id n) (title n) (content n))
      (firstn 50 (order_by_updated_desc (notes d))).

(** [SELECT n.id,n.title,substr(n.content,1,4000) as content FROM
    notes_fts f JOIN notes n ON n.id=f.rowid WHERE notes_fts MATCH ?
    LIMIT ?] run with [(q, k)].  The LIMIT is read first; with a LIMIT
    of 0 the scan does not start and the query is not parsed. *)
Definition select_match (q : jsstring) (k : Z) (d : db)
  : result (list ctx_note) :=
  if negb (limit_ok k) then Throw (SqliteError SQLITE_MISMATCH)
  else if (k =? 0)%Z then Ok []
  else
    match fts5_match q (notes_fts d) with
    | None => Throw (SqliteError SQLITE_ERROR)
    | Some rowids =>
        Ok (sql_limit k
              (map (fun n => Ctx (id n) (title n)
                                 (sql_substr 4000 (content n)))
                   (flat_map (fun r => filter (has_id r) (notes d)) rowids)))
    end.

(** [SELECT id,title,substr(content,1,4000) as content FROM notes
    WHERE title LIKE ? LIMIT ?] run with [(pattern, k)].  The LIMIT is
    read first; LIKE is evaluated on the rows scanned, and throws on a
    pattern longer than its limit. *)
Definition select_like (pattern : jsstring) (k : Z) (d : db)
  : result (list ctx_note) :=
  if negb (limit_ok k) then Throw (SqliteError SQLITE_MISMATCH)
  else if (k =? 0)%Z then Ok []
  else
    match notes d with
    | [] => Ok []
    | _ :: _ =>
        if (like_pattern_limit <? utf8_length pattern)%N
        then Throw (SqliteError SQLITE_ERROR)
        else
          Ok (sql_limit k
                (map (fun n => Ctx (id n) (title n)
                                   (sql_substr 4000 (content n)))
                     (filter (fun n => sql_like (utf8_text pattern) (title n))
                             (notes d))))
    end.

(** [prompt.replace] with the global pattern of one double-quote
    character and the empty replacement *)
Definition strip_quotes (prompt : jsstring) : jsstring :=
  filter (fun c => negb (c =? 34)%N) prompt.

(** The retrieval step of [app.post('/api/ai/chat')], up to the call
    of the generation service.  [prompt] is a string or missing,
    [noteId] and [topK] numbers of integral value or missing.  [topK]
    defaults to 5; [noteId] of [undefined] or [0] is falsy. *)
Definition chat_retrieve (prompt : option jsstring) (noteId : option Z)
           (topK : option Z) (includeAll : bool) (d : db) : chat_context :=
  match prompt with
  | None => PromptRequired
  | Some p =>
      match p, trim p with
      | [], _ | _, [] => PromptRequired
      | _, _ =>
          let topK := match topK with Some k => k | None => 5%Z end in
          let st : chat_state := ([], []) in
          let st :=
            match noteId with
            | Some i =>
                if negb (i =? 0)%Z then pushNote st (select_anchor i d)
                else st
            | None => st
            end in
          if includeAll then
            ContextNotes (snd (forEach_pushNote (select_recent d) st))
          else
            let q := strip_quotes p in
            match select_match q topK d with
            | Ok rows => ContextNotes (snd (forEach_pushNote rows st))
            | Throw _ =>
                (* On MATCH syntax error, fall back to simple title
                   LIKE search *)
                match select_like (percent :: q ++ [percent]) topK d with
                | Ok rows => ContextNotes (snd (forEach_pushNote rows st))
                | Throw e => RouteFailure e
                end
            end
      end
  end.

End Chat.

(** ** Read routes *)

(** What a read route answers: [res.json(rows)], the 404 of a missing
    note, or a throw that leaves the handler (the framework then
    answers 500). *)
Inductive reply (A : Type) : Type :=
| Json (a : A)
| NotFound
| Uncaught (e : exn).

Arguments Json {A} a.
Arguments NotFound {A}.
Arguments Uncaught {A} e.

(** [{id, title}] *)
Record note_ref : Type := Ref { r_id : Z; r_title : jsstring }.

(** [{id, title, snippet, updated_at}] *)
Record list_row : Type := ListRow {
  l_id : Z; l_title : jsstring; l_snippet : jsstring; l_updated_at : jsstring
}.


(** [{tag, count}] *)
Record tag_count : Type := TagCount { t_tag : jsstring; t_count : nat }.

(** [app.get('/api/notes')]:
    [SELECT id, title, substr(content,1,300) as snippet, updated_at
     FROM notes ORDER BY updated_at DESC] *)
Definition get_notes (d : db) : list list_row :=
  map (fun n => ListRow (id n) (title n) (sql_substr 300 (content n))
                        (updated_at n))
      (order_by_updated_desc (notes d)).

(** [app.get('/api/notes/:id')].  The parameter is bound as text and
    compared with the INTEGER column: [i] is the integer SQLite reads
    in it, [None] when it reads none, and then no row is selected. *)
Definition get_note (i : option Z) (d : db) : reply note :=
  match i with
  | None => NotFound
  | Some z =>
      match find (has_id z) (notes d) with
      | Some n => Json n
      | None => NotFound
      end
  end.

(** [SELECT n.id, n.title FROM links l JOIN notes n ON n.id = l.source_id
     WHERE l.target_title = ? ORDER BY n.updated_at DESC] *)
Definition select_backlinks (t : jsstring) (d : db) : list note_ref :=
  map (fun n => Ref (id n) (title n))
      (order_by_updated_desc
         (flat_map
            (fun l =>
               if jsstring_eq_dec (target_title l) t
               then filter (has_id (source_id l)) (notes d)
               else [])
            (links d))).

(** [app.get('/api/notes/:id/backlinks')] *)
Definition get_backlinks (i : option Z) (d : db) : reply (list note_ref) :=
  match get_note i d with
  | Json n => Json (select_backlinks (title n) d)
  | NotFound => NotFound
  | Uncaught e => Uncaught e
  end.


(** The BINARY collation orders text by its UTF-8 bytes, which is the
    order of its code points. *)
Definition collate_ltb (a b : jsstring) : bool :=
  text_ltb (CodePoint.decode a) (CodePoint.decode b).

(** [GROUP BY tag] with [COUNT( * )]: one group per distinct tag. *)
Fixpoint count_tag (t : jsstring) (groups : list tag_count) : list tag_count :=
  match groups with
  | [] => [TagCount t 1]
  | g :: groups' =>
      if jsstring_eq_dec (t_tag g) t
      then TagCount t (S (t_count g)) :: groups'
      else g :: count_tag t groups'
  end.

Definition group_by_tag (rows : list tag_row) : list tag_count :=
  fold_left (fun groups r => count_tag (tag r) groups) rows [].

(** [ORDER BY count DESC, tag ASC] *)
Definition tag_before (a b : tag_count) : bool :=
  (t_count b <? t_count a)%nat
  || ((t_count a =? t_count b)%nat && collate_ltb (t_tag a) (t_tag b)).

Fixpoint insert_tag_count (g : tag_count) (sorted : list tag_count)
  : list tag_count :=
  match sorted with
  | [] => [g]
  | h :: sorted' =>
      if tag_before g h then g :: sorted
      else h :: insert_tag_count g sorted'
  end.

(** [app.get('/api/tags')]:
    [SELECT tag, COUNT( * ) as count FROM tags GROUP BY tag
     ORDER BY count DESC, tag ASC] *)
Definition get_tags (d : db) : list tag_count :=
  fold_left (fun sorted g => insert_tag_count g sorted)
            (group_by_tag (tags d)) [].

(** [{id, title, snippet}] of a search hit. *)
Record search_row : Type := SearchRow {
  s_id : Z; s_title : jsstring; s_snippet : jsstring
}.

Section Search.

(** The fts5 module, as in the chat route, with the matching rowids in
    the order of [rank], and its auxiliary function [snippet]. *)
Variable fts5_match_ranked : jsstring -> list fts_doc -> option (list Z).
Variable fts5_snippet : jsstring -> note -> jsstring.

(** [app.get('/api/search')]; [q] is [req.query.q] when it is a string.
    The handler has no [try]: a throw of the query leaves it. *)
Definition get_search (q : option jsstring) (d : db)
  : reply (list search_row) :=
  let q := trim (match q with Some s => s | None => [] end) in
  match q with
  | [] => Json []
  | _ :: _ =>
      match fts5_match_ranked q (notes_fts d) with
      | None => Uncaught (SqliteError SQLITE_ERROR)
      | Some rowids =>
          Json (firstn 50
                  (map (fun n => SearchRow (id n) (title n) (fts5_snippet q n))
                       (flat_map (fun r => filter (has_id r) (notes d))
                                 rowids)))
      end
  end.

End Search.

(** * Specification-level notions *)

(** ** The wikilink syntax, as the specification words it

    A wikilink is written [[Title]] or [[Title#heading]]: the title is a
    non-empty run of characters other than the closing bracket, the bar
    and the hash; a heading runs on the same line up to the first
    closing pair of brackets. *)

Definition open_brackets : jsstring :=
  [CharClass.lbracket; CharClass.lbracket].

Definition close_brackets : jsstring :=
  [CharClass.rbracket; CharClass.rbracket].

(** No closing pair begins inside the heading. *)
Definition closes_first (heading : jsstring) : Prop :=
  forall a b,
    heading ++ [CharClass.rbracket] <> a ++ close_brackets ++ b.

(** [wikilink s title rest]: [s] begins with a wikilink of that title,
    followed by [rest]. *)
Inductive wikilink : jsstring -> jsstring -> jsstring -> Prop :=
| wikilink_plain title rest :
    title <> [] ->
    Forall (fun c => CharClass.title_char c = true) title ->
    wikilink (open_brackets ++ title ++ close_brackets ++ rest) title rest
| wikilink_heading title heading rest :
    title <> [] ->
    Forall (fun c => CharClass.title_char c = true) title ->
    Forall (fun c => CharClass.dot c = true) heading ->
    closes_first heading ->
    wikilink (open_brackets ++ title ++ [CharClass.hash] ++ heading
              ++ close_brackets ++ rest)
             title rest.

(** [wikilinks s titles]: the titles of the wikilinks of [s], read from
    left to right, each wikilink beginning after the end of the one
    before. *)
Inductive wikilinks : jsstring -> list jsstring -> Prop :=
| wikilinks_end : wikilinks [] []
| wikilinks_link s title rest titles :
    wikilink s title rest ->
    wikilinks rest titles ->
    wikilinks s (title :: titles)
| wikilinks_skip c s titles :
    (forall title rest, ~ wikilink (c :: s) title rest) ->
    wikilinks s titles ->
    wikilinks (c :: s) titles.

(** ** One-pass reading of a wikilink *)

Fixpoint take_while (p : N -> bool) (s : list N) : list N :=
  match s with
  | c :: s' => if p c then c :: take_while p s' else []
  | [] => []
  end.

Fixpoint drop_while (p : N -> bool) (s : list N) : list N :=
  match s with
  | c :: s' => if p c then drop_while p s' else s
  | [] => []
  end.

Definition starts_close (s : list N) : bool :=
  match s with
  | x :: y :: _ => (x =? CharClass.rbracket)%N && (y =? CharClass.rbracket)%N
  | _ => false
  end.

(** The text after the first closing pair, if one comes before the end
    of the line. *)
Fixpoint find_close (s : list N) : option (list N) :=
  if starts_close s then Some (skipn 2 s)
  else
    match s with
    | c :: s' => if CharClass.dot c then find_close s' else None
    | [] => None
    end.

(** The wikilink at the head of a text, by one pass and no
    backtracking: title and rest. *)
Definition parse_wikilink (s : list N) : option (list N * list N) :=
  match s with
  | a :: b :: s0 =>
      if (a =? CharClass.lbracket)%N && (b =? CharClass.lbracket)%N then
        match take_while CharClass.title_char s0 with
        | [] => None
        | title =>
            let s2 := drop_while CharClass.title_char s0 in
            if starts_close s2 then Some (title, skipn 2 s2)
            else
              match s2 with
              | c :: s3 =>
                  if (c =? CharClass.hash)%N
                  then option_map (pair title) (find_close s3)
                  else None
              | [] => None
              end
        end
      else None
  | _ => None
  end.

Definition last_char (prev : option N) (s : list N) : option N :=
  fold_left (fun _ c => Some c) s prev.

(** The tail of the pattern after group 1, as a continuation. *)
Definition after_title (s0 : list N) : cont :=
  fun prev s caps =>
    rmatch (Seq (Opt (Seq (Char CharClass.hash) (LazyStar CharClass.dot)))
                (Seq (Char CharClass.rbracket) (Char CharClass.rbracket)))
           prev s ((1%nat, consumed s0 s) :: caps) accept.

(** ** Derived rows, reachable databases, context state *)

Definition link_targets (i : Z) (d : db) : list jsstring :=
  map target_title (filter (fun l => (source_id l =? i)%Z) (links d)).

Definition tag_names (i : Z) (d : db) : list jsstring :=
  map tag (filter (fun r => (note_id r =? i)%Z) (tags d)).

Definition updated (vt vc now : jsstring) (n : note) : note :=
  Note (id n) vt vc (created_at n) now.

(** Reachable databases: every note has its own id (PRIMARY KEY) and
    ids are positive, as the rowids handed out by [next_rowid] are.  The
    empty database is consistent and every route keeps it so. *)
Definition consistent (d : db) : Prop :=
  NoDup (map id (notes d)) /\ Forall (fun n => (0 < id n)%Z) (notes d).

Definition notes_kept {A} (m : M A) : Prop :=
  forall d r d', m d = (r, d') -> notes d' = notes d.

(** [usedIds] lists the ids of [contextNotes], each once. *)
Definition chat_state_ok (st : list Z * list ctx_note) : Prop :=
  fst st = map c_id (snd st) /\ NoDup (fst st).

(** First occurrence wins: a row is added exactly when its id is
    neither in [usedIds] nor the id of an earlier row. *)
Fixpoint first_occurrences (seen : list Z) (rows : list ctx_note)
  : list ctx_note :=
  match rows with
  | [] => []
  | r :: rows' =>
      if existsb (Z.eqb (c_id r)) seen then first_occurrences seen rows'
      else r :: first_occurrences (seen ++ [c_id r]) rows'
  end.

(** The rows of id [j] deleted, as the two DELETE statements leave the
    database. *)
Definition rows_deleted (j : Z) (d : db) : db :=
  Db (notes d)
     (filter (fun l => negb (source_id l =? j)%Z) (links d))
     (filter (fun r => negb (note_id r =? j)%Z) (tags d))
     (notes_fts d).

(** ** Well-formed text *)

(** Every code unit of a string is below [2^16]. *)
Definition code_units (s : jsstring) : Prop :=
  Forall (fun c => (c < 0x10000)%N) s.

(** Well-formed UTF-16: no surrogate stands outside a pair. *)
Definition well_formed (s : jsstring) : Prop :=
  code_units s
  /\ Forall (fun cp => CodePoint.is_surrogate cp = false) (CodePoint.decode s).

(** ** The columns a write binds *)

(** The values an argument gives: one per element of an array, none for
    an object, one otherwise. *)
Definition values_of (v : jsval) : option (list sqlval) :=
  match v with
  | JArray vs =>
      fold_right
        (fun v acc =>
           match sql_of v, acc with
           | Some x, Some xs => Some (x :: xs)
           | _, _ => None
           end)
        (Some []) vs
  | JObject => Some []
  | _ => option_map (fun x => [x]) (sql_of v)
  end.

Definition is_object (v : jsval) : bool :=
  match v with JObject => true | _ => false end.

(** What the note statement stores in [title] and [content] when
    [title] and [content] of the request give its first two values
    between them; [None] when the binder throws. *)
Definition columns (et : Z -> jsstring) (t c : jsval)
  : option (option jsstring * option jsstring) :=
  match values_of t, values_of c with
  | Some xt, Some xc =>
      match xt ++ xc with
      | [x; y] =>
          if is_object t && is_object c then None
          else Some (text_column et x, text_column et y)
      | _ => None
      end
  | _, _ => None
  end.

(** A content that is text: a well-formed string, or none ([undefined],
    [null]; a boolean, which the binder refuses, does no harm either).
    Numbers, arrays and objects are left out. *)
Definition text_content (c : jsval) : Prop :=
  match c with
  | JString s => well_formed s
  | JUndefined | JNull | JBool _ => True
  | JNumber _ | JArray _ | JObject => False
  end.

(** ** Invariants of the store *)

(** The search document of a note, as the triggers write it. *)
Definition doc_of (n : note) : fts_doc := Doc (id n) (title n) (content n).

(** [title TEXT UNIQUE] *)
Definition titles_unique (d : db) : Prop := NoDup (map title (notes d)).

(** The index holds the document of every note and nothing else. *)
Definition fts_synced (d : db) : Prop :=
  Permutation (notes_fts d) (map doc_of (notes d)).

(** The Link and Tag rows of every note are those of its content. *)
Definition derived_synced (ul : N -> bool) (d : db) : Prop :=
  forall n,
    In n (notes d) ->
    link_targets (id n) d = extractLinks (content n)
    /\ tag_names (id n) d = extractTags ul (content n).

(** Every Link and Tag row belongs to a note. *)
Definition no_orphans (d : db) : Prop :=
  (forall l, In l (links d) -> existsb (has_id (source_id l)) (notes d) = true)
  /\ (forall r, In r (tags d) -> existsb (has_id (note_id r)) (notes d) = true).

(** The database after the rows of id [j] were replaced by [ls], [ts]. *)
Definition rows_replaced (j : Z) (ls ts : list jsstring) (d : db) : db :=
  Db (notes d)
     (filter (fun l => negb (source_id l =? j)%Z) (links d) ++ map (Link j) ls)
     (filter (fun r => negb (note_id r =? j)%Z) (tags d) ++ map (Tag j) ts)
     (notes_fts d).

(** ** Notions used by the further properties *)

(** The first statement of [upsertNote] returned [j] and left [d1]. *)
Definition note_statement_ran (et : Z -> jsstring) (now created : jsstring)
           (i : option Z) (t c : jsval) (d : db) (j : Z) (d1 : db) : Prop :=
  if truthy i
  then i = Some j /\ update_note et t c now j d = (Ok tt, d1)
  else insert_note et t c now created d = (Ok j, d1).

(** The tail of the tag pattern after group 1, as a continuation. *)
Definition after_lead (ul : N -> bool) (s0 : list N) : cont :=
  fun prev s caps =>
    rmatch (Seq (Char CharClass.hash)
                (Seq (Group 2 (Plus (tag_char ul))) WordBoundary))
           prev s ((1%nat, consumed s0 s) :: caps) accept.

Definition starts_unspaced (s : jsstring) : Prop :=
  match s with
  | [] => True
  | c :: _ => CharClass.is_space c = false
  end.

(** [t] is [raw] without the whitespace at its two ends, as the
    specification words trimming. *)
Definition trimmed (raw t : jsstring) : Prop :=
  exists a b,
    raw = a ++ t ++ b
    /\ Forall (fun c => CharClass.is_space c = true) a
    /\ Forall (fun c => CharClass.is_space c = true) b
    /\ starts_unspaced t /\ starts_unspaced (rev t).

Definition has_tag (t : jsstring) (r : tag_row) : bool :=
  if jsstring_eq_dec (tag r) t then true else false.

Definition count_rows (t : jsstring) (rows : list tag_row) : nat :=
  length (filter (has_tag t) rows).

(** The notes whose content carries the tag. *)
Definition notes_tagged (ul : N -> bool) (t : jsstring) (ns : list note)
  : list note :=
  filter (fun n => if in_dec jsstring_eq_dec t (extractTags ul (content n))
                   then true else false) ns.

(** The groups after any number of rows: one per tag seen, with the
    number of rows seen that carry it. *)
Definition groups_of (groups : list tag_count) (rows : list tag_row) : Prop :=
  NoDup (map t_tag groups)
  /\ forall g, In g groups
               <-> t_count g = count_rows (t_tag g) rows
                   /\ (0 < t_count g)%nat.

Definition count_ge (a b : tag_count) : Prop := (t_count b <= t_count a)%nat.

(** Note 1, A, links to note 2, B, and carries the tag t. *)
Definition two_notes : db :=
  Db [Note 1 (str "A") (str "See [[B]] #t") (str "t0") (str "t0");
      Note 2 (str "B") [] (str "t0") (str "t1")]
     [Link 1 (str "B")] [Tag 1 (str "t")]
     [Doc 1 (str "A") (str "See [[B]] #t"); Doc 2 (str "B") []].

(** [a] is not before [b] in the text order of [ORDER BY]. *)
Definition not_earlier (a b : jsstring) : Prop := text_ltb a b = false.

(** ** The LIKE operator, as SQLite documents it

    A percent sign in the pattern matches any run of characters, an
    underscore any one character, any other character itself or, for an
    ASCII letter, its other case. *)





(** * Properties *)

(** ** Code points and stored text *)

Lemma decode_step x y s :
  CodePoint.decode (x :: y :: s)
  = if CodePoint.is_lead x && CodePoint.is_trail y
    then (0x10000 + (x - 0xD800) * 0x400 + (y - 0xDC00))%N
         :: CodePoint.decode s
    else x :: CodePoint.decode (y :: s).
Proof. reflexivity. Qed.

(** Induction that follows [decode]: two units at a time. *)
Lemma decode_pairs (P : list N -> Prop) :
  P [] ->
  (forall x, P [x]) ->
  (forall x y s, P s -> P (y :: s) -> P (x :: y :: s)) ->
  forall s, P s.
Proof.
  intros H0 H1 H2 s.
  assert (G : P s /\ forall x, P (x :: s)).
  { induction s as [|y s [IH1 IH2]]; [now split|].
    split; [apply IH2|]. intros x. apply H2; [exact IH1|apply IH2]. }
  apply G.
Qed.

Lemma decode_length s : (length (CodePoint.decode s) <= length s)%nat.
Proof.
  induction s as [| x | x y s IH1 IH2] using decode_pairs;
    [simpl; lia | simpl; lia |].
  rewrite decode_step.
  destruct (CodePoint.is_lead x && CodePoint.is_trail y);
    cbn [length] in *; lia.
Qed.

Lemma pair_value x y :
  CodePoint.is_lead x = true -> CodePoint.is_trail y = true ->
  let cp := (0x10000 + (x - 0xD800) * 0x400 + (y - 0xDC00))%N in
  (0x10000 <= cp < 0x110000)%N /\ CodePoint.units cp = [x; y].
Proof.
  unfold CodePoint.is_lead, CodePoint.is_trail. intros Ex Ey.
  apply andb_true_iff in Ex, Ey.
  destruct Ex as [Ex1 Ex2], Ey as [Ey1 Ey2].
  apply N.leb_le in Ex1, Ex2, Ey1, Ey2. cbv zeta. split; [lia|].
  unfold CodePoint.units.
  replace (0x10000 + (x - 0xD800) * 0x400 + (y - 0xDC00) <? 0x10000)%N
    with false by (symmetry; apply N.ltb_ge; lia).
  replace (0x10000 + (x - 0xD800) * 0x400 + (y - 0xDC00) - 0x10000)%N
    with ((y - 0xDC00) + (x - 0xD800) * 0x400)%N by lia.
  rewrite N.div_add by lia. rewrite N.Div0.mod_add.
  rewrite N.div_small by lia. rewrite N.mod_small by lia.
  f_equal; [lia|]. f_equal. lia.
Qed.

Lemma encode_decode s :
  code_units s -> CodePoint.encode (CodePoint.decode s) = s.
Proof.
  unfold code_units.
  induction s as [| x | x y s IH1 IH2] using decode_pairs; intros H.
  - reflexivity.
  - inversion H as [|? ? Hx _]; subst. cbn.
    unfold CodePoint.units.
    apply N.ltb_lt in Hx. now rewrite Hx.
  - rewrite decode_step.
    inversion H as [|? ? Hx H']; subst.
    inversion H' as [|? ? Hy H'']; subst.
    destruct (CodePoint.is_lead x) eqn:Ex;
      [destruct (CodePoint.is_trail y) eqn:Ey|]; cbn [andb].
    + destruct (pair_value x y Ex Ey) as [_ Hu].
      change (CodePoint.encode
                ((0x10000 + (x - 0xD800) * 0x400 + (y - 0xDC00))%N
                 :: CodePoint.decode s))
        with (CodePoint.units (0x10000 + (x - 0xD800) * 0x400 + (y - 0xDC00))
              ++ CodePoint.encode (CodePoint.decode s)).
      rewrite Hu, (IH1 H''). reflexivity.
    + change (CodePoint.encode (x :: CodePoint.decode (y :: s)))
        with (CodePoint.units x ++ CodePoint.encode (CodePoint.decode (y :: s))).
      rewrite (IH2 H'). unfold CodePoint.units.
      apply N.ltb_lt in Hx. now rewrite Hx.
    + change (CodePoint.encode (x :: CodePoint.decode (y :: s)))
        with (CodePoint.units x ++ CodePoint.encode (CodePoint.decode (y :: s))).
      rewrite (IH2 H'). unfold CodePoint.units.
      apply N.ltb_lt in Hx. now rewrite Hx.
Qed.

(** The code points of a string are below [0x110000]. *)
Lemma decode_bound s :
  code_units s -> Forall (fun cp => (cp < 0x110000)%N) (CodePoint.decode s).
Proof.
  unfold code_units.
  induction s as [| x | x y s IH1 IH2] using decode_pairs; intros H.
  - constructor.
  - inversion H; subst. simpl. constructor; [lia | constructor].
  - rewrite decode_step.
    inversion H as [|? ? Hx H']; subst.
    inversion H' as [|? ? Hy H'']; subst.
    destruct (CodePoint.is_lead x) eqn:Ex;
      [destruct (CodePoint.is_trail y) eqn:Ey|]; cbn [andb].
    + destruct (pair_value x y Ex Ey) as [Hb _].
      constructor; [lia | now apply IH1].
    + constructor; [lia | now apply IH2].
    + constructor; [lia | now apply IH2].
Qed.

Lemma decode_cons_plain c s :
  CodePoint.is_lead c = false ->
  CodePoint.decode (c :: s) = c :: CodePoint.decode s.
Proof.
  intros Hc. destruct s as [|y s]; [reflexivity|].
  rewrite decode_step, Hc. reflexivity.
Qed.

(** A sequence of scalar values is read back from its UTF-16 form. *)
Lemma decode_encode cps :
  Forall (fun cp => CodePoint.is_surrogate cp = false /\ (cp < 0x110000)%N)
         cps ->
  CodePoint.decode (CodePoint.encode cps) = cps.
Proof.
  induction 1 as [|cp cps [Hs Hb] _ IH]; [reflexivity|].
  change (CodePoint.encode (cp :: cps))
    with (CodePoint.units cp ++ CodePoint.encode cps).
  unfold CodePoint.units. destruct (cp <? 0x10000)%N eqn:E.
  - cbn [app]. rewrite decode_cons_plain, IH; [reflexivity|].
    unfold CodePoint.is_surrogate in Hs. unfold CodePoint.is_lead.
    apply andb_false_iff in Hs. apply andb_false_iff.
    destruct Hs as [Hs|Hs]; [now left|]. right.
    apply N.leb_gt in Hs. apply N.leb_gt. lia.
  - apply N.ltb_ge in E. cbn [app]. rewrite decode_step.
    pose proof (N.div_mod (cp - 0x10000) 0x400 ltac:(discriminate)) as Hdm.
    assert (Hq : ((cp - 0x10000) / 0x400 < 0x400)%N).
    { apply N.Div0.div_lt_upper_bound. lia. }
    assert (Hr : ((cp - 0x10000) mod 0x400 < 0x400)%N).
    { apply N.mod_lt. discriminate. }
    set (q := ((cp - 0x10000) / 0x400)%N) in *.
    set (r := ((cp - 0x10000) mod 0x400)%N) in *.
    clearbody q r.
    assert (Hl : CodePoint.is_lead (0xD800 + q) = true).
    { unfold CodePoint.is_lead. apply andb_true_iff.
      split; apply N.leb_le; lia. }
    assert (Ht : CodePoint.is_trail (0xDC00 + r) = true).
    { unfold CodePoint.is_trail. apply andb_true_iff.
      split; apply N.leb_le; lia. }
    rewrite Hl, Ht. cbn [andb]. rewrite IH. f_equal. lia.
Qed.


Lemma scalar_fixed cp :
  CodePoint.is_surrogate cp = false -> CodePoint.scalar cp = cp.
Proof.
  unfold CodePoint.scalar. now intros ->.
Qed.


(** Well-formed text is stored as it is. *)
Lemma utf8_text_well_formed s : well_formed s -> utf8_text s = s.
Proof.
  intros [Hu Hs]. unfold utf8_text.
  rewrite <- (encode_decode Hu) at 2. f_equal.
  rewrite <- (map_id (CodePoint.decode s)) at 2.
  apply map_ext_in. intros cp Hcp.
  rewrite Forall_forall in Hs. now apply scalar_fixed, Hs.
Qed.

(** [decode] splits where no pair straddles the cut. *)
Lemma decode_app a b :
  (forall a' x y b',
      a = a' ++ [x] -> b = y :: b' ->
      CodePoint.is_lead x && CodePoint.is_trail y = false) ->
  CodePoint.decode (a ++ b) = CodePoint.decode a ++ CodePoint.decode b.
Proof.
  induction a as [| x | x y a IH1 IH2] using decode_pairs; intros H.
  - reflexivity.
  - destruct b as [|y b]; [reflexivity|].
    cbn [app]. rewrite decode_step.
    now rewrite (H [] x y b eq_refl eq_refl).
  - cbn [app]. rewrite !decode_step.
    destruct (CodePoint.is_lead x && CodePoint.is_trail y).
    + cbn [app]. f_equal. apply IH1.
      intros a' x' y' b' Ea Eb. apply (H (x :: y :: a') x' y' b').
      * now rewrite Ea.
      * exact Eb.
    + cbn [app]. f_equal. apply IH2.
      intros a' x' y' b' Ea Eb.
      destruct a' as [|z a'].
      * apply (H [x] x' y' b'); [|exact Eb].
        cbn [app] in Ea. cbn [app]. now rewrite Ea.
      * apply (H (x :: z :: a') x' y' b'); [|exact Eb].
        cbn [app] in Ea. cbn [app]. now rewrite Ea.
Qed.

Lemma well_formed_app a b :
  well_formed (a ++ b) ->
  (forall a' x y b',
      a = a' ++ [x] -> b = y :: b' ->
      CodePoint.is_lead x && CodePoint.is_trail y = false) ->
  well_formed a /\ well_formed b.
Proof.
  intros [Hu Hs] Hcut. unfold code_units in Hu.
  apply Forall_app in Hu. destruct Hu as [Hua Hub].
  rewrite (decode_app Hcut) in Hs.
  apply Forall_app in Hs. destruct Hs as [Hsa Hsb].
  now repeat split.
Qed.

(** ** The content parser *)

Lemma take_drop_while p s : take_while p s ++ drop_while p s = s.
Proof.
  induction s as [|c s IH]; simpl; [reflexivity|].
  destruct (p c); simpl; [now rewrite IH | reflexivity].
Qed.

Lemma consumed_app a b : consumed (a ++ b) b = a.
Proof.
  unfold consumed. rewrite length_app.
  replace (length a + length b - length b)%nat with (length a) by lia.
  rewrite firstn_app, Nat.sub_diag, firstn_all. simpl. apply app_nil_r.
Qed.

Lemma star_greedy_maximal p (k : cont) :
  (forall prev c s caps, p c = true -> k prev (c :: s) caps = None) ->
  forall s prev caps,
    star_greedy p prev s caps k
    = k (last_char prev (take_while p s)) (drop_while p s) caps.
Proof.
  intros Hk. induction s as [|c s IH]; intros prev caps; simpl.
  - reflexivity.
  - destruct (p c) eqn:E; [|reflexivity].
    rewrite IH. rewrite (Hk prev c s caps E).
    now destruct (k _ _ _).
Qed.

Lemma star_lazy_find_close (k : cont) :
  forall s prev caps,
    (forall prev' s' caps', (length s' <= length s)%nat ->
       k prev' s' caps'
       = if starts_close s' then Some (MRes caps' (skipn 2 s')) else None) ->
    star_lazy CharClass.dot prev s caps k
    = option_map (MRes caps) (find_close s).
Proof.
  induction s as [|c s IH]; intros prev caps Hk.
  - simpl. rewrite Hk by reflexivity. reflexivity.
  - cbn [star_lazy find_close]. rewrite Hk by reflexivity.
    destruct (starts_close (c :: s)); [reflexivity|].
    destruct (CharClass.dot c); [|reflexivity].
    apply IH. intros prev' s' caps' Hlen. apply Hk. simpl. lia.
Qed.

Lemma title_char_tests c :
  CharClass.title_char c = true ->
  (c =? CharClass.rbracket)%N = false /\ (c =? CharClass.hash)%N = false.
Proof.
  unfold CharClass.title_char. intros H. apply negb_true_iff in H.
  apply orb_false_iff in H. destruct H as [H H3].
  apply orb_false_iff in H. destruct H as [H1 H2]. now split.
Qed.

Lemma close_continuation prev s caps :
  rmatch (Seq (Char CharClass.rbracket) (Char CharClass.rbracket))
         prev s caps accept
  = if starts_close s then Some (MRes caps (skipn 2 s)) else None.
Proof.
  destruct s as [|x [|y s]]; simpl.
  - reflexivity.
  - now destruct (x =? CharClass.rbracket)%N.
  - destruct (x =? CharClass.rbracket)%N; [|reflexivity].
    now destruct (y =? CharClass.rbracket)%N.
Qed.

Lemma after_title_fails s0 prev c s caps :
  CharClass.title_char c = true -> after_title s0 prev (c :: s) caps = None.
Proof.
  intros H. apply title_char_tests in H. destruct H as [H1 H2].
  unfold after_title. cbn [rmatch]. rewrite H2.
  destruct s as [|y s]; now rewrite H1.
Qed.

Lemma after_title_at s0 prev s caps :
  after_title s0 prev s caps
  = if starts_close s
    then Some (MRes ((1%nat, consumed s0 s) :: caps) (skipn 2 s))
    else
      match s with
      | c :: s3 =>
          if (c =? CharClass.hash)%N
          then option_map (MRes ((1%nat, consumed s0 s) :: caps))
                          (find_close s3)
          else None
      | [] => None
      end.
Proof.
  unfold after_title. set (caps1 := (1%nat, consumed s0 s) :: caps).
  cbn [rmatch].
  destruct s as [|c s3]; [reflexivity|].
  destruct (c =? CharClass.hash)%N eqn:Eh.
  - assert (Hs : starts_close (c :: s3) = false).
    { apply N.eqb_eq in Eh. subst c. now destruct s3. }
    rewrite Hs.
    rewrite star_lazy_find_close.
    + destruct (find_close s3); [reflexivity|].
      simpl. apply N.eqb_eq in Eh. subst c. reflexivity.
    + intros prev' s' caps' Hlen.
      replace (length s' =? length (c :: s3))%nat with false.
      * fold (rmatch (Seq (Char CharClass.rbracket) (Char CharClass.rbracket)) prev' s' caps' accept).
        apply close_continuation.
      * symmetry. apply Nat.eqb_neq. simpl. lia.
  - fold (rmatch (Seq (Char CharClass.rbracket) (Char CharClass.rbracket)) prev (c :: s3) caps1 accept).
    rewrite close_continuation. reflexivity.
Qed.

Lemma consumed_drop_while p s :
  consumed s (drop_while p s) = take_while p s.
Proof.
  rewrite <- (@take_drop_while p s) at 1. apply consumed_app.
Qed.

(** One attempt of the pattern is the one-pass parser. *)
Lemma match_here_wikilink prev s :
  match_here WIKILINK_RE prev s
  = option_map (fun tr => MRes [(1%nat, fst tr)] (snd tr)) (parse_wikilink s).
Proof.
  unfold match_here, WIKILINK_RE, parse_wikilink.
  destruct s as [|a [|b s0]]; cbn [rmatch].
  - reflexivity.
  - now destruct (a =? CharClass.lbracket)%N.
  - destruct (a =? CharClass.lbracket)%N; [|reflexivity].
    destruct (b =? CharClass.lbracket)%N; [|reflexivity].
    cbn [andb].
    change (fun prev' s' caps' =>
              rmatch _ prev' s' ((1%nat, consumed s0 s') :: caps') accept)
      with (after_title s0).
    destruct s0 as [|x s1]; [reflexivity|].
    cbn [take_while drop_while].
    destruct (CharClass.title_char x) eqn:Ex; [|reflexivity].
    rewrite (@star_greedy_maximal CharClass.title_char (after_title (x :: s1))
               (@after_title_fails (x :: s1))).
    rewrite after_title_at.
    assert (Ec : consumed (x :: s1) (drop_while CharClass.title_char s1)
                 = x :: take_while CharClass.title_char s1).
    { transitivity
        (consumed ((x :: take_while CharClass.title_char s1)
                   ++ drop_while CharClass.title_char s1)
                  (drop_while CharClass.title_char s1)).
      - simpl app. now rewrite take_drop_while.
      - apply consumed_app. }
    rewrite Ec.
    destruct (starts_close _); [reflexivity|].
    destruct (drop_while CharClass.title_char s1) as [|c s3]; [reflexivity|].
    destruct (c =? CharClass.hash)%N; [|reflexivity].
    now destruct (find_close s3).
Qed.

Lemma take_while_all p s : Forall (fun c => p c = true) (take_while p s).
Proof.
  induction s as [|c s IH]; simpl; [constructor|].
  destruct (p c) eqn:E; constructor; assumption.
Qed.

Lemma take_while_run p t c r :
  Forall (fun c => p c = true) t -> p c = false ->
  take_while p (t ++ c :: r) = t /\ drop_while p (t ++ c :: r) = c :: r.
Proof.
  intros Ht Hc. induction Ht as [|x t Hx Ht IH]; simpl.
  - now rewrite Hc.
  - rewrite Hx. destruct IH as [-> ->]. now split.
Qed.

Lemma closes_first_tail c h : closes_first (c :: h) -> closes_first h.
Proof.
  intros H a b E. apply (H (c :: a) b). simpl. now rewrite E.
Qed.

Lemma starts_close_spec s :
  starts_close s = true <-> exists r, s = close_brackets ++ r.
Proof.
  split.
  - destruct s as [|x [|y r]]; simpl; try discriminate.
    intros H. apply andb_true_iff in H. destruct H as [Hx Hy].
    apply N.eqb_eq in Hx, Hy. subst. now exists r.
  - intros (r & ->). reflexivity.
Qed.

Lemma find_close_complete h r :
  Forall (fun c => CharClass.dot c = true) h ->
  closes_first h ->
  find_close (h ++ close_brackets ++ r) = Some r.
Proof.
  intros Hdot. induction Hdot as [|c h Hc Hdot IH]; intros Hfirst.
  - reflexivity.
  - assert (Hs : starts_close ((c :: h) ++ close_brackets ++ r) = false).
    { destruct (starts_close _) eqn:E; [|reflexivity]. exfalso.
      apply starts_close_spec in E. destruct E as (r' & E).
      destruct h as [|y h].
      - inversion E; subst. apply (Hfirst [] []). reflexivity.
      - inversion E; subst. apply (Hfirst [] (h ++ [CharClass.rbracket])).
        reflexivity. }
    simpl app in *. cbn [find_close]. rewrite Hs, Hc.
    apply IH. now apply closes_first_tail in Hfirst.
Qed.

Lemma find_close_sound s r :
  find_close s = Some r ->
  exists h,
    s = h ++ close_brackets ++ r
    /\ Forall (fun c => CharClass.dot c = true) h
    /\ closes_first h.
Proof.
  revert r. induction s as [|c s IH]; intros r H.
  - discriminate H.
  - cbn [find_close] in H. destruct (starts_close (c :: s)) eqn:Es.
    + apply starts_close_spec in Es. destruct Es as (r' & Es).
      rewrite Es in H. simpl in H. inversion H; subst r'.
      exists []. split; [exact Es|]. split; [constructor|].
      intros a b E. apply (f_equal (@length N)) in E.
      rewrite !length_app in E. simpl in E. lia.
    + destruct (CharClass.dot c) eqn:Ec; [|discriminate H].
      destruct (IH r H) as (h & Hs & Hdot & Hfirst).
      exists (c :: h). split; [simpl; now rewrite Hs|].
      split; [now constructor|].
      intros a b E. destruct a as [|x a].
      * simpl in E. inversion E as [[Hc Ht]]. subst c.
        assert (Hy : exists t, s = CharClass.rbracket :: t).
        { rewrite Hs. destruct h as [|y h]; [now eexists|].
          simpl in Ht. inversion Ht; subst. now eexists. }
        destruct Hy as (t & ->). discriminate Es.
      * simpl in E. inversion E as [[Hc Ht]]. now apply (Hfirst a b).
Qed.

Lemma parse_wikilink_complete s t r :
  wikilink s t r -> parse_wikilink s = Some (t, r).
Proof.
  intros H. destruct H as [t r Hne Ht | t h r Hne Ht Hh Hfirst];
    unfold parse_wikilink, open_brackets; cbn [app];
    rewrite !N.eqb_refl; cbn [andb].
  - destruct (@take_while_run CharClass.title_char t CharClass.rbracket
                             (CharClass.rbracket :: r) Ht eq_refl)
      as [E1 E2].
    unfold close_brackets. cbn [app]. rewrite E1, E2.
    destruct t; [now elim Hne | reflexivity].
  - destruct (@take_while_run CharClass.title_char t CharClass.hash
                             (h ++ close_brackets ++ r) Ht eq_refl)
      as [E1 E2].
    rewrite E1, E2. destruct t as [|x t]; [now elim Hne|].
    replace (starts_close (CharClass.hash :: h ++ close_brackets ++ r))
      with false by (now destruct h).
    rewrite N.eqb_refl, find_close_complete by assumption. reflexivity.
Qed.

Lemma parse_wikilink_sound s t r :
  parse_wikilink s = Some (t, r) -> wikilink s t r.
Proof.
  unfold parse_wikilink. destruct s as [|a [|b s0]]; try discriminate.
  destruct (a =? CharClass.lbracket)%N eqn:Ea; [|discriminate].
  destruct (b =? CharClass.lbracket)%N eqn:Eb; [|discriminate].
  apply N.eqb_eq in Ea, Eb. subst a b. cbn [andb].
  pose proof (@take_drop_while CharClass.title_char s0) as Hs0.
  pose proof (@take_while_all CharClass.title_char s0) as Hall.
  destruct (take_while CharClass.title_char s0) as [|x t0] eqn:Et;
    [discriminate|].
  destruct (starts_close (drop_while CharClass.title_char s0)) eqn:Es.
  - intros H. inversion H; subst t r; clear H.
    apply starts_close_spec in Es. destruct Es as (r' & Es).
    rewrite Es in Hs0. rewrite Es. simpl skipn. rewrite <- Hs0.
    apply (@wikilink_plain (x :: t0) r'); [discriminate | exact Hall].
  - destruct (drop_while CharClass.title_char s0) as [|c s3]; [discriminate|].
    destruct (c =? CharClass.hash)%N eqn:Ec; [|discriminate].
    apply N.eqb_eq in Ec. subst c.
    destruct (find_close s3) as [r'|] eqn:Ef; [|discriminate].
    intros H. inversion H; subst t r'; clear H.
    apply find_close_sound in Ef. destruct Ef as (h & -> & Hdot & Hfirst).
    rewrite <- Hs0.
    apply (@wikilink_heading (x :: t0) h r); try assumption. discriminate.
Qed.

Lemma wikilink_functional s t r t' r' :
  wikilink s t r -> wikilink s t' r' -> t = t' /\ r = r'.
Proof.
  intros H H'. apply parse_wikilink_complete in H, H'.
  rewrite H in H'. inversion H'. now split.
Qed.

Lemma wikilinks_functional s l l' :
  wikilinks s l -> wikilinks s l' -> l = l'.
Proof.
  intros H. revert l'.
  induction H as [|s t r l Hw Hl IH|c s l Hno Hl IH]; intros l' H'.
  - inversion H'; subst; [reflexivity|].
    match goal with H : wikilink [] _ _ |- _ => inversion H end.
  - inversion H' as [|s1 t1 r1 l1 Hw1 Hl1|c1 s1 l1 Hno1 Hl1]; subst.
    + inversion Hw.
    + destruct (@wikilink_functional _ _ _ _ _ Hw Hw1) as [-> ->].
      f_equal. now apply IH.
    + exfalso. now apply (Hno1 t r).
  - inversion H' as [|s1 t1 r1 l1 Hw1 Hl1|c1 s1 l1 Hno1 Hl1]; subst.
    + exfalso. now apply (Hno t1 r1).
    + now apply IH.
Qed.

(** A wikilink has at least five characters before its rest. *)
Lemma wikilink_text s t r :
  wikilink s t r -> exists c a, s = c :: a ++ r.
Proof.
  intros H. destruct H as [t r _ _ | t h r _ _ _ _].
  - exists CharClass.lbracket, (CharClass.lbracket :: t ++ close_brackets).
    simpl. now rewrite <- !app_assoc.
  - exists CharClass.lbracket,
      (CharClass.lbracket :: t ++ [CharClass.hash] ++ h ++ close_brackets).
    simpl. rewrite <- !app_assoc. simpl. now rewrite <- !app_assoc.
Qed.

Lemma scan_skip r a rest prev :
  exists prev', scan r (length a) prev (a ++ rest) = scan r 0 prev' rest.
Proof.
  revert prev. induction a as [|c a IH]; intros prev.
  - now exists prev.
  - destruct (IH (Some c)) as (prev' & E). exists prev'. exact E.
Qed.

(** The matches of the global pattern are the wikilinks of the text. *)
Lemma scan_wikilinks n :
  forall s prev,
    (length s <= n)%nat ->
    wikilinks s (map (group 1) (scan WIKILINK_RE 0 prev s)).
Proof.
  induction n as [|n IH]; intros s prev Hlen.
  - destruct s; [|simpl in Hlen; lia]. simpl. constructor.
  - destruct s as [|c s]; [simpl; constructor|].
    cbn [scan]. rewrite match_here_wikilink.
    destruct (parse_wikilink (c :: s)) as [[t r]|] eqn:Ep; cbn [option_map].
    + apply parse_wikilink_sound in Ep.
      destruct (@wikilink_text _ _ _ Ep) as (c' & a & E).
      inversion E; subst c' s. cbn [m_caps m_rest fst snd map].
      replace (pred (length (c :: a ++ r) - length r)) with (length a)
        by (cbn [length]; rewrite length_app; lia).
      destruct (@scan_skip WIKILINK_RE a r (Some c)) as (prev' & ->).
      apply wikilinks_link with (rest := r); [exact Ep|].
      apply IH. simpl in Hlen. rewrite length_app in Hlen. lia.
    + apply wikilinks_skip.
      * intros t r Hw. apply parse_wikilink_complete in Hw. congruence.
      * apply IH. simpl in Hlen. lia.
Qed.

Lemma set_add_in x y l : In y (set_add x l) <-> In y l \/ y = x.
Proof.
  unfold set_add. destruct (in_dec jsstring_eq_dec x l) as [Hin|Hnot].
  - split; [now left|]. intros [H| ->]; assumption.
  - rewrite in_app_iff. simpl. intuition congruence.
Qed.

Lemma set_add_nodup x l : NoDup l -> NoDup (set_add x l).
Proof.
  intros H. unfold set_add.
  destruct (in_dec jsstring_eq_dec x l) as [Hin|Hnot]; [exact H|].
  apply NoDup_app; [exact H | repeat constructor; intros [] |].
  intros y Hy [<-|[]]. contradiction.
Qed.

(** The loop of [extractLinks] over the matches, from any set. *)
Lemma extractLinks_loop ms :
  forall acc,
    NoDup acc ->
    let targets :=
      fold_left
        (fun targets m =>
           let t := trim (group 1 m) in
           match t with
           | [] => targets
           | _ :: _ => set_add t targets
           end) ms acc in
    NoDup targets
    /\ (forall t,
          In t targets
          <-> In t acc
              \/ (t <> [] /\ exists m, In m ms /\ t = trim (group 1 m))).
Proof.
  induction ms as [|m ms IH]; intros acc Hacc; cbn [fold_left].
  - split; [exact Hacc|]. intros t. split; [now left|].
    intros [H|(_ & m & [] & _)]. exact H.
  - cbv zeta. destruct (trim (group 1 m)) as [|c t0] eqn:Et.
    + destruct (IH acc Hacc) as [Hnd Hin]. split; [exact Hnd|].
      intros t. rewrite Hin. split.
      * intros [H|(Hne & m' & Hm' & E)]; [now left|].
        right. split; [exact Hne|]. exists m'. split; [now right | exact E].
      * intros [H|(Hne & m' & [<-|Hm'] & E)]; [now left | |].
        -- rewrite Et in E. contradiction.
        -- right. split; [exact Hne|]. now exists m'.
    + destruct (IH (set_add (c :: t0) acc) (@set_add_nodup (c :: t0) acc Hacc))
        as [Hnd Hin].
      split; [exact Hnd|]. intros t. rewrite Hin, set_add_in. split.
      * intros [[H| ->]|(Hne & m' & Hm' & E)].
        -- now left.
        -- right. split; [discriminate|]. exists m. split; [now left|].
           now rewrite Et.
        -- right. split; [exact Hne|]. exists m'. split; [now right | exact E].
      * intros [H|(Hne & m' & [<-|Hm'] & E)].
        -- left. now left.
        -- left. right. now rewrite E, Et.
        -- right. split; [exact Hne|]. now exists m'.
Qed.

(** The example of the specification. *)
Example extractLinks_example :
  extractLinks (str "See [[Beta]] and #project/x") = [str "Beta"].
Proof. reflexivity. Qed.

Example extractTags_example :
  extractTags CharClass.is_word (str "See [[Beta]] and #project/x")
  = [str "project/x"].
Proof. reflexivity. Qed.

Example extractLinks_forms :
  extractLinks (str "[[ A b ]] [[A b#sec]] [[C|alias]] [[ ]] [[D#x]y]]")
  = [str "A b"; str "D"].
Proof. reflexivity. Qed.


(** ** The statement monad *)

Lemma bind_ok {A B} (m : M A) (f : A -> M B) d b d' :
  bind m f d = (Ok b, d') ->
  exists a d1, m d = (Ok a, d1) /\ f a d1 = (Ok b, d').
Proof.
  unfold bind. destruct (m d) as [[a|e] d1]; intros H.
  - exists a, d1. split; [reflexivity | exact H].
  - discriminate H.
Qed.

Lemma transaction_ok {A} (body : M A) d a d' :
  transaction body d = (Ok a, d') -> body d = (Ok a, d').
Proof.
  unfold transaction. destruct (body d) as [[x|e] d1]; intros H.
  - exact H.
  - discriminate H.
Qed.

Lemma bind_step {A B} (m : M A) (f : A -> M B) d a d1 :
  m d = (Ok a, d1) -> bind m f d = f a d1.
Proof.
  intros H. unfold bind. now rewrite H.
Qed.

(** A failed transaction leaves the database as it was at BEGIN. *)
Lemma transaction_throw {A} (body : M A) d e d' :
  transaction body d = (Throw e, d') -> d' = d.
Proof.
  unfold transaction. destruct (body d) as [[x|e'] d1]; intros H.
  - discriminate H.
  - now inversion H.
Qed.

(** ** The rebuild of the derived rows *)

Lemma for_each_insert_link fk i ts d d' :
  for_each ts (insert_link fk i) d = (Ok tt, d') ->
  d' = Db (notes d) (links d ++ map (Link i) (map utf8_text ts)) (tags d)
          (notes_fts d).
Proof.
  revert d. induction ts as [|t ts IH]; intros d H; simpl in H.
  - inversion H. destruct d'; simpl. now rewrite app_nil_r.
  - apply bind_ok in H. destruct H as ([] & d1 & H1 & H2).
    unfold insert_link in H1.
    destruct (fk && negb (existsb (has_id i) (notes d))); [discriminate|].
    inversion H1; subst d1; clear H1.
    apply IH in H2. subst d'. simpl. now rewrite <- app_assoc.
Qed.

Lemma for_each_insert_tag fk i ts d d' :
  for_each ts (insert_tag fk i) d = (Ok tt, d') ->
  d' = Db (notes d) (links d) (tags d ++ map (Tag i) (map utf8_text ts))
          (notes_fts d).
Proof.
  revert d. induction ts as [|t ts IH]; intros d H; simpl in H.
  - inversion H. destruct d'; simpl. now rewrite app_nil_r.
  - apply bind_ok in H. destruct H as ([] & d1 & H1 & H2).
    unfold insert_tag in H1.
    destruct (fk && negb (existsb (has_id i) (notes d))); [discriminate|].
    inversion H1; subst d1; clear H1.
    apply IH in H2. subst d'. simpl. now rewrite <- app_assoc.
Qed.

Lemma filter_rebuilt {A B} (key : A -> Z) (mk : Z -> B -> A) (out : A -> B)
      (i : Z) (old : list A) (xs : list B) :
  (forall x, key (mk i x) = i) ->
  (forall x, out (mk i x) = x) ->
  map out
      (filter (fun a => (key a =? i)%Z)
              (filter (fun a => negb (key a =? i)%Z) old ++ map (mk i) xs))
  = xs.
Proof.
  intros Hkey Hout. rewrite filter_app, map_app.
  assert (E1 : filter (fun a => (key a =? i)%Z)
                      (filter (fun a => negb (key a =? i)%Z) old) = []).
  { induction old as [|a old IH]; simpl; [reflexivity|].
    destruct (key a =? i)%Z eqn:E; simpl; [exact IH|].
    rewrite E. exact IH. }
  rewrite E1. simpl.
  induction xs as [|x xs IH]; simpl; [reflexivity|].
  rewrite Hkey, Z.eqb_refl. simpl. now rewrite Hout, IH.
Qed.

(** What a call of [upsertNote] that returns has done: the note
    statement ran, and the rows of the effective id [j] are the old rows
    of other notes followed by the rows extracted from the content. *)
Lemma upsertNote_returns fk ul et now created i t c d r d' :
  upsertNote fk ul et now created i t c d = (Ok r, d') ->
  exists j s d1,
    c = JString s
    /\ (if truthy i
        then i = Some j /\ update_note et t c now j d = (Ok tt, d1)
        else insert_note et t c now created d = (Ok j, d1))
    /\ d' = Db (notes d1)
               (filter (fun l => negb (source_id l =? j)%Z) (links d1)
                ++ map (Link j) (map utf8_text (extractLinks s)))
               (filter (fun r => negb (note_id r =? j)%Z) (tags d1)
                ++ map (Tag j) (map utf8_text (extractTags ul s)))
               (notes_fts d1)
    /\ r = find (has_id j) (notes d1).
Proof.
  unfold upsertNote. intros H.
  apply bind_ok in H. destruct H as (j & d1 & Hnote & H).
  apply bind_ok in H. destruct H as ([] & d2 & Hdl & H).
  apply bind_ok in H. destruct H as ([] & d3 & Hdt & H).
  apply bind_ok in H. destruct H as (s & d4 & Hs & H).
  apply bind_ok in H. destruct H as ([] & d5 & Htx & H).
  destruct c as [| | |n|s0| |]; try discriminate Hs.
  inversion Hs; subst s0 d4; clear Hs.
  exists j, s, d1. split; [reflexivity|].
  apply transaction_ok in Htx.
  apply bind_ok in Htx. destruct Htx as ([] & d6 & Hl & Ht).
  apply for_each_insert_link in Hl. apply for_each_insert_tag in Ht.
  unfold delete_links in Hdl. unfold delete_tags in Hdt.
  inversion Hdl; subst d2; clear Hdl. inversion Hdt; subst d3; clear Hdt.
  unfold select_note in H. inversion H; subst; clear H. simpl.
  split; [|split; reflexivity].
  destruct (truthy i) eqn:Ei.
  - destruct i as [z|]; [|discriminate Ei].
    apply bind_ok in Hnote. destruct Hnote as ([] & d7 & Hu & Hr).
    inversion Hr; subst. split; [reflexivity | exact Hu].
  - exact Hnote.
Qed.

(** ** The note statements *)

Lemma fold_max_le (l : list Z) (a : Z) :
  (a <= fold_left Z.max l a)%Z
  /\ (forall x, In x l -> (x <= fold_left Z.max l a)%Z).
Proof.
  revert a. induction l as [|y l IH]; intros a; simpl.
  - split; [lia | intros x []].
  - destruct (IH (Z.max a y)) as [H1 H2]. split; [lia|].
    intros x [->|Hx]; [lia | now apply H2].
Qed.

Lemma next_rowid_fresh (ns : list note) (n : note) :
  In n ns -> (id n < next_rowid ns)%Z.
Proof.
  destruct ns as [|m ns]; intros H; [destruct H|].
  unfold next_rowid. destruct (fold_max_le (map id ns) (id m)) as [H1 H2].
  destruct H as [->|H]; [lia|].
  specialize (H2 (id n) (in_map id _ _ H)). lia.
Qed.

Ltac run_binder :=
  repeat (cbn -[utf8_text]; unfold bind_value;
          try match goal with
              | |- context [sql_of ?v] => destruct (sql_of v)
              end).

Lemma insert_binds et t c now xs :
  bind_parameters 3 [t; c; JString now] = Ok xs ->
  columns et t c
  = Some (text_column et (param 0 xs), text_column et (param 1 xs)).
Proof.
  unfold bind_parameters, columns.
  destruct t as [| |bt|nt|st|[|t1 [|t2 [|t3 [|t4 vt]]]]|];
    destruct c as [| |bc|nc|sc|[|c1 [|c2 [|c3 [|c4 vc]]]]|];
    run_binder;
    intros H; try discriminate H; inversion H; reflexivity.
Qed.

Lemma update_binds et t c now i xs :
  bind_parameters 4 [t; c; JString now; JNumber i] = Ok xs ->
  columns et t c
  = Some (text_column et (param 0 xs), text_column et (param 1 xs)).
Proof.
  unfold bind_parameters, columns.
  destruct t as [| |bt|nt|st|[|t1 [|t2 [|t3 [|t4 [|t5 vt]]]]]|];
    destruct c as [| |bc|nc|sc|[|c1 [|c2 [|c3 [|c4 [|c5 vc]]]]]|];
    run_binder;
    intros H; try discriminate H; inversion H; reflexivity.
Qed.

Lemma columns_insert et t c now p :
  columns et t c = Some p ->
  exists xs,
    bind_parameters 3 [t; c; JString now] = Ok xs
    /\ p = (text_column et (param 0 xs), text_column et (param 1 xs)).
Proof.
  unfold bind_parameters, columns.
  destruct t as [| |bt|nt|st|[|t1 [|t2 [|t3 vt]]]|];
    destruct c as [| |bc|nc|sc|[|c1 [|c2 [|c3 vc]]]|];
    run_binder;
    intros H; try discriminate H;
    try (inversion H; eexists; split; reflexivity);
    repeat match type of H with
           | context [fold_right ?f ?a ?l] =>
               destruct (fold_right f a l); cbn in H
           end; discriminate H.
Qed.

Lemma columns_update et t c now i p :
  columns et t c = Some p ->
  exists xs,
    bind_parameters 4 [t; c; JString now; JNumber i] = Ok xs
    /\ p = (text_column et (param 0 xs), text_column et (param 1 xs)).
Proof.
  unfold bind_parameters, columns.
  destruct t as [| |bt|nt|st|[|t1 [|t2 [|t3 vt]]]|];
    destruct c as [| |bc|nc|sc|[|c1 [|c2 [|c3 vc]]]|];
    run_binder;
    intros H; try discriminate H;
    try (inversion H; eexists; split; reflexivity);
    repeat match type of H with
           | context [fold_right ?f ?a ?l] =>
               destruct (fold_right f a l); cbn in H
           end; discriminate H.
Qed.

Lemma columns_string_content et t s p :
  columns et t (JString s) = Some p -> snd p = Some (utf8_text s).
Proof.
  unfold columns.
  destruct t as [| |bt|nt|st|[|t1 [|t2 [|t3 vt]]]|];
    run_binder; intros H; try discriminate H;
    try (inversion H; reflexivity);
    repeat match type of H with
           | context [fold_right ?f ?a ?l] =>
               destruct (fold_right f a l); cbn in H
           end; discriminate H.
Qed.

Lemma columns_string_title et s c p :
  columns et (JString s) c = Some p -> fst p = Some (utf8_text s).
Proof.
  unfold columns.
  destruct c as [| |bc|nc|sc|[|c1 [|c2 [|c3 vc]]]|];
    run_binder; intros H; try discriminate H;
    try (inversion H; reflexivity);
    repeat match type of H with
           | context [fold_right ?f ?a ?l] =>
               destruct (fold_right f a l); cbn in H
           end; discriminate H.
Qed.

Lemma columns_number_title et k c p :
  columns et (JNumber k) c = Some p -> fst p = Some (real_text et k).
Proof.
  unfold columns.
  destruct c as [| |bc|nc|sc|[|c1 [|c2 [|c3 vc]]]|];
    run_binder; intros H; try discriminate H;
    try (inversion H; reflexivity);
    repeat match type of H with
           | context [fold_right ?f ?a ?l] =>
               destruct (fold_right f a l); cbn in H
           end; discriminate H.
Qed.

Lemma insert_note_ok t c et now created d j d1 :
  insert_note et t c now created d = (Ok j, d1) ->
  exists vt vc,
    columns et t c = Some (Some vt, Some vc)
    /\ existsb (has_title vt) (notes d) = false
    /\ j = next_rowid (notes d)
    /\ d1 = Db (notes d ++ [Note j vt vc created now]) (links d) (tags d)
               (fts_insert (Note j vt vc created now) (notes_fts d)).
Proof.
  unfold insert_note. intros H.
  destruct (bind_parameters 3 [t; c; JString now]) as [xs|e] eqn:Eb;
    [|discriminate H].
  apply (insert_binds et) in Eb. rewrite Eb.
  destruct (text_column et (param 0 xs)) as [vt|]; [|discriminate H].
  destruct (text_column et (param 1 xs)) as [vc|]; [|discriminate H].
  destruct (existsb (has_title vt) (notes d)) eqn:E; [discriminate H|].
  inversion H; subst; clear H. simpl. exists vt, vc. repeat split; auto.
Qed.

Lemma insert_note_throw t c et now created d e d1 :
  insert_note et t c now created d = (Throw e, d1) -> d1 = d.
Proof.
  unfold insert_note. intros H.
  destruct (bind_parameters 3 [t; c; JString now]) as [xs|e0];
    [|now inversion H].
  destruct (text_column et (param 0 xs)) as [vt|]; [|now inversion H].
  destruct (text_column et (param 1 xs)) as [vc|]; [|now inversion H].
  destruct (existsb (has_title vt) (notes d)); now inversion H.
Qed.

Lemma update_note_ok t c et now j d d1 :
  update_note et t c now j d = (Ok tt, d1) ->
  (existsb (has_id j) (notes d) = false /\ d1 = d)
  \/ (exists vt vc,
        columns et t c = Some (Some vt, Some vc)
        /\ existsb (has_id j) (notes d) = true
        /\ notes d1 = map (fun n => if has_id j n then updated vt vc now n
                                    else n) (notes d)
        /\ links d1 = links d /\ tags d1 = tags d).
Proof.
  unfold update_note. intros H.
  destruct (bind_parameters 4 [t; c; JString now; JNumber j]) as [xs|e] eqn:Eb;
    [|discriminate H].
  apply (update_binds et) in Eb. rewrite Eb.
  destruct (existsb (has_id j) (notes d)) eqn:E.
  - destruct (text_column et (param 0 xs)) as [vt|]; [|discriminate H].
    destruct (text_column et (param 1 xs)) as [vc|]; [|discriminate H].
    match type of H with
    | (if ?b then _ else _) = _ => destruct b; [discriminate H|]
    end.
    inversion H; subst; clear H. right. exists vt, vc. simpl.
    repeat split; auto.
  - inversion H; subst. now left.
Qed.

Lemma update_note_throw t c et now j d e d1 :
  update_note et t c now j d = (Throw e, d1) -> d1 = d.
Proof.
  unfold update_note. intros H.
  destruct (bind_parameters 4 [t; c; JString now; JNumber j]) as [xs|e0];
    [|now inversion H].
  destruct (existsb (has_id j) (notes d)); [|discriminate H].
  destruct (text_column et (param 0 xs)) as [vt|]; [|now inversion H].
  destruct (text_column et (param 1 xs)) as [vc|]; [|now inversion H].
  match type of H with
  | (if ?b then _ else _) = _ => destruct b; [now inversion H | discriminate H]
  end.
Qed.

Lemma find_has_id j ns n : find (has_id j) ns = Some n -> id n = j /\ In n ns.
Proof.
  intros H. apply find_some in H. destruct H as [H1 H2].
  unfold has_id in H2. apply Z.eqb_eq in H2. now split.
Qed.

Lemma find_updated j vt vc now ns n :
  find (has_id j)
       (map (fun n => if has_id j n then updated vt vc now n else n) ns)
  = Some n ->
  content n = vc /\ title n = vt.
Proof.
  induction ns as [|m ns IH]; simpl; [discriminate|].
  destruct (has_id j m) eqn:E.
  - unfold has_id at 1. simpl. unfold has_id in E. rewrite E.
    intros H. inversion H. now split.
  - rewrite E. exact IH.
Qed.

Lemma find_appended j ns n m :
  j = next_rowid ns -> id m = j ->
  find (has_id j) (ns ++ [m]) = Some n -> n = m.
Proof.
  intros Hj Hm H.
  destruct (find (has_id j) ns) as [n0|] eqn:E.
  - apply find_has_id in E. destruct E as [E1 E2].
    apply next_rowid_fresh in E2. lia.
  - assert (G : forall l, find (has_id j) l = None ->
                          find (has_id j) (l ++ [m]) = Some m).
    { induction l as [|x l IH]; simpl.
      - intros _. unfold has_id. rewrite Hm, Z.eqb_refl. reflexivity.
      - destruct (has_id j x); [discriminate | exact IH]. }
    rewrite (G ns E) in H. now inversion H.
Qed.

Lemma find_existsb {A} (f : A -> bool) (l : list A) (x : A) :
  find f l = Some x -> existsb f l = true.
Proof.
  intros H. apply find_some in H. apply existsb_exists. now exists x.
Qed.

Lemma find_fresh_app j ns m :
  (forall n, In n ns -> id n <> j) -> id m = j ->
  find (has_id j) (ns ++ [m]) = Some m.
Proof.
  intros Hns Hm. induction ns as [|x ns IH]; simpl.
  - unfold has_id. now rewrite Hm, Z.eqb_refl.
  - unfold has_id at 1. destruct (id x =? j)%Z eqn:E.
    + apply Z.eqb_eq in E. exfalso. apply (Hns x); [now left | exact E].
    + apply IH. intros n Hn. apply Hns. now right.
Qed.

Lemma existsb_has_id_app j ns m :
  id m = j -> existsb (has_id j) (ns ++ [m]) = true.
Proof.
  intros Hm. rewrite existsb_app. simpl. unfold has_id at 2.
  rewrite Hm, Z.eqb_refl. now rewrite orb_true_r.
Qed.

Lemma for_each_insert_link_runs fk i ts d :
  fk && negb (existsb (has_id i) (notes d)) = false ->
  for_each ts (insert_link fk i) d
  = (Ok tt, Db (notes d) (links d ++ map (Link i) (map utf8_text ts)) (tags d)
               (notes_fts d)).
Proof.
  revert d. induction ts as [|t ts IH]; intros d H; simpl.
  - unfold ret. rewrite app_nil_r. now destruct d.
  - unfold bind, insert_link. rewrite H. rewrite IH by exact H.
    simpl. now rewrite <- app_assoc.
Qed.

Lemma for_each_insert_tag_runs fk i ts d :
  fk && negb (existsb (has_id i) (notes d)) = false ->
  for_each ts (insert_tag fk i) d
  = (Ok tt, Db (notes d) (links d) (tags d ++ map (Tag i) (map utf8_text ts))
               (notes_fts d)).
Proof.
  revert d. induction ts as [|t ts IH]; intros d H; simpl.
  - unfold ret. rewrite app_nil_r. now destruct d.
  - unfold bind, insert_tag. rewrite H. rewrite IH by exact H.
    simpl. now rewrite <- app_assoc.
Qed.

(** A create with a bindable title no other note has, and a string
    content, returns the new row. *)
Lemma insert_note_runs et t c now created d vt vc :
  columns et t c = Some (Some vt, Some vc) ->
  existsb (has_title vt) (notes d) = false ->
  insert_note et t c now created d
  = (Ok (next_rowid (notes d)),
     Db (notes d ++ [Note (next_rowid (notes d)) vt vc created now])
        (links d) (tags d)
        (fts_insert (Note (next_rowid (notes d)) vt vc created now)
                    (notes_fts d))).
Proof.
  intros Hb Hfree.
  destruct (@columns_insert et t c now _ Hb) as (xs & Hxs & Hp).
  unfold insert_note. rewrite Hxs.
  injection Hp as Ht Hc. rewrite <- Ht, <- Hc. now rewrite Hfree.
Qed.

Lemma upsertNote_creates fk ul et now created t vt s d :
  columns et t (JString s) = Some (Some vt, Some (utf8_text s)) ->
  existsb (has_title vt) (notes d) = false ->
  exists d',
    upsertNote fk ul et now created None t (JString s) d
    = (Ok (Some (Note (next_rowid (notes d)) vt (utf8_text s) created now)),
       d')
    /\ notes d'
       = notes d ++ [Note (next_rowid (notes d)) vt (utf8_text s) created now].
Proof.
  intros Ht Hfree.
  set (n := Note (next_rowid (notes d)) vt (utf8_text s) created now).
  set (d1 := Db (notes d ++ [n]) (links d) (tags d)
                (fts_insert n (notes_fts d))).
  assert (Hin : insert_note et t (JString s) now created d
                = (Ok (next_rowid (notes d)), d1)).
  { now apply insert_note_runs. }
  assert (Hfk : forall ls ts,
             fk && negb (existsb (has_id (id n))
                                 (notes (Db (notes d1) ls ts (notes_fts d1))))
             = false).
  { intros ls ts. simpl. rewrite existsb_has_id_app by reflexivity.
    now rewrite andb_false_r. }
  eexists. unfold upsertNote. simpl truthy. cbv iota.
  erewrite bind_step by exact Hin.
  erewrite bind_step by reflexivity.
  erewrite bind_step by reflexivity.
  erewrite bind_step by reflexivity.
  erewrite bind_step.
  2:{ unfold transaction. erewrite bind_step.
      2:{ apply for_each_insert_link_runs. apply Hfk. }
      rewrite for_each_insert_tag_runs by apply Hfk. reflexivity. }
  unfold select_note. simpl notes.
  rewrite find_fresh_app; [split; reflexivity| |reflexivity].
  intros m Hm E. apply next_rowid_fresh in Hm. simpl in E. lia.
Qed.

Lemma for_each_insert_link_blocked fk i t ts d :
  fk && negb (existsb (has_id i) (notes d)) = true ->
  for_each (t :: ts) (insert_link fk i) d
  = (Throw (SqliteError SQLITE_CONSTRAINT_FOREIGNKEY), d).
Proof.
  intros H. simpl. unfold bind, insert_link. now rewrite H.
Qed.

Lemma for_each_insert_tag_blocked fk i t ts d :
  fk && negb (existsb (has_id i) (notes d)) = true ->
  for_each (t :: ts) (insert_tag fk i) d
  = (Throw (SqliteError SQLITE_CONSTRAINT_FOREIGNKEY), d).
Proof.
  intros H. simpl. unfold bind, insert_tag. now rewrite H.
Qed.

(** How [upsertNote] can throw.  Either the note statement threw, and
    nothing was written; or it ran, the rows of the id were deleted, and
    then the content was not a string, or a foreign key stopped the
    re-insertion for an id no note has: in both the note statement and
    the two deletions stay. *)
Lemma upsertNote_throws fk ul et now created i t c d e d' :
  upsertNote fk ul et now created i t c d = (Throw e, d') ->
  d' = d
  \/ (exists j d1,
        (if truthy i
         then i = Some j /\ update_note et t c now j d = (Ok tt, d1)
         else insert_note et t c now created d = (Ok j, d1))
        /\ d' = rows_deleted j d1
        /\ ((forall s, c <> JString s) /\ e = TypeError
            \/ (fk = true /\ existsb (has_id j) (notes d1) = false
                /\ e = SqliteError SQLITE_CONSTRAINT_FOREIGNKEY))).
Proof.
  unfold upsertNote.
  set (j0 := match i with Some z => z | None => 0%Z end).
  set (first := if truthy i then _ else _).
  unfold bind at 1.
  destruct (first d) as [[j|e0] d1] eqn:Efirst.
  - intros H. right. exists j, d1.
    assert (Hfirst : if truthy i
                     then i = Some j /\ update_note et t c now j d = (Ok tt, d1)
                     else insert_note et t c now created d = (Ok j, d1)).
    { unfold first in Efirst. destruct (truthy i) eqn:Ei.
      - destruct i as [z|]; [|discriminate Ei]. unfold j0 in Efirst.
        unfold bind in Efirst.
        destruct (update_note et t c now z d) as [[[]|e1] d2] eqn:Eu;
          inversion Efirst; subst. now split.
      - exact Efirst. }
    split; [exact Hfirst|].
    unfold bind at 1, delete_links in H.
    unfold bind at 1, delete_tags in H. cbn [notes links tags notes_fts] in H.
    fold (rows_deleted j d1) in H.
    unfold bind at 1 in H. destruct c as [| |b|k|s|vs|].
    1-4, 6-7: inversion H; subst; split; [reflexivity|];
              left; split; [intros s; discriminate | reflexivity].
    cbn [matchAll_receiver] in H. unfold ret at 1 in H.
    unfold bind at 1, transaction in H.
    destruct (fk && negb (existsb (has_id j) (notes (rows_deleted j d1))))
             eqn:Efk.
    + assert (Hthrow :
                (for_each (extractLinks s) (insert_link fk j);;;
                 for_each (extractTags ul s) (insert_tag fk j))
                  (rows_deleted j d1)
                = (Ok tt, rows_deleted j d1)
                \/ exists d2,
                    (for_each (extractLinks s) (insert_link fk j);;;
                     for_each (extractTags ul s) (insert_tag fk j))
                      (rows_deleted j d1)
                    = (Throw (SqliteError SQLITE_CONSTRAINT_FOREIGNKEY), d2)).
      { destruct (extractLinks s) as [|l ls].
        - erewrite bind_step by reflexivity.
          destruct (extractTags ul s) as [|g gs]; [now left|].
          right. eexists. now apply for_each_insert_tag_blocked.
        - right. eexists. unfold bind.
          now rewrite for_each_insert_link_blocked by exact Efk. }
      destruct Hthrow as [Hrun|(d2 & Hrun)]; rewrite Hrun in H.
      * discriminate H.
      * inversion H; subst. split; [reflexivity|]. right.
        apply andb_true_iff in Efk. destruct Efk as [-> Efk].
        apply negb_true_iff in Efk. now repeat split.
    + unfold bind at 1 in H.
      rewrite for_each_insert_link_runs in H by exact Efk.
      rewrite for_each_insert_tag_runs in H by exact Efk.
      discriminate H.
  - intros H. inversion H; subst. left.
    unfold first in Efirst. destruct (truthy i).
    + unfold bind in Efirst.
      destruct (update_note et t c now j0 d) as [[[]|e1] d2] eqn:Eu;
        inversion Efirst; subst.
      now apply update_note_throw in Eu.
    + now apply insert_note_throw in Efirst.
Qed.

Lemma existsb_has_id_updated j vt vc now ns :
  existsb (has_id j)
          (map (fun n => if has_id j n then updated vt vc now n else n) ns)
  = existsb (has_id j) ns.
Proof.
  induction ns as [|m ns IH]; simpl; [reflexivity|].
  rewrite IH. destruct (has_id j m) eqn:E; [|now rewrite E].
  unfold has_id at 1. simpl. unfold has_id in E. now rewrite E.
Qed.

(** With a string content a write that throws has changed nothing,
    except that an update of an id no note has, stopped by a foreign
    key, has deleted the Link and Tag rows carrying that id. *)
Lemma failed_write_of_text fk ul et now created i t s d e d' :
  upsertNote fk ul et now created i t (JString s) d = (Throw e, d') ->
  d' = d
  \/ (fk = true
      /\ exists j, i = Some j /\ existsb (has_id j) (notes d) = false
                   /\ d' = rows_deleted j d).
Proof.
  intros H. apply upsertNote_throws in H.
  destruct H as [H|(j & d1 & Hfirst & Hd' & Hwhy)]; [now left|].
  destruct Hwhy as [[Hc _]|(Hfk & Habsent & _)]; [now elim (Hc s)|].
  destruct (truthy i).
  - destruct Hfirst as [Hi Hu]. apply update_note_ok in Hu.
    destruct Hu as [[Hnone ->]|(vt & vc & _ & Hex & Hns & _)].
    + right. split; [exact Hfk|]. now exists j.
    + rewrite Hns, existsb_has_id_updated in Habsent. congruence.
  - apply insert_note_ok in Hfirst.
    destruct Hfirst as (vt & vc & _ & _ & _ & ->).
    simpl in Habsent. rewrite existsb_has_id_app in Habsent by reflexivity.
    discriminate Habsent.
Qed.

(** ** The write path *)

(** C2, at an input that breaks it.  A create whose content is the
    number 5 answers 400, yet the note row and its search document are
    stored; the same request as an update of a note changes the row and
    drops its Link and Tag rows. *)
Theorem failed_write_is_not_atomic fk ul et now created :
  post_notes fk ul et now created (JString (str "x")) (JNumber 5) empty_db
  = (Response 400 (JsonError TypeError),
     Db [Note 1 (str "x") (str "5.0") created now] [] []
        [Doc 1 (str "x") (str "5.0")])
  /\ put_note fk ul et now created (Some 1%Z) (JString (str "x")) (JNumber 5)
       (Db [Note 1 (str "x") (str "[[y]]") created created]
           [Link 1 (str "y")] []
           [Doc 1 (str "x") (str "[[y]]")])
     = (Response 400 (JsonError TypeError),
        Db [Note 1 (str "x") (str "5.0") created now] [] []
           [Doc 1 (str "x") (str "5.0")]).
Proof.
  split; reflexivity.
Qed.

(** C3, at inputs that break it.  On the empty database an update of
    id 7 is answered 200 with an empty body and, without foreign-key
    enforcement, stores a Link row for the absent note; with enforcement
    the answer is the 400 of a constraint failure.  An update of id 0
    takes the create branch and stores a new note. *)
Theorem update_of_absent_id_not_reported fk ul et now created :
  put_note false ul et now created (Some 7%Z) (JString (str "T"))
           (JString (str "[[A]]")) empty_db
  = (Response 200 (JsonNote None), Db [] [Link 7 (str "A")] [] [])
  /\ put_note true ul et now created (Some 7%Z) (JString (str "T"))
              (JString (str "[[A]]")) empty_db
     = (Response 400 (JsonError (SqliteError SQLITE_CONSTRAINT_FOREIGNKEY)),
        empty_db)
  /\ put_note fk ul et now created (Some 7%Z) (JString (str "T"))
              (JString (str "plain")) empty_db
     = (Response 200 (JsonNote None), empty_db)
  /\ put_note fk ul et now created (Some 0%Z) (JString (str "T"))
              (JString (str "plain")) empty_db
     = (Response 200 (JsonNote (Some (Note 1 (str "T") (str "plain")
                                            created now))),
        Db [Note 1 (str "T") (str "plain") created now] [] []
           [Doc 1 (str "T") (str "plain")]).
Proof.
  repeat split; reflexivity.
Qed.

Lemma columns_missing_title et t c p :
  t = JUndefined \/ t = JNull ->
  columns et t c = Some p -> fst p = None.
Proof.
  unfold columns. intros [->| ->];
    destruct c as [| |bc|nc|sc|[|c1 [|c2 [|c3 vc]]]|];
    run_binder; intros H; try discriminate H;
    try (inversion H; reflexivity);
    repeat match type of H with
           | context [fold_right ?f ?a ?l] =>
               destruct (fold_right f a l); cbn in H
           end; discriminate H.
Qed.

(** C4, as the code has it.  A create whose title is missing
    ([undefined] or [null]) is answered 400 and changes nothing, for
    every content: the title is bound as NULL, and with a string or no
    content the answer is the failure of the NOT NULL constraint.  The
    empty string is a title like any other: sent with a string content
    it is answered 201 and the note is stored, unless a note already
    has the empty title. *)
Theorem create_missing_title_rejected fk ul et now created d :
  (forall t c,
      t = JUndefined \/ t = JNull ->
      exists e,
        post_notes fk ul et now created t c d
        = (Response 400 (JsonError e), d))
  /\ (forall t c,
        t = JUndefined \/ t = JNull ->
        c = JUndefined \/ (exists s, c = JString s) ->
        post_notes fk ul et now created t c d
        = (Response 400 (JsonError (SqliteError SQLITE_CONSTRAINT_NOTNULL)),
           d))
  /\ (forall s,
        existsb (has_title []) (notes d) = false ->
        exists d',
          post_notes fk ul et now created (JString []) (JString s) d
          = (Response 201
               (JsonNote (Some (Note (next_rowid (notes d)) [] (utf8_text s)
                                     created now))),
             d')
          /\ notes d'
             = notes d
               ++ [Note (next_rowid (notes d)) [] (utf8_text s) created now]).
Proof.
  split; [|split].
  - intros t c Ht. unfold post_notes, upsertNote. simpl truthy. cbv iota.
    set (c' := match c with JUndefined => JString [] | _ => c end).
    unfold bind at 1.
    destruct (insert_note et t c' now created d) as [[j|e] d1] eqn:E.
    + apply insert_note_ok in E. destruct E as (vt & vc & Hb & _).
      apply (@columns_missing_title et t c' _ Ht) in Hb. discriminate Hb.
    + apply insert_note_throw in E. subst d1. now exists e.
  - intros t c [->| ->] [->|(s & ->)]; reflexivity.
  - intros s Hfree.
    destruct (@upsertNote_creates fk ul et now created (JString []) [] s d
                                  eq_refl Hfree) as (d' & Hup & Hns).
    exists d'. unfold post_notes. now rewrite Hup.
Qed.

Lemma create_missing_title_rejected_witness :
  exists d',
    post_notes true (fun _ => false) (fun _ => []) (str "now") (str "then")
               (JString []) (JString (str "[[x]]")) empty_db
    = (Response 201
         (JsonNote (Some (Note 1 [] (str "[[x]]") (str "then") (str "now")))),
       d')
    /\ notes d' = [Note 1 [] (str "[[x]]") (str "then") (str "now")].
Proof.
  destruct (create_missing_title_rejected true (fun _ => false) (fun _ => [])
              (str "now") (str "then") empty_db) as (_ & _ & H).
  destruct (H (str "[[x]]") eq_refl) as (d' & E & Hn).
  exists d'. split; [exact E | exact Hn].
Defined.

(** C4 as stated fails: on the empty database a create with the empty
    title and the empty content is answered 201 and stores the note. *)
Lemma create_empty_title_accepted :
  let r := post_notes false (fun _ => false) (fun _ => [])
                      (str "2024-01-01 00:00:00") (str "2024-01-01 00:00:00")
                      (JString []) (JString []) empty_db in
  status (fst r) = 201%Z
  /\ notes (snd r)
     = [Note 1 [] [] (str "2024-01-01 00:00:00") (str "2024-01-01 00:00:00")]
  /\ ~ (status (fst r) = 400%Z /\ notes (snd r) = notes empty_db).
Proof.
  cbv zeta. split; [reflexivity|]. split; [reflexivity|].
  intros [H _]. discriminate H.
Qed.

(** C5. A create with the title of an existing note is answered 400 and
    leaves the database as it was: no note row is added.  The title
    sent is compared as it is stored, [utf8_text T], which is [T] itself
    for a title without unpaired surrogates. *)
Theorem create_duplicate_title_rejected fk ul et now created T c d :
  (exists n, In n (notes d) /\ title n = utf8_text T) ->
  exists e,
    post_notes fk ul et now created (JString T) c d
    = (Response 400 (JsonError e), d).
Proof.
  intros (n & Hin & Ht).
  assert (E : existsb (has_title (utf8_text T)) (notes d) = true).
  { apply existsb_exists. exists n. split; [exact Hin|].
    unfold has_title. now destruct (jsstring_eq_dec (title n) (utf8_text T)). }
  unfold post_notes, upsertNote. simpl truthy. cbv iota.
  set (c' := match c with JUndefined => JString [] | _ => c end).
  unfold bind at 1.
  destruct (insert_note et (JString T) c' now created d) as [[j|e] d1] eqn:Ei.
  - apply insert_note_ok in Ei. destruct Ei as (vt & vc & Hb & Hfree & _).
    apply columns_string_title in Hb. simpl in Hb.
    inversion Hb; subst vt. congruence.
  - apply insert_note_throw in Ei. subst d1. now exists e.
Qed.

Lemma create_duplicate_title_rejected_witness :
  let d := Db [Note 1 (str "Alpha") [] [] []] [] [] [Doc 1 (str "Alpha") []] in
  exists e,
    post_notes true (fun _ => false) (fun _ => []) [] []
               (JString (str "Alpha")) (JString (str "again")) d
    = (Response 400 (JsonError e), d).
Proof.
  cbv zeta. apply create_duplicate_title_rejected.
  eexists. split; [left; reflexivity | reflexivity].
Defined.

(** ** Reachable databases: the invariant is kept *)

Lemma notes_kept_bind {A B} (m : M A) (f : A -> M B) :
  notes_kept m -> (forall a, notes_kept (f a)) -> notes_kept (bind m f).
Proof.
  intros Hm Hf d r d'. unfold bind.
  destruct (m d) as [[a|e] d1] eqn:E; intros H.
  - apply Hf in H. apply Hm in E. congruence.
  - inversion H; subst. now apply Hm in E.
Qed.

Lemma notes_kept_for_each {A} (xs : list A) (f : A -> M unit) :
  (forall x, notes_kept (f x)) -> notes_kept (for_each xs f).
Proof.
  intros Hf. induction xs as [|x xs IH]; simpl.
  - intros d r d' H. now inversion H.
  - apply notes_kept_bind; [apply Hf | intros _; exact IH].
Qed.

Lemma notes_kept_transaction {A} (m : M A) :
  notes_kept m -> notes_kept (transaction m).
Proof.
  intros Hm d r d'. unfold transaction.
  destruct (m d) as [[a|e] d1] eqn:E; intros H; inversion H; subst.
  - now apply Hm in E.
  - reflexivity.
Qed.

Lemma notes_kept_insert_link fk i t : notes_kept (insert_link fk i t).
Proof.
  intros d r d'. unfold insert_link.
  destruct (fk && _); intros H; now inversion H.
Qed.

Lemma notes_kept_insert_tag fk i t : notes_kept (insert_tag fk i t).
Proof.
  intros d r d'. unfold insert_tag.
  destruct (fk && _); intros H; now inversion H.
Qed.

(** The notes table after [upsertNote], whether it returned or threw:
    unchanged, one row longer, or the rows of one id rewritten. *)
Lemma upsertNote_notes fk ul et now created i t c d r d' :
  upsertNote fk ul et now created i t c d = (r, d') ->
  notes d' = notes d
  \/ (exists n, id n = next_rowid (notes d) /\ notes d' = notes d ++ [n])
  \/ (exists j vt vc,
        notes d' = map (fun n => if has_id j n then updated vt vc now n
                                 else n) (notes d)).
Proof.
  unfold upsertNote.
  set (rest := fun j : Z => _). intros H.
  assert (Hrest : forall j, notes_kept (rest j)).
  { intros j. unfold rest.
    apply notes_kept_bind; [intros ? ? ? E; now inversion E | intros _].
    apply notes_kept_bind; [intros ? ? ? E; now inversion E | intros _].
    apply notes_kept_bind.
    { destruct c; intros ? ? ? E; now inversion E. }
    intros s. apply notes_kept_bind.
    - apply notes_kept_transaction, notes_kept_bind.
      + apply notes_kept_for_each, notes_kept_insert_link.
      + intros _. apply notes_kept_for_each, notes_kept_insert_tag.
    - intros _ ? ? ? E. now inversion E. }
  unfold bind at 1 in H.
  destruct (truthy i).
  - destruct i as [z|].
    + unfold bind at 1 in H.
      destruct (update_note et t c now z d) as [[[]|e] d1] eqn:E.
      * unfold ret in H. apply Hrest in H. rewrite H.
        apply update_note_ok in E.
        destruct E as [[_ ->]|(vt & vc & _ & _ & E & _)]; [now left|].
        right; right. now exists z, vt, vc.
      * apply update_note_throw in E. inversion H; subst. now left.
    + unfold bind at 1 in H.
      destruct (update_note et t c now 0 d) as [[[]|e] d1] eqn:E.
      * unfold ret in H. apply Hrest in H. rewrite H.
        apply update_note_ok in E.
        destruct E as [[_ ->]|(vt & vc & _ & _ & E & _)]; [now left|].
        right; right. now exists 0%Z, vt, vc.
      * apply update_note_throw in E. inversion H; subst. now left.
  - destruct (insert_note et t c now created d) as [[j|e] d1] eqn:E.
    + apply Hrest in H. rewrite H. apply insert_note_ok in E.
      destruct E as (vt & vc & _ & _ & Hj & ->). simpl.
      right; left. eexists. split; [|reflexivity]. simpl. exact Hj.
    + apply insert_note_throw in E. inversion H; subst. now left.
Qed.

Lemma consistent_empty : consistent empty_db.
Proof.
  split; constructor.
Qed.

Lemma next_rowid_positive (ns : list note) :
  Forall (fun n => (0 < id n)%Z) ns -> (0 < next_rowid ns)%Z.
Proof.
  destruct ns as [|m ns]; intros H; [reflexivity|].
  inversion H; subst.
  pose proof (@next_rowid_fresh (m :: ns) m (or_introl eq_refl)). lia.
Qed.

Lemma upsertNote_consistent fk ul et now created i t c d r d' :
  upsertNote fk ul et now created i t c d = (r, d') ->
  consistent d -> consistent d'.
Proof.
  intros H [Hnd Hpos]. apply upsertNote_notes in H. unfold consistent.
  destruct H as [->|[(n & Hn & ->)|(j & vt & vc & ->)]].
  - now split.
  - split.
    + rewrite map_app. simpl.
      apply NoDup_app; [exact Hnd | repeat constructor; intros [] |].
      intros x Hx [<-|[]]. apply in_map_iff in Hx.
      destruct Hx as (m & Hm & Hin). apply next_rowid_fresh in Hin. lia.
    + apply Forall_app. split; [exact Hpos|].
      constructor; [|constructor]. rewrite Hn.
      now apply next_rowid_positive.
  - assert (E : forall ns,
               map id (map (fun n => if has_id j n then updated vt vc now n
                                     else n) ns) = map id ns).
    { induction ns as [|m ns IH]; simpl; [reflexivity|].
      rewrite IH. now destruct (has_id j m). }
    rewrite E. split; [exact Hnd|].
    apply Forall_forall. intros n Hn. apply in_map_iff in Hn.
    destruct Hn as (m & <- & Hm).
    rewrite Forall_forall in Hpos. specialize (Hpos m Hm).
    now destruct (has_id j m).
Qed.

Lemma post_notes_consistent fk ul et now created t c d :
  consistent d -> consistent (snd (post_notes fk ul et now created t c d)).
Proof.
  unfold post_notes. intros H.
  destruct (upsertNote _ _ _ _ _ _ _ _) as [[n|e] d'] eqn:E;
    simpl; eapply upsertNote_consistent; eauto.
Qed.

Lemma put_note_consistent fk ul et now created i t c d :
  consistent d -> consistent (snd (put_note fk ul et now created i t c d)).
Proof.
  unfold put_note. intros H. destruct i as [z|]; [|exact H].
  destruct (upsertNote _ _ _ _ _ _ _ _) as [[n|e] d'] eqn:E;
    simpl; eapply upsertNote_consistent; eauto.
Qed.

(** ** The delete route *)

Lemma existsb_filter_negb {A} (f : A -> bool) (l : list A) :
  existsb f (filter (fun x => negb (f x)) l) = false.
Proof.
  induction l as [|x l IH]; simpl; [reflexivity|].
  destruct (f x) eqn:E; simpl; [exact IH|]. now rewrite E.
Qed.

Lemma filter_absent {A} (f : A -> bool) (l : list A) :
  existsb f l = false -> filter (fun x => negb (f x)) l = l.
Proof.
  induction l as [|x l IH]; simpl; [reflexivity|].
  destruct (f x); simpl; [discriminate|]. intros H. now rewrite IH.
Qed.

Lemma filter_absent_nil {A} (f : A -> bool) (l : list A) :
  existsb f l = false -> filter f l = [].
Proof.
  induction l as [|x l IH]; simpl; [reflexivity|].
  destruct (f x); simpl; [discriminate | exact IH].
Qed.

(** The route never throws: the rows a foreign key could hold against
    the note are deleted before the note. *)
Lemma delete_note_runs fk i d :
  delete_note fk (Some i) d
  = (Response 200 (JsonDeleted (length (filter (has_id i) (notes d)))),
     Db (filter (fun n => negb (has_id i n)) (notes d))
        (filter (fun l => negb (source_id l =? i)%Z) (links d))
        (filter (fun r => negb (note_id r =? i)%Z) (tags d))
        (if existsb (has_id i) (notes d)
         then fts_delete i (notes_fts d) else notes_fts d)).
Proof.
  unfold delete_note, bind, delete_links, delete_tags, delete_note_row.
  simpl.
  rewrite (existsb_filter_negb (fun l => (source_id l =? i)%Z)).
  rewrite (existsb_filter_negb (fun r => (note_id r =? i)%Z)).
  simpl. now rewrite andb_false_r.
Qed.

Lemma count_by_id i ns :
  NoDup (map id ns) ->
  length (filter (has_id i) ns)
  = if existsb (has_id i) ns then 1%nat else 0%nat.
Proof.
  induction ns as [|n ns IH]; simpl; intros H; [reflexivity|].
  inversion H as [|x l Hnotin Hnd]; subst.
  destruct (has_id i n) eqn:E; simpl.
  - rewrite filter_absent_nil; [reflexivity|].
    destruct (existsb (has_id i) ns) eqn:Ex; [|reflexivity].
    apply existsb_exists in Ex. destruct Ex as (m & Hm & Em).
    unfold has_id in E, Em. apply Z.eqb_eq in E, Em.
    exfalso. apply Hnotin. rewrite E, <- Em. now apply in_map.
  - now apply IH.
Qed.

Lemma delete_note_consistent fk i d :
  consistent d -> consistent (snd (delete_note fk i d)).
Proof.
  intros [Hnd Hpos]. destruct i as [z|]; [|now split].
  rewrite delete_note_runs. split; simpl.
  - clear Hpos. induction (notes d) as [|n ns IH]; simpl; [constructor|].
    inversion Hnd; subst. destruct (has_id z n); simpl; [now apply IH|].
    constructor; [|now apply IH].
    intros Hin. apply in_map_iff in Hin. destruct Hin as (m & Em & Hm).
    apply filter_In in Hm. destruct Hm as [Hm _].
    match goal with H : ~ In _ _ |- _ => apply H end.
    rewrite <- Em. now apply in_map.
  - rewrite Forall_forall in *. intros n Hn. apply filter_In in Hn.
    now apply Hpos.
Qed.

(** C7. A delete is answered with the number of note rows removed, 1
    when the note existed and 0 when it did not, and is never an error.
    Afterwards no note, Link row, Tag row or, for a note that existed,
    search document carries the id, and the rows of other ids are kept
    as they were. *)
Theorem delete_removes_note_and_derived_rows fk i d :
  consistent d ->
  exists d',
    delete_note fk (Some i) d
    = (Response 200
         (JsonDeleted (if existsb (has_id i) (notes d) then 1 else 0)), d')
    /\ notes d' = filter (fun n => negb (has_id i n)) (notes d)
    /\ links d' = filter (fun l => negb (source_id l =? i)%Z) (links d)
    /\ tags d' = filter (fun r => negb (note_id r =? i)%Z) (tags d)
    /\ (existsb (has_id i) (notes d) = true ->
        notes_fts d' = filter (fun x => negb (rowid x =? i)%Z) (notes_fts d))
    /\ ~ In i (map id (notes d'))
    /\ ~ In i (map source_id (links d'))
    /\ ~ In i (map note_id (tags d'))
    /\ (existsb (has_id i) (notes d) = true ->
        ~ In i (map rowid (notes_fts d'))).
Proof.
  intros [Hnd _]. eexists. rewrite delete_note_runs.
  rewrite (@count_by_id i _ Hnd). split; [reflexivity|]. simpl.
  assert (G : forall A (key : A -> Z) (l : list A),
             ~ In i (map key (filter (fun a => negb (key a =? i)%Z) l))).
  { intros A key l Hin. apply in_map_iff in Hin.
    destruct Hin as (a & Ea & Ha). apply filter_In in Ha.
    destruct Ha as [_ Ha]. rewrite Ea, Z.eqb_refl in Ha. discriminate Ha. }
  repeat split; try reflexivity.
  - intros ->. reflexivity.
  - apply (G note id).
  - apply G.
  - apply G.
  - intros ->. apply G.
Qed.

Lemma delete_removes_note_and_derived_rows_witness :
  let d := Db [Note 1 (str "A") (str "[[B]] #t") [] []; Note 2 (str "B") [] [] []]
              [Link 1 (str "B")] [Tag 1 (str "t")]
              [Doc 1 (str "A") (str "[[B]] #t"); Doc 2 (str "B") []] in
  consistent d
  /\ delete_note true (Some 1%Z) d
     = (Response 200 (JsonDeleted 1),
        Db [Note 2 (str "B") [] [] []] [] [] [Doc 2 (str "B") []]).
Proof.
  cbv zeta.
  assert (C : consistent
                (Db [Note 1 (str "A") (str "[[B]] #t") [] [];
                     Note 2 (str "B") [] [] []]
                    [Link 1 (str "B")] [Tag 1 (str "t")]
                    [Doc 1 (str "A") (str "[[B]] #t"); Doc 2 (str "B") []])).
  { split; simpl.
    - repeat constructor; simpl; intuition discriminate.
    - repeat constructor. }
  split; [exact C|].
  destruct (@delete_removes_note_and_derived_rows true 1%Z _ C)
    as (d' & H & _).
  rewrite H. simpl in H. inversion H. reflexivity.
Defined.

(** C10. The two DELETE statements on Link and Tag rows run whether or
    not a note has the id: after a delete of any id every Link and Tag
    row carrying it is gone, and for an id no note has the answer is a
    count of 0, with the notes and the search index untouched. *)
Theorem delete_purges_rows_of_absent_id fk i d :
  exists changes d',
    delete_note fk (Some i) d = (Response 200 (JsonDeleted changes), d')
    /\ links d' = filter (fun l => negb (source_id l =? i)%Z) (links d)
    /\ tags d' = filter (fun r => negb (note_id r =? i)%Z) (tags d)
    /\ (existsb (has_id i) (notes d) = false ->
        changes = 0%nat /\ notes d' = notes d
        /\ notes_fts d' = notes_fts d).
Proof.
  rewrite delete_note_runs. do 2 eexists.
  split; [reflexivity|]. simpl.
  split; [reflexivity|]. split; [reflexivity|].
  intros H. rewrite H.
  rewrite (@filter_absent_nil _ (has_id i) _ H).
  rewrite (@filter_absent _ (has_id i) _ H). repeat split.
Qed.

Lemma delete_purges_rows_of_absent_id_witness :
  delete_note false (Some 7%Z)
              (Db [Note 1 (str "A") [] [] []]
                  [Link 7 (str "X"); Link 1 (str "Y")] [Tag 7 (str "t")]
                  [Doc 1 (str "A") []])
  = (Response 200 (JsonDeleted 0),
     Db [Note 1 (str "A") [] [] []] [Link 1 (str "Y")] []
        [Doc 1 (str "A") []]).
Proof.
  destruct (@delete_purges_rows_of_absent_id false 7%Z
              (Db [Note 1 (str "A") [] [] []]
                  [Link 7 (str "X"); Link 1 (str "Y")] [Tag 7 (str "t")]
                  [Doc 1 (str "A") []]))
    as (changes & d' & H & _).
  rewrite H. simpl in H. inversion H. reflexivity.
Defined.

(** ** Retrieval for the chat route *)

Lemma existsb_eqb_in (z : Z) (l : list Z) :
  existsb (Z.eqb z) l = true <-> In z l.
Proof.
  rewrite existsb_exists. split.
  - intros (x & Hx & E). apply Z.eqb_eq in E. now subst.
  - intros H. exists z. split; [exact H | apply Z.eqb_refl].
Qed.

Lemma pushNote_ok st n : chat_state_ok st -> chat_state_ok (pushNote st n).
Proof.
  intros [Hm Hnd]. destruct n as [n|]; [|now split]. unfold pushNote.
  destruct (existsb (Z.eqb (c_id n)) (fst st)) eqn:E; [now split|].
  split; simpl.
  - now rewrite map_app, Hm.
  - apply NoDup_app; [exact Hnd | repeat constructor; intros [] |].
    intros x Hx [<-|[]]. apply existsb_eqb_in in Hx. congruence.
Qed.

Lemma forEach_pushNote_ok rows st :
  chat_state_ok st -> chat_state_ok (forEach_pushNote rows st).
Proof.
  unfold forEach_pushNote. revert st.
  induction rows as [|r rows IH]; intros st H; cbn [fold_left]; [exact H|].
  apply IH. now apply pushNote_ok.
Qed.

(** A push only appends: what is in [contextNotes] stays in front. *)
Lemma forEach_pushNote_extends rows st :
  exists added, snd (forEach_pushNote rows st) = snd st ++ added.
Proof.
  unfold forEach_pushNote. revert st.
  induction rows as [|r rows IH]; intros st; cbn [fold_left].
  - exists []. now rewrite app_nil_r.
  - destruct (IH (pushNote st (Some r))) as (added & ->).
    unfold pushNote. destruct (existsb _ _); [now exists added|].
    simpl. exists (r :: added). now rewrite <- app_assoc.
Qed.

Lemma forEach_pushNote_first_occurrences rows st :
  forEach_pushNote rows st
  = (fst st ++ map c_id (first_occurrences (fst st) rows),
     snd st ++ first_occurrences (fst st) rows).
Proof.
  unfold forEach_pushNote. revert st.
  induction rows as [|r rows IH]; intros [used ctx]; cbn [fold_left].
  - simpl. now rewrite !app_nil_r.
  - rewrite IH. unfold pushNote. simpl.
    destruct (existsb (Z.eqb (c_id r)) used); simpl; [reflexivity|].
    now rewrite <- !app_assoc.
Qed.

Lemma find_by_id_unique i ns n :
  NoDup (map id ns) -> In n ns -> id n = i -> find (has_id i) ns = Some n.
Proof.
  induction ns as [|m ns IH]; simpl; intros Hnd Hin Hid; [destruct Hin|].
  inversion Hnd as [|x l Hnotin Hnd']; subst.
  unfold has_id at 1. destruct (id m =? id n)%Z eqn:E.
  - destruct Hin as [->|Hin]; [reflexivity|].
    apply Z.eqb_eq in E. exfalso. apply Hnotin. rewrite E. now apply in_map.
  - destruct Hin as [->|Hin]; [now rewrite Z.eqb_refl in E|].
    now apply IH.
Qed.

(** C8. With an anchor that is the id of a note and a non-blank
    prompt, every context the retrieval step returns has the anchor
    note as its first entry and no id twice: the rest of the context is
    the rows of the source that was read (the recent notes, the
    full-text matches, or the title matches after a throw of the MATCH
    query), each kept at its first occurrence and dropped when its id
    is the anchor's or that of an earlier row.  The step does return a
    context with [includeAll], and without it when [topK] is a LIMIT
    SQLite accepts and the LIKE pattern is within its length limit. *)
Theorem anchor_first_and_no_duplicates
        fm p i topK (includeAll : bool) d n :
  consistent d ->
  trim p <> [] ->
  In n (notes d) -> id n = i ->
  let anchor := Ctx (id n) (title n) (content n) in
  let q := strip_quotes p in
  let k := match topK with Some k => k | None => 5%Z end in
  (forall ns,
      chat_retrieve fm (Some p) (Some i) topK includeAll d = ContextNotes ns ->
      exists rows,
        (if includeAll then rows = select_recent d
         else select_match fm q k d = Ok rows
              \/ exists e, select_match fm q k d = Throw e
                           /\ select_like (percent :: q ++ [percent]) k d
                              = Ok rows)
        /\ ns = anchor :: first_occurrences [id n] rows
        /\ NoDup (map c_id ns))
  /\ (includeAll = true
      \/ (limit_ok k = true
          /\ (utf8_length (percent :: q ++ [percent])
              <= like_pattern_limit)%N) ->
      exists ns,
        chat_retrieve fm (Some p) (Some i) topK includeAll d
        = ContextNotes ns).
Proof.
  intros [Hnd Hpos] Hp Hin Hid a q k.
  assert (Hnz : negb (i =? 0)%Z = true).
  { rewrite Forall_forall in Hpos. specialize (Hpos n Hin).
    apply negb_true_iff, Z.eqb_neq. lia. }
  set (st := ([id n], [a]) : list Z * list ctx_note).
  assert (Hst : chat_state_ok st).
  { split; [reflexivity|]. repeat constructor. intros []. }
  assert (G : forall rows,
             snd (forEach_pushNote rows st)
             = a :: first_occurrences [id n] rows
             /\ NoDup (map c_id (a :: first_occurrences [id n] rows))).
  { intros rows. pose proof (@forEach_pushNote_ok rows st Hst) as [_ Hn].
    pose proof (@forEach_pushNote_first_occurrences rows st) as E.
    rewrite E in Hn. rewrite E. split; [reflexivity | exact Hn]. }
  unfold chat_retrieve.
  destruct p as [|c0 p0]; [now elim Hp|].
  destruct (trim (c0 :: p0)) as [|c1 t1] eqn:Et; [now elim Hp|].
  rewrite Hnz. unfold select_anchor.
  rewrite (@find_by_id_unique i (notes d) n Hnd Hin Hid). simpl option_map.
  assert (Est : pushNote ([], []) (Some (Ctx (id n) (title n) (content n)))
                = st) by reflexivity.
  rewrite !Est. fold q. fold k.
  split.
  - intros ns Hns. destruct includeAll.
    + exists (select_recent d). destruct (G (select_recent d)) as [E Hn].
      split; [reflexivity|]. inversion Hns; subst ns.
      rewrite E. now split.
    + destruct (select_match fm q k d) as [rows|e] eqn:Em.
      * exists rows. destruct (G rows) as [E Hn].
        split; [now left|]. inversion Hns; subst ns. rewrite E. now split.
      * destruct (select_like (percent :: q ++ [percent]) k d)
          as [rows|e'] eqn:El; [|discriminate Hns].
        exists rows. destruct (G rows) as [E Hn].
        split; [right; now exists e|].
        inversion Hns; subst ns. rewrite E. now split.
  - intros [->|[Hk Hlen]]; [eexists; reflexivity|].
    destruct includeAll; [eexists; reflexivity|].
    destruct (select_match fm q k d) as [rows|e]; [eexists; reflexivity|].
    unfold select_like. rewrite Hk. cbn [negb].
    destruct (k =? 0)%Z; [eexists; reflexivity|].
    destruct (notes d); [eexists; reflexivity|].
    apply N.leb_le in Hlen. rewrite N.leb_antisym in Hlen.
    apply negb_true_iff in Hlen. rewrite Hlen. eexists; reflexivity.
Qed.

Lemma anchor_first_and_no_duplicates_witness :
  let d := Db [Note 1 (str "A") (str "alpha") [] [];
               Note 2 (str "B") (str "beta") [] []] [] []
              [Doc 1 (str "A") (str "alpha"); Doc 2 (str "B") (str "beta")] in
  exists ns,
    chat_retrieve (fun _ _ => None) (Some (str "what is alpha?"))
                  (Some 2%Z) None true d
    = ContextNotes ns
    /\ hd_error ns = Some (Ctx 2 (str "B") (str "beta"))
    /\ NoDup (map c_id ns).
Proof.
  cbv zeta.
  destruct (@anchor_first_and_no_duplicates
              (fun _ _ => None) (str "what is alpha?") 2%Z None true
              (Db [Note 1 (str "A") (str "alpha") [] [];
                   Note 2 (str "B") (str "beta") [] []] [] []
                  [Doc 1 (str "A") (str "alpha");
                   Doc 2 (str "B") (str "beta")])
              (Note 2 (str "B") (str "beta") [] []))
    as [Hfirst Hreturns].
  - split; simpl.
    + repeat constructor; simpl; intuition discriminate.
    + repeat constructor.
  - discriminate.
  - right; left; reflexivity.
  - reflexivity.
  - destruct (Hreturns (or_introl eq_refl)) as (ns & Hns).
    exists ns. split; [exact Hns|].
    destruct (Hfirst ns Hns) as (rows & _ & -> & Hnd).
    split; [reflexivity | exact Hnd].
Defined.

(** *** The fallback query *)









Lemma before_nul_all cps :
  Forall (fun c => c <> 0%N) cps -> before_nul cps = cps.
Proof.
  induction 1 as [|c cps Hc _ IH]; [reflexivity|]. simpl.
  apply N.eqb_neq in Hc. now rewrite Hc, IH.
Qed.




Unset Implicit Arguments.

(** * Further properties *)

(** ** Every outcome of a write *)

Lemma update_note_full t c et now j d d1 :
  update_note et t c now j d = (Ok tt, d1) ->
  (existsb (has_id j) (notes d) = false /\ d1 = d)
  \/ (exists vt vc,
        columns et t c = Some (Some vt, Some vc)
        /\ existsb (has_id j) (notes d) = true
        /\ existsb (fun n => negb (has_id j n) && has_title vt n) (notes d)
           = false
        /\ d1 = Db (map (fun n => if has_id j n then updated vt vc now n
                                  else n) (notes d))
                   (links d) (tags d)
                   (fold_left
                      (fun docs n =>
                         if has_id j n
                         then fts_insert (updated vt vc now n)
                                         (fts_delete (id n) docs)
                         else docs)
                      (notes d) (notes_fts d))).
Proof.
  unfold update_note. intros H.
  destruct (bind_parameters 4 [t; c; JString now; JNumber j]) as [xs|e] eqn:Eb;
    [|discriminate H].
  apply (update_binds et) in Eb. rewrite Eb.
  destruct (existsb (has_id j) (notes d)) eqn:E.
  - destruct (text_column et (param 0 xs)) as [vt|]; [|discriminate H].
    destruct (text_column et (param 1 xs)) as [vc|]; [|discriminate H].
    destruct (existsb (fun n => negb (has_id j n) && has_title vt n) (notes d))
      eqn:Ec; [discriminate H|].
    inversion H; subst; clear H. right. exists vt, vc.
    repeat split; auto.
  - inversion H; subst. now left.
Qed.

Lemma rows_deleted_replaced j d : rows_deleted j d = rows_replaced j [] [] d.
Proof.
  unfold rows_deleted, rows_replaced. simpl. now rewrite !app_nil_r.
Qed.

Lemma for_each_insert_link_ok fk i ts d d' :
  for_each ts (insert_link fk i) d = (Ok tt, d') ->
  ts = [] \/ fk && negb (existsb (has_id i) (notes d)) = false.
Proof.
  destruct ts as [|t ts]; [now left|]. intros H. right.
  simpl in H. unfold bind, insert_link in H.
  destruct (fk && negb (existsb (has_id i) (notes d))); [discriminate H|].
  reflexivity.
Qed.

Lemma for_each_insert_tag_ok fk i ts d d' :
  for_each ts (insert_tag fk i) d = (Ok tt, d') ->
  ts = [] \/ fk && negb (existsb (has_id i) (notes d)) = false.
Proof.
  destruct ts as [|t ts]; [now left|]. intros H. right.
  simpl in H. unfold bind, insert_tag in H.
  destruct (fk && negb (existsb (has_id i) (notes d))); [discriminate H|].
  reflexivity.
Qed.

(** Whatever [upsertNote] answers, the database is either untouched or
    the one its first statement left, with the Link and Tag rows of the
    id replaced: by the rows of the content when the call returns, by
    nothing when it throws. *)
Lemma upsertNote_outcome fk ul et now created i t c d r d' :
  upsertNote fk ul et now created i t c d = (r, d') ->
  (d' = d /\ exists e, r = Throw e)
  \/ exists j d1 ls ts,
      note_statement_ran et now created i t c d j d1
      /\ d' = rows_replaced j ls ts d1
      /\ ((exists s,
             c = JString s
             /\ ls = map utf8_text (extractLinks s)
             /\ ts = map utf8_text (extractTags ul s)
             /\ r = Ok (find (has_id j) (notes d1))
             /\ (fk = true ->
                 (ls = [] /\ ts = [])
                 \/ existsb (has_id j) (notes d1) = true))
          \/ (ls = [] /\ ts = []
              /\ (exists e, r = Throw e)
              /\ ((forall s, c <> JString s)
                  \/ (fk = true /\ existsb (has_id j) (notes d1) = false)))).
Proof.
  destruct r as [n|e]; intros H.
  - right. pose proof H as H0. apply upsertNote_returns in H.
    destruct H as (j & s & d1 & Hc & Hfirst & Hd' & Hr).
    exists j, d1, (map utf8_text (extractLinks s)),
           (map utf8_text (extractTags ul s)).
    split; [exact Hfirst|]. split; [exact Hd'|]. left. exists s.
    repeat split; try assumption; [now subst|].
    intros Hfk. subst c fk.
    (* re-run the transaction to read the foreign-key check *)
    unfold upsertNote in H0.
    apply bind_ok in H0. destruct H0 as (j' & d1' & Hn & H0).
    assert (Ej : j' = j /\ d1' = d1).
    { unfold note_statement_ran in *. destruct (truthy i).
      - destruct Hfirst as [-> Hu]. apply bind_ok in Hn.
        destruct Hn as ([] & d2 & Hu' & Hret). inversion Hret; subst.
        rewrite Hu in Hu'. now inversion Hu'.
      - rewrite Hfirst in Hn. now inversion Hn. }
    destruct Ej as [-> ->].
    apply bind_ok in H0. destruct H0 as ([] & d2 & Hdl & H0).
    apply bind_ok in H0. destruct H0 as ([] & d3 & Hdt & H0).
    apply bind_ok in H0. destruct H0 as (s' & d4 & Hs & H0).
    inversion Hs; subst s' d4; clear Hs.
    apply bind_ok in H0. destruct H0 as ([] & d5 & Htx & _).
    apply transaction_ok in Htx.
    apply bind_ok in Htx. destruct Htx as ([] & d6 & Hl & Ht).
    inversion Hdl; subst d2. inversion Hdt; subst d3. clear Hdl Hdt.
    pose proof (for_each_insert_link_ok _ _ _ _ _ Hl) as Hl'.
    apply for_each_insert_link in Hl. subst d6.
    apply for_each_insert_tag_ok in Ht. simpl in Hl', Ht.
    destruct Hl' as [El|El].
    + destruct Ht as [Et|Et]; [left; now rewrite El, Et|].
      right. now apply negb_false_iff in Et.
    + right. now apply negb_false_iff in El.
  - apply upsertNote_throws in H.
    destruct H as [->|(j & d1 & Hfirst & Hd' & Hwhy)].
    + left. split; [reflexivity | now exists e].
    + right. exists j, d1, [], []. split; [exact Hfirst|].
      split; [now rewrite <- rows_deleted_replaced|]. right.
      split; [reflexivity|]. split; [reflexivity|].
      split; [now exists e|].
      destruct Hwhy as [[Hc _]|(Hfk & Hab & _)]; [now left | now right].
Qed.

Lemma note_statement_effect et now created i t c d j d1 :
  note_statement_ran et now created i t c d j d1 ->
  (i = Some j /\ existsb (has_id j) (notes d) = false /\ d1 = d)
  \/ (exists vt vc,
        i = Some j
        /\ columns et t c = Some (Some vt, Some vc)
        /\ existsb (has_id j) (notes d) = true
        /\ existsb (fun n => negb (has_id j n) && has_title vt n) (notes d)
           = false
        /\ d1 = Db (map (fun n => if has_id j n then updated vt vc now n
                                  else n) (notes d))
                   (links d) (tags d)
                   (fold_left
                      (fun docs n =>
                         if has_id j n
                         then fts_insert (updated vt vc now n)
                                         (fts_delete (id n) docs)
                         else docs)
                      (notes d) (notes_fts d)))
  \/ (exists vt vc,
        columns et t c = Some (Some vt, Some vc)
        /\ existsb (has_title vt) (notes d) = false
        /\ j = next_rowid (notes d)
        /\ d1 = Db (notes d ++ [Note j vt vc created now]) (links d) (tags d)
                   (fts_insert (Note j vt vc created now) (notes_fts d))).
Proof.
  unfold note_statement_ran. destruct (truthy i).
  - intros [Hi Hu]. apply update_note_full in Hu.
    destruct Hu as [[Hno ->]|(vt & vc & Hb & Hex & Hfree & ->)].
    + now left.
    + right; left. exists vt, vc. repeat split; assumption.
  - intros H. apply insert_note_ok in H.
    destruct H as (vt & vc & Hb & Hfree & Hj & ->).
    right; right. exists vt, vc. repeat split; assumption.
Qed.

Lemma map_updated_absent j vt vc now ns :
  existsb (has_id j) ns = false ->
  map (fun n => if has_id j n then updated vt vc now n else n) ns = ns.
Proof.
  induction ns as [|m ns IH]; simpl; [reflexivity|].
  destruct (has_id j m); simpl; [discriminate|]. intros H. now rewrite IH.
Qed.

Lemma existsb_has_id_map k j vt vc now ns :
  existsb (has_id k)
          (map (fun n => if has_id j n then updated vt vc now n else n) ns)
  = existsb (has_id k) ns.
Proof.
  induction ns as [|m ns IH]; simpl; [reflexivity|].
  rewrite IH. now destruct (has_id j m).
Qed.

Lemma not_in_existsb_has_id j ns :
  ~ In j (map id ns) -> existsb (has_id j) ns = false.
Proof.
  intros H. destruct (existsb (has_id j) ns) eqn:E; [|reflexivity].
  exfalso. apply H. apply existsb_exists in E. destruct E as (n & Hn & E).
  unfold has_id in E. apply Z.eqb_eq in E. rewrite <- E. now apply in_map.
Qed.

Lemma existsb_has_id_in j ns :
  existsb (has_id j) ns = true <-> In j (map id ns).
Proof.
  split.
  - intros E. apply existsb_exists in E. destruct E as (n & Hn & E).
    unfold has_id in E. apply Z.eqb_eq in E. rewrite <- E. now apply in_map.
  - intros H. apply in_map_iff in H. destruct H as (n & E & Hn).
    apply existsb_exists. exists n. split; [exact Hn|].
    unfold has_id. now apply Z.eqb_eq.
Qed.

(** ** The UNIQUE constraint on titles *)

Lemma not_has_title vt ns :
  existsb (has_title vt) ns = false -> ~ In vt (map title ns).
Proof.
  intros E Hin. apply in_map_iff in Hin. destruct Hin as (n & Et & Hn).
  assert (existsb (has_title vt) ns = true); [|congruence].
  apply existsb_exists. exists n. split; [exact Hn|].
  unfold has_title. now destruct (jsstring_eq_dec (title n) vt).
Qed.

Lemma titles_after_update j vt vc now ns :
  NoDup (map id ns) -> NoDup (map title ns) ->
  existsb (fun n => negb (has_id j n) && has_title vt n) ns = false ->
  NoDup (map title
             (map (fun n => if has_id j n then updated vt vc now n else n) ns)).
Proof.
  induction ns as [|m ns IH]; simpl; intros Hid Ht Hfree; [constructor|].
  inversion Hid as [|? ? Hid1 Hid2]; subst.
  inversion Ht as [|? ? Ht1 Ht2]; subst.
  apply orb_false_iff in Hfree. destruct Hfree as [Hm Hfree].
  destruct (has_id j m) eqn:Ej.
  - unfold has_id in Ej. apply Z.eqb_eq in Ej.
    rewrite map_updated_absent
      by (apply not_in_existsb_has_id; now rewrite <- Ej).
    simpl. constructor; [|exact Ht2].
    intros Hin. apply in_map_iff in Hin. destruct Hin as (n & En & Hn).
    assert (E : (negb (has_id j n) && has_title vt n) = true).
    { apply andb_true_iff. split.
      - apply negb_true_iff. unfold has_id. apply Z.eqb_neq. intros E.
        apply Hid1. rewrite Ej, <- E. now apply in_map.
      - unfold has_title. now destruct (jsstring_eq_dec (title n) vt). }
    assert (existsb (fun n => negb (has_id j n) && has_title vt n) ns = true);
      [|congruence].
    apply existsb_exists. now exists n.
  - constructor; [|now apply IH].
    intros Hin. apply in_map_iff in Hin. destruct Hin as (n' & En & Hn).
    apply in_map_iff in Hn. destruct Hn as (n & <- & Hn).
    destruct (has_id j n).
    + simpl in En. simpl in Hm. unfold has_title in Hm.
      destruct (jsstring_eq_dec (title m) vt); [discriminate | congruence].
    + apply Ht1. rewrite <- En. now apply in_map.
Qed.

Lemma note_statement_titles et now created i t c d j d1 :
  note_statement_ran et now created i t c d j d1 ->
  consistent d -> titles_unique d -> titles_unique d1.
Proof.
  intros H [Hid _] Ht. apply note_statement_effect in H.
  unfold titles_unique in *.
  destruct H as [(_ & _ & ->)|[(vt & vc & _ & _ & _ & Hfree & ->)
                              |(vt & vc & _ & Hfree & _ & ->)]].
  - exact Ht.
  - simpl. now apply titles_after_update.
  - simpl. rewrite map_app. simpl.
    apply NoDup_app; [exact Ht | repeat constructor; intros [] |].
    intros x Hx [<-|[]]. now apply (not_has_title _ _ Hfree).
Qed.

(** X2. The UNIQUE constraint is an invariant of the write and delete
    routes: from a database whose notes have distinct ids and distinct
    titles, each of them leaves a database whose notes have distinct
    titles, whether the request succeeds or fails. *)
Theorem routes_keep_titles_unique fk ul et now created i t c d :
  consistent d -> titles_unique d ->
  titles_unique (snd (post_notes fk ul et now created t c d))
  /\ titles_unique (snd (put_note fk ul et now created i t c d))
  /\ titles_unique (snd (delete_note fk i d)).
Proof.
  intros Hc Ht.
  assert (G : forall i t c r d',
             upsertNote fk ul et now created i t c d = (r, d') ->
             titles_unique d').
  { intros i0 t0 c0 r d' H. apply upsertNote_outcome in H.
    destruct H as [[-> _]|(j & d1 & ls & ts & Hran & -> & _)]; [exact Ht|].
    unfold titles_unique. simpl.
    exact (note_statement_titles _ _ _ _ _ _ _ _ _ Hran Hc Ht). }
  split; [|split].
  - unfold post_notes.
    destruct (upsertNote _ _ _ _ _ _ _ _) as [[n|e] d'] eqn:E;
      simpl; eapply G; exact E.
  - unfold put_note. destruct i as [z|]; [|exact Ht].
    destruct (upsertNote _ _ _ _ _ _ _ _) as [[n|e] d'] eqn:E;
      simpl; eapply G; exact E.
  - destruct i as [z|]; [|exact Ht]. rewrite delete_note_runs.
    unfold titles_unique in *. simpl. clear Hc.
    induction (notes d) as [|m ns IH]; simpl; [constructor|].
    inversion Ht; subst. destruct (has_id z m); simpl; [now apply IH|].
    constructor; [|now apply IH].
    intros Hin. apply in_map_iff in Hin. destruct Hin as (n & En & Hn).
    apply filter_In in Hn. destruct Hn as [Hn _].
    match goal with H : ~ In _ _ |- _ => apply H end.
    rewrite <- En. now apply in_map.
Qed.

Lemma find_none_existsb {A} (f : A -> bool) (l : list A) :
  find f l = None -> existsb f l = false.
Proof.
  induction l as [|x l IH]; simpl; [reflexivity|].
  destruct (f x); [discriminate | exact IH].
Qed.

(** ** The triggers keep the search index in step *)

Lemma perm_filter {A} (f : A -> bool) (l l' : list A) :
  Permutation l l' -> Permutation (filter f l) (filter f l').
Proof.
  induction 1 as [|x l l' H IH|x y l|l l' l'' H1 IH1 H2 IH2]; simpl.
  - constructor.
  - destruct (f x); [now constructor | exact IH].
  - destruct (f y), (f x); try apply Permutation_refl. apply perm_swap.
  - now transitivity (filter f l').
Qed.

Lemma fts_delete_docs j ns :
  fts_delete j (map doc_of ns)
  = map doc_of (filter (fun n => negb (has_id j n)) ns).
Proof.
  unfold fts_delete. induction ns as [|m ns IH]; simpl; [reflexivity|].
  unfold has_id at 1. destruct (id m =? j)%Z; simpl; now rewrite IH.
Qed.

Lemma trigger_au_once j vt vc now ns docs :
  NoDup (map id ns) ->
  fold_left
    (fun docs n =>
       if has_id j n
       then fts_insert (updated vt vc now n) (fts_delete (id n) docs)
       else docs)
    ns docs
  = match find (has_id j) ns with
    | Some n => fts_insert (updated vt vc now n) (fts_delete j docs)
    | None => docs
    end.
Proof.
  revert docs. induction ns as [|m ns IH]; intros docs Hid; simpl;
    [reflexivity|].
  inversion Hid as [|? ? Hm Hns]; subst.
  destruct (has_id j m) eqn:Ej.
  - unfold has_id in Ej. apply Z.eqb_eq in Ej. rewrite IH by exact Hns.
    assert (E : find (has_id j) ns = None).
    { destruct (find (has_id j) ns) as [n|] eqn:F; [|reflexivity].
      apply find_has_id in F. destruct F as [F1 F2]. exfalso. apply Hm.
      rewrite Ej, <- F1. now apply in_map. }
    now rewrite E, Ej.
  - now apply IH.
Qed.

Lemma docs_after_update j vt vc now ns n :
  NoDup (map id ns) -> find (has_id j) ns = Some n ->
  Permutation
    (map doc_of
         (map (fun n => if has_id j n then updated vt vc now n else n) ns))
    (doc_of (updated vt vc now n)
     :: map doc_of (filter (fun n => negb (has_id j n)) ns)).
Proof.
  induction ns as [|m ns IH]; simpl; intros Hid Hf; [discriminate|].
  inversion Hid as [|? ? Hm Hns]; subst.
  destruct (has_id j m) eqn:Ej.
  - inversion Hf; subst m. simpl.
    unfold has_id in Ej. apply Z.eqb_eq in Ej.
    assert (E : existsb (has_id j) ns = false).
    { apply not_in_existsb_has_id. now rewrite <- Ej. }
    rewrite map_updated_absent by exact E.
    rewrite filter_absent by exact E. apply Permutation_refl.
  - simpl. eapply perm_trans; [apply perm_skip, IH; assumption|].
    apply perm_swap.
Qed.

Lemma note_statement_fts et now created i t c d j d1 :
  note_statement_ran et now created i t c d j d1 ->
  consistent d -> fts_synced d -> fts_synced d1.
Proof.
  intros H [Hid _] Hs. apply note_statement_effect in H.
  unfold fts_synced in *.
  destruct H as [(_ & _ & ->)|[(vt & vc & _ & _ & Hex & _ & ->)
                              |(vt & vc & _ & _ & _ & ->)]].
  - exact Hs.
  - simpl. rewrite trigger_au_once by exact Hid.
    destruct (find (has_id j) (notes d)) as [n|] eqn:F.
    + eapply perm_trans; [|apply Permutation_sym, docs_after_update; eassumption].
      unfold fts_insert.
      eapply perm_trans; [apply Permutation_sym, Permutation_cons_append|].
      apply perm_skip. rewrite <- fts_delete_docs.
      unfold fts_delete. now apply perm_filter.
    + apply find_none_existsb in F. congruence.
  - simpl. unfold fts_insert. rewrite map_app. simpl.
    now apply Permutation_app_tail.
Qed.

(** X3. The triggers keep the full-text index in step with the notes
    table: from a database with distinct note ids whose index holds
    exactly one document (id, title, content) per note, every write and
    delete route, succeeding or failing, leaves such a database. *)
Theorem routes_keep_search_index_synced fk ul et now created i t c d :
  consistent d -> fts_synced d ->
  fts_synced (snd (post_notes fk ul et now created t c d))
  /\ fts_synced (snd (put_note fk ul et now created i t c d))
  /\ fts_synced (snd (delete_note fk i d)).
Proof.
  intros Hc Hs.
  assert (G : forall i t c r d',
             upsertNote fk ul et now created i t c d = (r, d') ->
             fts_synced d').
  { intros i0 t0 c0 r d' H. apply upsertNote_outcome in H.
    destruct H as [[-> _]|(j & d1 & ls & ts & Hran & -> & _)]; [exact Hs|].
    unfold fts_synced. simpl.
    exact (note_statement_fts _ _ _ _ _ _ _ _ _ Hran Hc Hs). }
  split; [|split].
  - unfold post_notes.
    destruct (upsertNote _ _ _ _ _ _ _ _) as [[n|e] d'] eqn:E;
      simpl; eapply G; exact E.
  - unfold put_note. destruct i as [z|]; [|exact Hs].
    destruct (upsertNote _ _ _ _ _ _ _ _) as [[n|e] d'] eqn:E;
      simpl; eapply G; exact E.
  - destruct i as [z|]; [|exact Hs]. rewrite delete_note_runs.
    unfold fts_synced in *. simpl.
    destruct (existsb (has_id z) (notes d)) eqn:E.
    + rewrite <- fts_delete_docs. unfold fts_delete. now apply perm_filter.
    + now rewrite filter_absent by exact E.
Qed.

(** ** The shape of what the parser returns *)

Lemma star_greedy_sound p (k : cont) :
  forall s prev caps m,
    star_greedy p prev s caps k = Some m ->
    exists a b,
      s = a ++ b /\ Forall (fun c => p c = true) a
      /\ k (last_char prev a) b caps = Some m.
Proof.
  induction s as [|c s IH]; intros prev caps m H; simpl in H.
  - exists [], []. now repeat split.
  - destruct (p c) eqn:Ec.
    + destruct (star_greedy p (Some c) s caps k) as [m'|] eqn:E.
      * inversion H; subst m'. apply IH in E.
        destruct E as (a & b & -> & Ha & Hk).
        exists (c :: a), b. repeat split; [now constructor | exact Hk].
      * exists [], (c :: s). now repeat split.
    + exists [], (c :: s). now repeat split.
Qed.

Lemma scan_sound r :
  forall s skip prev c,
    In c (scan r skip prev s) ->
    exists pre suf m,
      s = pre ++ suf
      /\ match_here r (last_char prev pre) suf = Some m
      /\ m_caps m = c.
Proof.
  induction s as [|x s IH]; intros skip prev c H.
  - destruct skip; [|destruct H]. simpl in H.
    destruct (match_here r prev []) as [m|] eqn:E; [|destruct H].
    destruct H as [<-|[]]. exists [], [], m. now repeat split.
  - assert (G : forall n, In c (scan r n (Some x) s) ->
                          exists pre suf m,
                            x :: s = pre ++ suf
                            /\ match_here r (last_char prev pre) suf = Some m
                            /\ m_caps m = c).
    { intros n Hn. apply IH in Hn. destruct Hn as (pre & suf & m & -> & Hm & Hc).
      exists (x :: pre), suf, m. now repeat split. }
    destruct skip as [|n]; cbn [scan] in H; [|now apply (G n)].
    destruct (match_here r prev (x :: s)) as [m|] eqn:E.
    + destruct H as [<-|H]; [|now apply G in H].
      exists [], (x :: s), m. now repeat split.
    + now apply G in H.
Qed.

Lemma last_char_some c s : exists x, last_char (Some c) s = Some x.
Proof.
  revert c. induction s as [|y s IH]; intros c; [now exists c|]. apply IH.
Qed.

Lemma last_char_none s : last_char None s = None -> s = [].
Proof.
  destruct s as [|c s]; [reflexivity|]. intros H.
  change (last_char (Some c) s = None) in H.
  destruct (last_char_some c s) as (x & E). congruence.
Qed.

Lemma after_lead_sound ul s0 prev s caps m :
  after_lead ul s0 prev s caps = Some m ->
  exists body rest,
    s = CharClass.hash :: body ++ rest
    /\ body <> []
    /\ Forall (fun c => tag_char ul c = true) body
    /\ group 2 (m_caps m) = body
    /\ word_at (last_char None body) <> word_at (hd_error rest).
Proof.
  unfold after_lead. cbn [rmatch]. intros H.
  destruct s as [|x s1]; [discriminate H|].
  destruct (x =? CharClass.hash)%N eqn:Ex; [|discriminate H].
  apply N.eqb_eq in Ex. subst x.
  destruct s1 as [|y s2]; [discriminate H|].
  destruct (tag_char ul y) eqn:Ey; [|discriminate H].
  apply star_greedy_sound in H. destruct H as (a & b & -> & Ha & H).
  destruct (xorb _ _) eqn:Eb in H; [|discriminate H].
  unfold accept in H. inversion H; subst m; clear H.
  exists (y :: a), b. split; [reflexivity|]. split; [discriminate|].
  split; [now constructor|]. split.
  - unfold group. cbn [m_caps lookup Nat.eqb].
    apply (consumed_app (y :: a) b).
  - cbn [last_char fold_left]. fold (last_char (Some y) a).
    intros E. rewrite E in Eb. now rewrite xorb_nilpotent in Eb.
Qed.

Lemma match_here_tag_alternatives ul prev s :
  match_here (TAG_RE ul) prev s
  = match match prev with
          | None => after_lead ul s prev s []
          | Some _ => None
          end with
    | Some m => Some m
    | None =>
        match s with
        | w :: s' =>
            if CharClass.is_space w then after_lead ul s (Some w) s' []
            else None
        | [] => None
        end
    end.
Proof.
  reflexivity.
Qed.

Lemma match_here_tag ul prev s m :
  match_here (TAG_RE ul) prev s = Some m ->
  exists lead body rest,
    s = lead ++ CharClass.hash :: body ++ rest
    /\ ((lead = [] /\ prev = None)
        \/ exists w, lead = [w] /\ CharClass.is_space w = true)
    /\ body <> []
    /\ Forall (fun c => tag_char ul c = true) body
    /\ group 2 (m_caps m) = body
    /\ word_at (last_char None body) <> word_at (hd_error rest).
Proof.
  rewrite match_here_tag_alternatives. intros H.
  destruct prev as [p|].
  - destruct s as [|w s1]; [discriminate H|].
    destruct (CharClass.is_space w) eqn:Ew; [|discriminate H].
    apply after_lead_sound in H. destruct H as (body & rest & -> & Hb).
    exists [w], body, rest. split; [reflexivity|].
    split; [right; now exists w | exact Hb].
  - destruct (after_lead ul s None s []) as [m'|] eqn:Ebol.
    + injection H as ->. apply after_lead_sound in Ebol.
      destruct Ebol as (body & rest & -> & Hb).
      exists [], body, rest.
      split; [reflexivity|]. split; [now left | exact Hb].
    + destruct s as [|w s1]; [discriminate H|].
      destruct (CharClass.is_space w) eqn:Ew; [|discriminate H].
      apply after_lead_sound in H. destruct H as (body & rest & -> & Hb).
      exists [w], body, rest. split; [reflexivity|].
      split; [right; now exists w | exact Hb].
Qed.

Lemma extractTags_loop ms :
  forall acc,
    NoDup acc ->
    NoDup (fold_left
             (fun tags m => set_add (CodePoint.encode (group 2 m)) tags)
             ms acc)
    /\ (forall t,
          In t (fold_left
                  (fun tags m => set_add (CodePoint.encode (group 2 m)) tags)
                  ms acc)
          <-> In t acc
              \/ exists m, In m ms /\ t = CodePoint.encode (group 2 m)).
Proof.
  induction ms as [|m ms IH]; intros acc Hacc; cbn [fold_left].
  - split; [exact Hacc|]. intros t. split; [now left|].
    intros [H|(m & [] & _)]. exact H.
  - destruct (IH _ (@set_add_nodup (CodePoint.encode (group 2 m)) acc Hacc))
      as [Hnd Hin].
    split; [exact Hnd|]. intros t. rewrite Hin, set_add_in. split.
    + intros [[H| ->]|(m' & Hm' & E)].
      * now left.
      * right. exists m. split; [now left | reflexivity].
      * right. exists m'. split; [now right | exact E].
    + intros [H|(m' & [<-|Hm'] & E)].
      * left. now left.
      * left. now right.
      * right. now exists m'.
Qed.

Lemma extractTags_nodup ul s : NoDup (extractTags ul s).
Proof.
  unfold extractTags.
  now destruct (extractTags_loop (matchAll (TAG_RE ul) (CodePoint.decode s))
                                 [] (NoDup_nil _)).
Qed.

Lemma extractLinks_returns_nodup s : NoDup (extractLinks s).
Proof.
  unfold extractLinks.
  now destruct (@extractLinks_loop (matchAll WIKILINK_RE s) [] (NoDup_nil _)).
Qed.

Lemma encode_nonempty body : body <> [] -> CodePoint.encode body <> [].
Proof.
  destruct body as [|c body]; [contradiction|]. intros _.
  unfold CodePoint.encode. simpl. unfold CodePoint.units.
  destruct (c <? 0x10000)%N; discriminate.
Qed.

(** X16. Every tag [extractTags] returns is written in the content: it
    is the text of a non-empty run of tag characters (letters, digits,
    underscore, hyphen, slash) that follows a hash standing at the very
    start of the content or right after a whitespace character, and the
    run ends at a word boundary.  No tag is returned twice and none is
    empty. *)
Theorem extractTags_returns_written_tags ul content :
  NoDup (extractTags ul content)
  /\ forall t,
       In t (extractTags ul content) ->
       t <> []
       /\ exists pre body post,
            CodePoint.decode content = pre ++ CharClass.hash :: body ++ post
            /\ t = CodePoint.encode body
            /\ body <> []
            /\ Forall (fun c => tag_char ul c = true) body
            /\ (pre = []
                \/ exists pre' w, pre = pre' ++ [w]
                                  /\ CharClass.is_space w = true)
            /\ word_at (last_char None body) <> word_at (hd_error post).
Proof.
  unfold extractTags.
  destruct (extractTags_loop (matchAll (TAG_RE ul) (CodePoint.decode content))
                             [] (NoDup_nil _)) as [Hnd Hin].
  split; [exact Hnd|]. intros t Ht. apply Hin in Ht.
  destruct Ht as [[]|(m & Hm & ->)].
  unfold matchAll in Hm. apply scan_sound in Hm.
  destruct Hm as (pre0 & suf & mr & Es & Hmr & <-).
  apply match_here_tag in Hmr.
  destruct Hmr as (lead & body & rest & -> & Hlead & Hne & Hall & -> & Hb).
  split; [now apply encode_nonempty|].
  exists (pre0 ++ lead), body, rest.
  split; [now rewrite Es, <- app_assoc|]. split; [reflexivity|].
  split; [exact Hne|]. split; [exact Hall|]. split; [|exact Hb].
  destruct Hlead as [[-> Hp]|(w & -> & Hw)].
  - left. apply last_char_none in Hp. subst pre0. reflexivity.
  - right. now exists pre0, w.
Qed.

(** *** Trimmed titles *)

Lemma trim_start_unspaced s : starts_unspaced (trim_start s).
Proof.
  induction s as [|c s IH]; simpl; [exact I|].
  destruct (CharClass.is_space c) eqn:E; [exact IH | exact E].
Qed.

Lemma trim_start_fixed s : starts_unspaced s -> trim_start s = s.
Proof.
  destruct s as [|c s]; simpl; [reflexivity|]. now intros ->.
Qed.

Lemma trim_start_suffix s : exists a, s = a ++ trim_start s.
Proof.
  induction s as [|c s (a & IH)]; simpl; [now exists []|].
  destruct (CharClass.is_space c).
  - exists (c :: a). simpl. now rewrite <- IH.
  - now exists [].
Qed.

Lemma trim_end_prefix s : exists b, s = trim_end s ++ b.
Proof.
  unfold trim_end. destruct (trim_start_suffix (rev s)) as (a & E).
  exists (rev a). rewrite <- rev_app_distr, <- E. now rewrite rev_involutive.
Qed.

Lemma trim_end_unspaced s : starts_unspaced s -> starts_unspaced (trim_end s).
Proof.
  intros H. destruct (trim_end_prefix s) as (b & E).
  destruct (trim_end s) as [|c t]; [exact I|].
  rewrite E in H. exact H.
Qed.

Lemma trim_keeps {P : N -> Prop} s : Forall P s -> Forall P (trim s).
Proof.
  intros H. unfold trim.
  destruct (trim_start_suffix s) as (a & Ea).
  destruct (trim_end_prefix (trim_start s)) as (b & Eb).
  rewrite Ea in H. apply Forall_app in H. destruct H as [_ H].
  rewrite Eb in H. apply Forall_app in H. now destruct H.
Qed.

Lemma wikilinks_title_chars s titles :
  wikilinks s titles ->
  Forall (Forall (fun c => CharClass.title_char c = true)) titles.
Proof.
  induction 1 as [|s t r l Hw Hl IH|c s l Hno Hl IH];
    [constructor| |exact IH].
  constructor; [|exact IH]. now destruct Hw.
Qed.

Lemma trim_start_spaces s :
  exists a,
    s = a ++ trim_start s /\ Forall (fun c => CharClass.is_space c = true) a.
Proof.
  induction s as [|c s (a & IH & Ha)]; simpl; [now exists []|].
  destruct (CharClass.is_space c) eqn:E.
  - exists (c :: a). simpl. split; [now rewrite <- IH | now constructor].
  - now exists [].
Qed.

Lemma trim_end_spaces s :
  exists b,
    s = trim_end s ++ b /\ Forall (fun c => CharClass.is_space c = true) b.
Proof.
  unfold trim_end. destruct (trim_start_spaces (rev s)) as (a & E & Ha).
  exists (rev a). split.
  - rewrite <- rev_app_distr, <- E. now rewrite rev_involutive.
  - now apply Forall_rev.
Qed.

Lemma trim_start_skips a s :
  Forall (fun c => CharClass.is_space c = true) a ->
  trim_start (a ++ s) = trim_start s.
Proof.
  induction 1 as [|c a Hc _ IH]; [reflexivity|]. simpl. now rewrite Hc.
Qed.

Lemma trim_end_unspaced_rev s : starts_unspaced (rev (trim_end s)).
Proof.
  unfold trim_end. rewrite rev_involutive. apply trim_start_unspaced.
Qed.

(** [trim] is trimming as the specification words it. *)
Lemma trimmed_trim raw t : trimmed raw t <-> t = trim raw.
Proof.
  split.
  - intros (a & b & -> & Ha & Hb & Hs & He). unfold trim.
    rewrite (trim_start_skips a (t ++ b) Ha).
    destruct t as [|c t].
    + simpl. rewrite <- (app_nil_r b), (trim_start_skips b [] Hb).
      reflexivity.
    + simpl in Hs. simpl. rewrite Hs. unfold trim_end.
      change (c :: t ++ b) with ((c :: t) ++ b). rewrite rev_app_distr.
      rewrite (trim_start_skips (rev b) (rev (c :: t)) (Forall_rev Hb)).
      rewrite (trim_start_fixed _ He). now rewrite rev_involutive.
  - intros ->. unfold trim.
    destruct (trim_start_spaces raw) as (a & Ea & Ha).
    destruct (trim_end_spaces (trim_start raw)) as (b & Eb & Hb).
    exists a, b. split; [now rewrite <- Eb|].
    split; [exact Ha|]. split; [exact Hb|]. split.
    + apply trim_end_unspaced, trim_start_unspaced.
    + apply trim_end_unspaced_rev.
Qed.

(** C6, as the code has it.  For every content, [extractLinks]
    returns, each once, the trimmed titles of the wikilinks written
    [[Title]] or [[Title#heading]] in it, the heading left out, except
    the titles that are nothing but whitespace: a target is a title
    without the whitespace at its two ends, and it is never empty.
    Being a function of the content, it gives the same set whenever it
    is run. *)
Theorem extractLinks_titles_of_wikilinks content :
  exists titles,
    wikilinks content titles
    /\ (forall titles', wikilinks content titles' -> titles' = titles)
    /\ (forall t,
          In t (extractLinks content)
          <-> t <> [] /\ exists raw, In raw titles /\ trimmed raw t)
    /\ NoDup (extractLinks content).
Proof.
  exists (map (group 1) (matchAll WIKILINK_RE content)).
  assert (Hw : wikilinks content
                         (map (group 1) (matchAll WIKILINK_RE content))).
  { apply (@scan_wikilinks (length content)). reflexivity. }
  split; [exact Hw|].
  split; [intros l Hl; exact (@wikilinks_functional _ _ _ Hl Hw)|].
  destruct (@extractLinks_loop (matchAll WIKILINK_RE content) []
                               (NoDup_nil _))
    as [Hnd Hin].
  split; [|exact Hnd].
  intros t. unfold extractLinks. rewrite Hin. split.
  - intros [[]|(Hne & m & Hm & E)]. split; [exact Hne|].
    exists (group 1 m). split; [now apply in_map | now apply trimmed_trim].
  - intros (Hne & raw & Hraw & E). right. split; [exact Hne|].
    apply in_map_iff in Hraw. destruct Hraw as (m & <- & Hm).
    exists m. split; [exact Hm | now apply trimmed_trim].
Qed.

(** C6 as stated fails: [[ ]] is a wikilink whose title, one space,
    trims to the empty string, and [extractLinks] returns nothing for
    it. *)
Lemma blank_title_gives_no_target :
  wikilinks (str "[[ ]]") [str " "]
  /\ trimmed (str " ") []
  /\ extractLinks (str "[[ ]]") = [].
Proof.
  split; [|split].
  - apply (@wikilinks_link (str "[[ ]]") (str " ") [] []).
    + apply (@wikilink_plain (str " ") []); [discriminate|].
      repeat constructor.
    + constructor.
  - exists (str " "), []. repeat split; repeat constructor.
  - reflexivity.
Qed.

(** X17. Every link target [extractLinks] returns is usable as a title
    to look up: it is not empty, its first and its last character are
    not whitespace, and it contains no closing bracket, bar or hash.  No
    target is returned twice. *)
Theorem extractLinks_returns_clean_titles content :
  NoDup (extractLinks content)
  /\ forall t,
       In t (extractLinks content) ->
       t <> []
       /\ (forall c s, t = c :: s -> CharClass.is_space c = false)
       /\ (forall s c, t = s ++ [c] -> CharClass.is_space c = false)
       /\ Forall (fun c => CharClass.title_char c = true) t.
Proof.
  destruct (@extractLinks_loop (matchAll WIKILINK_RE content) []
                               (NoDup_nil _)) as [Hnd Hin].
  split; [exact Hnd|]. intros t Ht. unfold extractLinks in Ht.
  apply Hin in Ht. destruct Ht as [[]|(Hne & m & Hm & ->)].
  split; [exact Hne|].
  pose proof (proj2 (trimmed_trim (group 1 m) _) eq_refl)
    as (a & b & _ & _ & _ & Hs & He).
  split; [|split].
  - intros c s E. rewrite E in Hs. exact Hs.
  - intros s c E. rewrite E, rev_app_distr in He. exact He.
  - apply trim_keeps.
    assert (Hw : wikilinks content
                           (map (group 1) (matchAll WIKILINK_RE content))).
    { apply (@scan_wikilinks (length content)). reflexivity. }
    apply wikilinks_title_chars in Hw.
    rewrite Forall_forall in Hw. apply Hw. now apply in_map.
Qed.

(** ** What is stored of the links and tags of a content *)

Lemma space_not_surrogate c :
  CharClass.is_space c = true ->
  CodePoint.is_lead c = false /\ CodePoint.is_trail c = false.
Proof.
  unfold CharClass.is_space. intros H.
  repeat match type of H with
         | (_ || _)%bool = true =>
             apply orb_true_iff in H; destruct H as [H|H]
         end;
    try (apply N.eqb_eq in H; subst c; split; reflexivity).
  apply andb_true_iff in H. destruct H as [H1 H2].
  apply N.leb_le in H1, H2.
  unfold CodePoint.is_lead, CodePoint.is_trail.
  split; apply andb_false_iff; left; apply N.leb_gt; lia.
Qed.

(** A piece of well-formed text cut where no pair can straddle is
    well-formed. *)
Lemma well_formed_piece a s b :
  well_formed (a ++ s ++ b) ->
  (forall a' x, a = a' ++ [x] -> CodePoint.is_lead x = false) ->
  (forall y b', b = y :: b' -> CodePoint.is_trail y = false) ->
  well_formed s.
Proof.
  intros H Ha Hb.
  apply well_formed_app in H.
  - destruct H as [_ H]. apply well_formed_app in H; [now destruct H|].
    intros s' x y b' _ Eb. rewrite (Hb y b' Eb). apply andb_false_r.
  - intros a' x y r Ea _. now rewrite (Ha a' x Ea).
Qed.

Lemma last_is (a' : list N) x l c :
  a' ++ [x] = l ++ [c] -> x = c.
Proof.
  intros E. apply app_inj_tail in E. now destruct E.
Qed.

Lemma forall_last {P : N -> Prop} l a' x :
  Forall P l -> l = a' ++ [x] -> P x.
Proof.
  intros H ->. apply Forall_app in H. destruct H as [_ H].
  now inversion H.
Qed.

(** Every target of well-formed text is well-formed. *)
Lemma link_target_well_formed content t :
  well_formed content -> In t (extractLinks content) -> well_formed t.
Proof.
  intros Hwf Ht.
  destruct (@extractLinks_loop (matchAll WIKILINK_RE content) []
                               (NoDup_nil _)) as [_ Hin].
  unfold extractLinks in Ht. apply Hin in Ht.
  destruct Ht as [[]|(_ & m & Hm & ->)].
  unfold matchAll in Hm. apply scan_sound in Hm.
  destruct Hm as (pre & suf & mr & Es & Hmr & <-).
  rewrite match_here_wikilink in Hmr.
  destruct (parse_wikilink suf) as [[raw rest]|] eqn:Ep; [|discriminate Hmr].
  injection Hmr as <-. cbn [m_caps fst].
  change (group 1 [(1%nat, raw)]) with raw.
  apply parse_wikilink_sound in Ep.
  assert (Hraw : exists x tail,
             suf = open_brackets ++ raw ++ x :: tail
             /\ CodePoint.is_trail x = false).
  { destruct Ep as [t r _ _ | t h r _ _ _ _].
    - exists CharClass.rbracket, (CharClass.rbracket :: r). now split.
    - exists CharClass.hash, (h ++ close_brackets ++ r). now split. }
  destruct Hraw as (x & tail & Esuf & Hx).
  assert (Hrawwf : well_formed raw).
  { apply (well_formed_piece (pre ++ open_brackets) raw (x :: tail)).
    - rewrite <- app_assoc. now rewrite <- Esuf, <- Es.
    - intros a' y E. unfold open_brackets in E.
      change (pre ++ [CharClass.lbracket; CharClass.lbracket])
        with (pre ++ [CharClass.lbracket] ++ [CharClass.lbracket]) in E.
      rewrite !app_assoc in E. apply last_is in E. now subst y.
    - intros y b' E. injection E as <- _. exact Hx. }
  destruct (proj2 (trimmed_trim raw _) eq_refl)
    as (a & b & Er & Ha & Hb & _ & _).
  apply (well_formed_piece a (trim raw) b).
  - now rewrite <- Er.
  - intros a' y E. apply (forall_last _ _ _ Ha) in E.
    now apply space_not_surrogate in E.
  - intros y b' E. rewrite E in Hb. inversion Hb as [|? ? Hy _]; subst.
    now apply space_not_surrogate in Hy.
Qed.

Lemma stored_as_sent {A} (f : A -> A) (l : list A) :
  (forall x, In x l -> f x = x) -> map f l = l.
Proof.
  intros H. rewrite <- (map_id l) at 2. now apply map_ext_in.
Qed.

(** The targets of well-formed text are stored as they are. *)
Lemma link_targets_stored content :
  well_formed content ->
  map utf8_text (extractLinks content) = extractLinks content.
Proof.
  intros H. apply stored_as_sent. intros t Ht.
  apply utf8_text_well_formed. now apply (link_target_well_formed content).
Qed.

(** So are its tags. *)
Lemma tags_stored ul content :
  well_formed content ->
  map utf8_text (extractTags ul content) = extractTags ul content.
Proof.
  intros [Hu Hs]. apply stored_as_sent. intros t Ht.
  unfold extractTags in Ht.
  destruct (extractTags_loop (matchAll (TAG_RE ul) (CodePoint.decode content))
                             [] (NoDup_nil _)) as [_ Hin].
  apply Hin in Ht. destruct Ht as [[]|(m & Hm & ->)].
  unfold matchAll in Hm. apply scan_sound in Hm.
  destruct Hm as (pre0 & suf & mr & Es & Hmr & <-).
  apply match_here_tag in Hmr.
  destruct Hmr as (lead & body & rest & -> & _ & _ & _ & -> & _).
  apply decode_bound in Hu. rewrite Es in Hs, Hu.
  apply Forall_app in Hs, Hu. destruct Hs as [_ Hs], Hu as [_ Hu].
  apply Forall_app in Hs, Hu. destruct Hs as [_ Hs], Hu as [_ Hu].
  inversion Hs as [|? ? _ Hs']; subst. inversion Hu as [|? ? _ Hu']; subst.
  apply Forall_app in Hs', Hu'. destruct Hs' as [Hs' _], Hu' as [Hu' _].
  unfold utf8_text. rewrite decode_encode.
  - f_equal. apply stored_as_sent. intros cp Hcp.
    rewrite Forall_forall in Hs'. now apply scalar_fixed, Hs'.
  - rewrite Forall_forall in *. intros cp Hcp. split; auto.
Qed.

Lemma link_targets_rebuilt j ls ts d :
  link_targets j (rows_replaced j ls ts d) = ls.
Proof.
  unfold link_targets, rows_replaced. cbn [links].
  now apply filter_rebuilt.
Qed.

Lemma tag_names_rebuilt j ls ts d :
  tag_names j (rows_replaced j ls ts d) = ts.
Proof.
  unfold tag_names, rows_replaced. cbn [tags].
  now apply filter_rebuilt.
Qed.

(** The row a write returns holds the columns the statement bound. *)
Lemma returned_row_columns fk ul et now created i t c d n d' :
  upsertNote fk ul et now created i t c d = (Ok (Some n), d') ->
  columns et t c = Some (Some (title n), Some (content n)).
Proof.
  intros H. apply upsertNote_returns in H.
  destruct H as (j & s & d1 & Hc & Hnote & Hd' & Hr).
  symmetry in Hr.
  destruct (truthy i).
  - destruct Hnote as [_ Hu]. apply update_note_ok in Hu.
    destruct Hu as [[Hnone ->]|(vt & vc & Hb & _ & Hns & _)].
    + apply find_existsb in Hr. congruence.
    + rewrite Hns in Hr. apply find_updated in Hr.
      destruct Hr as [-> ->]. exact Hb.
  - apply insert_note_ok in Hnote.
    destruct Hnote as (vt & vc & Hb & _ & Hj & ->).
    simpl in Hr. apply find_appended in Hr; [|exact Hj|reflexivity].
    subst n. exact Hb.
Qed.

(** C1, as the code has it.  After a create or update that returns a
    note, the content sent was a string [s], the note holds it as
    stored, [utf8_text s], and the Link rows of the note are the
    entries of [extractLinks s] as stored, its Tag rows those of
    [extractTags s]: rows of an earlier content are gone and every
    extracted entry has its row.  For well-formed text, stored as it is,
    the rows are exactly [extractLinks] and [extractTags] of the
    content, each entry once. *)
Theorem upsert_rebuilds_derived_rows fk ul et now created i t c d n d' :
  upsertNote fk ul et now created i t c d = (Ok (Some n), d') ->
  exists s,
    c = JString s
    /\ content n = utf8_text s
    /\ link_targets (id n) d' = map utf8_text (extractLinks s)
    /\ tag_names (id n) d' = map utf8_text (extractTags ul s)
    /\ (well_formed s ->
        content n = s
        /\ link_targets (id n) d' = extractLinks (content n)
        /\ NoDup (link_targets (id n) d')
        /\ tag_names (id n) d' = extractTags ul (content n)
        /\ NoDup (tag_names (id n) d')).
Proof.
  intros H. pose proof (returned_row_columns _ _ _ _ _ _ _ _ _ _ _ H) as Hb.
  apply upsertNote_returns in H.
  destruct H as (j & s & d1 & Hc & Hnote & Hd' & Hr).
  symmetry in Hr. pose proof (find_has_id _ _ Hr) as [Hid Hin].
  exists s. split; [exact Hc|]. subst c.
  apply columns_string_content in Hb. cbn [snd] in Hb.
  injection Hb as Hcontent.
  fold (rows_replaced j (map utf8_text (extractLinks s))
                      (map utf8_text (extractTags ul s)) d1) in Hd'.
  subst d'. rewrite Hid, link_targets_rebuilt, tag_names_rebuilt.
  split; [exact Hcontent|]. split; [reflexivity|]. split; [reflexivity|].
  intros Hwf. rewrite Hcontent, (utf8_text_well_formed Hwf).
  rewrite (link_targets_stored s Hwf), (tags_stored ul s Hwf).
  split; [reflexivity|]. split; [reflexivity|].
  split; [apply (extractLinks_returns_nodup s)|].
  split; [reflexivity|]. apply (extractTags_nodup ul s).
Qed.

Lemma upsert_rebuilds_derived_rows_witness :
  let d := Db [Note 1 (str "A") (str "[[Old]] #old") [] []]
              [Link 1 (str "Old")] [Tag 1 (str "old")]
              [Doc 1 (str "A") (str "[[Old]] #old")] in
  let d' := snd (upsertNote true CharClass.is_word (fun _ => []) (str "now") []
                            (Some 1%Z) (JString (str "A"))
                            (JString (str "See [[Beta]] and #project/x")) d) in
  link_targets 1 d' = [str "Beta"] /\ tag_names 1 d' = [str "project/x"].
Proof.
  cbv zeta.
  destruct (upsert_rebuilds_derived_rows
              true CharClass.is_word (fun _ => []) (str "now") []
              (Some 1%Z) (JString (str "A"))
              (JString (str "See [[Beta]] and #project/x"))
              (Db [Note 1 (str "A") (str "[[Old]] #old") [] []]
                  [Link 1 (str "Old")] [Tag 1 (str "old")]
                  [Doc 1 (str "A") (str "[[Old]] #old")])
              (Note 1 (str "A") (str "See [[Beta]] and #project/x") []
                    (str "now"))
              _ eq_refl)
    as (s & Hc & _ & Hl & Ht & _).
  injection Hc as <-. split; [exact Hl | exact Ht].
Defined.

(** C1 as stated fails for a content with unpaired surrogates: the two
    targets U+D800 and U+D801 are stored as two equal rows U+FFFD, so
    an extracted entry has no row and a row is there twice. *)
Lemma unpaired_surrogates_give_equal_rows :
  let c := [91; 91; 0xD800; 93; 93; 32; 91; 91; 0xD801; 93; 93]%N in
  let r := post_notes false (fun _ => false) (fun _ => [])
                      (str "2024-01-01 00:00:00") (str "2024-01-01 00:00:00")
                      (JString (str "x")) (JString c) empty_db in
  status (fst r) = 201%Z
  /\ extractLinks c = [[0xD800%N]; [0xD801%N]]
  /\ link_targets 1 (snd r) = [[0xFFFD%N]; [0xFFFD%N]]
  /\ ~ In [0xD800%N] (link_targets 1 (snd r))
  /\ ~ NoDup (link_targets 1 (snd r)).
Proof.
  cbv zeta. split; [reflexivity|]. split; [reflexivity|].
  split; [reflexivity|]. split.
  - intros [H|[H|[]]]; discriminate H.
  - intros H. inversion H as [|x l Hnotin _]; subst.
    apply Hnotin. now left.
Qed.

(** ** The derived rows of every note *)

Lemma link_targets_replaced k j ls ts d :
  link_targets k (rows_replaced j ls ts d)
  = if (k =? j)%Z then ls else link_targets k d.
Proof.
  unfold link_targets, rows_replaced. cbn [links].
  destruct (k =? j)%Z eqn:E.
  - apply Z.eqb_eq in E. subst k. now apply filter_rebuilt.
  - rewrite filter_app, map_app.
    assert (E1 : filter (fun l => (source_id l =? k)%Z) (map (Link j) ls) = []).
    { induction ls as [|x ls IH]; simpl; [reflexivity|].
      rewrite Z.eqb_sym, E. exact IH. }
    rewrite E1, app_nil_r. f_equal.
    induction (links d) as [|l rows IH]; simpl; [reflexivity|].
    destruct (source_id l =? j)%Z eqn:Ej; simpl.
    + apply Z.eqb_eq in Ej. rewrite Ej, Z.eqb_sym, E. exact IH.
    + destruct (source_id l =? k)%Z; now rewrite IH.
Qed.

Lemma tag_names_replaced k j ls ts d :
  tag_names k (rows_replaced j ls ts d)
  = if (k =? j)%Z then ts else tag_names k d.
Proof.
  unfold tag_names, rows_replaced. cbn [tags].
  destruct (k =? j)%Z eqn:E.
  - apply Z.eqb_eq in E. subst k. now apply filter_rebuilt.
  - rewrite filter_app, map_app.
    assert (E1 : filter (fun r => (note_id r =? k)%Z) (map (Tag j) ts) = []).
    { induction ts as [|x ts IH]; simpl; [reflexivity|].
      rewrite Z.eqb_sym, E. exact IH. }
    rewrite E1, app_nil_r. f_equal.
    induction (tags d) as [|l rows IH]; simpl; [reflexivity|].
    destruct (note_id l =? j)%Z eqn:Ej; simpl.
    + apply Z.eqb_eq in Ej. rewrite Ej, Z.eqb_sym, E. exact IH.
    + destruct (note_id l =? k)%Z; now rewrite IH.
Qed.

(** After the first statement the Link and Tag tables are as before,
    and a note is either a note of the database before, of another id,
    or a row of the id written, holding the content bound. *)
Lemma note_statement_notes et now created i t c d j d1 n :
  note_statement_ran et now created i t c d j d1 ->
  In n (notes d1) ->
  links d1 = links d /\ tags d1 = tags d
  /\ ((id n <> j /\ In n (notes d))
      \/ (id n = j
          /\ columns et t c = Some (Some (title n), Some (content n)))).
Proof.
  intros H Hn. apply note_statement_effect in H.
  destruct H as [(_ & Hno & ->)|[(vt & vc & _ & Hc & _ & _ & ->)
                                |(vt & vc & Hc & _ & Hj & ->)]].
  - split; [reflexivity|]. split; [reflexivity|]. left.
    split; [|exact Hn]. intros E.
    assert (existsb (has_id j) (notes d) = true); [|congruence].
    apply existsb_has_id_in. rewrite <- E. now apply in_map.
  - cbn [notes links tags] in *.
    split; [reflexivity|]. split; [reflexivity|].
    apply in_map_iff in Hn. destruct Hn as (m & <- & Hm).
    destruct (has_id j m) eqn:Ej; unfold has_id in Ej.
    + apply Z.eqb_eq in Ej. right. now split.
    + apply Z.eqb_neq in Ej. left. now split.
  - cbn [notes links tags] in *.
    split; [reflexivity|]. split; [reflexivity|].
    apply in_app_iff in Hn. destruct Hn as [Hn|[<-|[]]].
    + left. split; [|exact Hn]. apply next_rowid_fresh in Hn. lia.
    + right. now split.
Qed.

Lemma columns_no_content et t c p :
  match c with
  | JUndefined | JNull | JBool _ => True
  | _ => False
  end ->
  columns et t c = Some p -> snd p = None.
Proof.
  unfold columns. destruct c as [| |bc|nc|sc|vc|]; try contradiction;
    intros _;
    destruct t as [| |bt|nt|st|[|t1 [|t2 [|t3 vt]]]|];
    run_binder; intros H; try discriminate H;
    try (inversion H; reflexivity);
    repeat match type of H with
           | context [fold_right ?f ?a ?l] =>
               destruct (fold_right f a l); cbn in H
           end; discriminate H.
Qed.

Lemma upsertNote_keeps_derived fk ul et now created i t c d r d' :
  upsertNote fk ul et now created i t c d = (r, d') ->
  text_content c ->
  derived_synced ul d -> derived_synced ul d'.
Proof.
  intros H Htext Hd. apply upsertNote_outcome in H.
  destruct H as [[-> _]|(j & d1 & ls & ts & Hran & -> & Hrows)];
    [exact Hd|].
  intros n Hn. cbn [rows_replaced notes] in Hn.
  rewrite link_targets_replaced, tag_names_replaced.
  destruct (note_statement_notes _ _ _ _ _ _ _ _ _ _ Hran Hn)
    as (El & Et & [[Hne Hold]|[He Hb]]).
  - apply Z.eqb_neq in Hne. rewrite Hne.
    unfold link_targets, tag_names. rewrite El, Et. now apply Hd.
  - subst j. rewrite Z.eqb_refl.
    destruct Hrows as [(s & -> & -> & -> & _ & _)
                      |(-> & -> & _ & [Hns|(_ & Hab)])].
    + apply columns_string_content in Hb. cbn [snd] in Hb.
      injection Hb as E. cbn [text_content] in Htext.
      rewrite E, (utf8_text_well_formed Htext).
      now rewrite (link_targets_stored s Htext), (tags_stored ul s Htext).
    + destruct c as [| |b|k|s|vs|]; try contradiction;
        try (apply columns_no_content in Hb; [discriminate Hb | exact I]).
      now elim (Hns s).
    + assert (existsb (has_id (id n)) (notes d1) = true); [|congruence].
      apply existsb_has_id_in. now apply in_map.
Qed.

(** X4. The rows of every note stay those of its content under writes
    of text: from a database where the Link rows of each note are
    [extractLinks] of its content and its Tag rows [extractTags] of it,
    a create or update whose content is well-formed text, or none,
    leaves such a database whether it succeeds or fails, and so does
    every delete. *)
Theorem routes_keep_derived_rows_synced fk ul et now created i t c d :
  derived_synced ul d ->
  (text_content c ->
   derived_synced ul (snd (post_notes fk ul et now created t c d))
   /\ derived_synced ul (snd (put_note fk ul et now created i t c d)))
  /\ derived_synced ul (snd (delete_note fk i d)).
Proof.
  intros Hd. split; [intros Htext; split|].
  - unfold post_notes.
    assert (Htext' : text_content
                       match c with JUndefined => JString [] | _ => c end).
    { destruct c; try exact Htext. split; constructor. }
    destruct (upsertNote _ _ _ _ _ _ _ _ _) as [[n|e] d'] eqn:E;
      simpl; eapply upsertNote_keeps_derived; eauto.
  - unfold put_note. destruct i as [z|]; [|exact Hd].
    destruct (upsertNote _ _ _ _ _ _ _ _ _) as [[n|e] d'] eqn:E;
      simpl; eapply upsertNote_keeps_derived; eauto.
  - destruct i as [z|]; [|exact Hd]. rewrite delete_note_runs.
    intros n Hn. cbn [snd notes] in Hn. apply filter_In in Hn.
    destruct Hn as [Hn Hz]. apply negb_true_iff in Hz.
    unfold has_id in Hz. destruct (Hd n Hn) as [El Et].
    rewrite <- El, <- Et. unfold link_targets, tag_names. cbn [snd links tags].
    split; f_equal.
    + induction (links d) as [|l rows IH]; simpl; [reflexivity|].
      destruct (source_id l =? z)%Z eqn:E1; simpl.
      * apply Z.eqb_eq in E1. rewrite E1, Z.eqb_sym, Hz. exact IH.
      * destruct (source_id l =? id n)%Z; now rewrite IH.
    + induction (tags d) as [|l rows IH]; simpl; [reflexivity|].
      destruct (note_id l =? z)%Z eqn:E1; simpl.
      * apply Z.eqb_eq in E1. rewrite E1, Z.eqb_sym, Hz. exact IH.
      * destruct (note_id l =? id n)%Z; now rewrite IH.
Qed.

(** ** Foreign keys *)

Lemma note_statement_keeps_ids et now created i t c d j d1 k :
  note_statement_ran et now created i t c d j d1 ->
  existsb (has_id k) (notes d) = true ->
  existsb (has_id k) (notes d1) = true.
Proof.
  intros H Hk. apply note_statement_effect in H.
  destruct H as [(_ & _ & ->)|[(vt & vc & _ & _ & _ & _ & ->)
                              |(vt & vc & _ & _ & _ & ->)]].
  - exact Hk.
  - cbn [notes]. now rewrite existsb_has_id_map.
  - cbn [notes]. rewrite existsb_app, Hk. reflexivity.
Qed.

Lemma upsertNote_keeps_no_orphans ul et now created i t c d r d' :
  upsertNote true ul et now created i t c d = (r, d') ->
  no_orphans d -> no_orphans d'.
Proof.
  intros H [Hl Ht]. apply upsertNote_outcome in H.
  destruct H as [[-> _]|(j & d1 & ls & ts & Hran & -> & Hrows)];
    [now split|].
  assert (Hnew : (ls = [] /\ ts = [])
                 \/ existsb (has_id j) (notes d1) = true).
  { destruct Hrows as [(s & _ & _ & _ & _ & Hfk)|(-> & -> & _)];
      [now apply Hfk | now left]. }
  assert (Hlinks : links d1 = links d /\ tags d1 = tags d).
  { pose proof Hran as H. apply note_statement_effect in H.
    destruct H as [(_ & _ & ->)|[(vt & vc & _ & _ & _ & _ & ->)
                                |(vt & vc & _ & _ & _ & ->)]];
      now split. }
  destruct Hlinks as [El Et].
  split; cbn [rows_replaced notes links tags].
  - intros l Hin. apply in_app_iff in Hin. destruct Hin as [Hin|Hin].
    + apply filter_In in Hin. destruct Hin as [Hin _]. rewrite El in Hin.
      eapply note_statement_keeps_ids; [exact Hran | now apply Hl].
    + apply in_map_iff in Hin. destruct Hin as (x & <- & Hx).
      destruct Hnew as [[-> _]|Hj]; [destruct Hx | exact Hj].
  - intros l Hin. apply in_app_iff in Hin. destruct Hin as [Hin|Hin].
    + apply filter_In in Hin. destruct Hin as [Hin _]. rewrite Et in Hin.
      eapply note_statement_keeps_ids; [exact Hran | now apply Ht].
    + apply in_map_iff in Hin. destruct Hin as (x & <- & Hx).
      destruct Hnew as [[_ ->]|Hj]; [destruct Hx | exact Hj].
Qed.

(** X5. With foreign keys enforced no route makes an orphan: from a
    database where every Link and Tag row belongs to a note, each write
    and delete route leaves such a database, whether the request
    succeeds or fails. *)
Theorem enforced_foreign_keys_keep_rows_owned ul et now created i t c d :
  no_orphans d ->
  no_orphans (snd (post_notes true ul et now created t c d))
  /\ no_orphans (snd (put_note true ul et now created i t c d))
  /\ no_orphans (snd (delete_note true i d)).
Proof.
  intros Hd. split; [|split].
  - unfold post_notes.
    destruct (upsertNote _ _ _ _ _ _ _ _ _) as [[n|e] d'] eqn:E;
      simpl; eapply upsertNote_keeps_no_orphans; eauto.
  - unfold put_note. destruct i as [z|]; [|exact Hd].
    destruct (upsertNote _ _ _ _ _ _ _ _ _) as [[n|e] d'] eqn:E;
      simpl; eapply upsertNote_keeps_no_orphans; eauto.
  - destruct i as [z|]; [|exact Hd]. rewrite delete_note_runs.
    destruct Hd as [Hl Ht].
    assert (G : forall k, (k =? z)%Z = false ->
                          existsb (has_id k) (notes d) = true ->
                          existsb (has_id k)
                                  (filter (fun n => negb (has_id z n))
                                          (notes d)) = true).
    { intros k Hk E. apply existsb_exists in E. destruct E as (n & Hn & E).
      apply existsb_exists. exists n. split; [|exact E].
      apply filter_In. split; [exact Hn|]. apply negb_true_iff.
      unfold has_id in *. apply Z.eqb_eq in E. now rewrite E. }
    split; cbn [snd notes links tags]; intros l Hin;
      apply filter_In in Hin; destruct Hin as [Hin Hz];
      apply negb_true_iff in Hz; apply G; auto.
Qed.

Lemma rows_deleted_absent j d :
  no_orphans d -> existsb (has_id j) (notes d) = false ->
  rows_deleted j d = d.
Proof.
  intros [Hl Ht] Hj. unfold rows_deleted. destruct d as [ns ls ts fts].
  cbn [notes links tags notes_fts] in *. f_equal.
  - apply filter_absent. destruct (existsb _ ls) eqn:E; [|reflexivity].
    apply existsb_exists in E. destruct E as (l & Hin & E).
    apply Z.eqb_eq in E. specialize (Hl l Hin). rewrite E in Hl. congruence.
  - apply filter_absent. destruct (existsb _ ts) eqn:E; [|reflexivity].
    apply existsb_exists in E. destruct E as (l & Hin & E).
    apply Z.eqb_eq in E. specialize (Ht l Hin). rewrite E in Ht. congruence.
Qed.

(** X6. A create or update whose content is a string (or, for a
    create, is missing) and which fails has changed nothing, provided
    foreign keys are not enforced or the database has no orphan rows:
    the notes, the Link and Tag rows and the search index are as they
    were. *)
Theorem failed_text_write_changes_nothing fk ul et now created i t s e d d' :
  fk = false \/ no_orphans d ->
  (post_notes fk ul et now created t (JString s) d
   = (Response 400 (JsonError e), d') -> d' = d)
  /\ (post_notes fk ul et now created t JUndefined d
      = (Response 400 (JsonError e), d') -> d' = d)
  /\ (put_note fk ul et now created i t (JString s) d
      = (Response 400 (JsonError e), d') -> d' = d).
Proof.
  intros Hd.
  assert (G : forall i s e d',
             upsertNote fk ul et now created i t (JString s) d = (Throw e, d') ->
             d' = d).
  { intros i0 s0 e0 d0 H. apply failed_write_of_text in H.
    destruct H as [->|(Hfk & j & _ & Hj & ->)]; [reflexivity|].
    destruct Hd as [Hd|Hd]; [congruence|].
    now apply rows_deleted_absent. }
  split; [|split]; intros H.
  - unfold post_notes in H.
    destruct (upsertNote _ _ _ _ _ _ _ _ _) as [[n|e0] d0] eqn:E;
      inversion H; subst. now apply G in E.
  - unfold post_notes in H.
    destruct (upsertNote _ _ _ _ _ _ _ _ _) as [[n|e0] d0] eqn:E;
      inversion H; subst. now apply G in E.
  - unfold put_note in H. destruct i as [z|]; [|inversion H].
    destruct (upsertNote _ _ _ _ _ _ _ _ _) as [[n|e0] d0] eqn:E;
      inversion H; subst. now apply G in E.
Qed.

(** ** Reading back what was written *)

Lemma upsertNote_returned_row fk ul et now created i t c d n d' :
  upsertNote fk ul et now created i t c d = (Ok (Some n), d') ->
  find (has_id (id n)) (notes d') = Some n.
Proof.
  intros H. apply upsertNote_returns in H.
  destruct H as (j & s & d1 & _ & _ & -> & Hr). cbn [notes].
  symmetry in Hr. destruct (find_has_id _ _ Hr) as [-> _]. exact Hr.
Qed.

(** X9. A note answered by a create or an update is the note a GET of
    its id answers next.  Its content is the string sent (the empty
    string when a create sent none) as it is stored: [utf8_text] of it,
    which is the string itself when it is well-formed.  A title sent as
    a string is read back in the same way, and a title sent as a number
    is read back as the text of that number. *)
Theorem written_note_is_read_back fk ul et now created i t c d n d' :
  post_notes fk ul et now created t c d = (Response 201 (JsonNote (Some n)), d')
  \/ put_note fk ul et now created i t c d
     = (Response 200 (JsonNote (Some n)), d') ->
  get_note (Some (id n)) d' = Json n
  /\ (exists s,
        (c = JString s \/ (c = JUndefined /\ s = []))
        /\ content n = utf8_text s
        /\ (well_formed s -> content n = s))
  /\ (forall s, t = JString s ->
                title n = utf8_text s /\ (well_formed s -> title n = s))
  /\ (forall k, t = JNumber k -> title n = real_text et k).
Proof.
  assert (G : forall i c,
             upsertNote fk ul et now created i t c d = (Ok (Some n), d') ->
             get_note (Some (id n)) d' = Json n
             /\ (exists s, c = JString s /\ content n = utf8_text s
                           /\ (well_formed s -> content n = s))
             /\ (forall s, t = JString s ->
                           title n = utf8_text s
                           /\ (well_formed s -> title n = s))
             /\ (forall k, t = JNumber k -> title n = real_text et k)).
  { intros i0 c0 H.
    pose proof (returned_row_columns _ _ _ _ _ _ _ _ _ _ _ H) as Hb.
    split.
    - unfold get_note.
      now rewrite (upsertNote_returned_row _ _ _ _ _ _ _ _ _ _ _ H).
    - apply upsertNote_returns in H.
      destruct H as (j & s & d1 & -> & _).
      split; [|split].
      + exists s. split; [reflexivity|].
        apply columns_string_content in Hb. cbn [snd] in Hb.
        injection Hb as Hb. split; [exact Hb|].
        intros Hwf. now rewrite Hb, (utf8_text_well_formed Hwf).
      + intros st ->. apply columns_string_title in Hb. cbn [fst] in Hb.
        injection Hb as Hb. split; [exact Hb|].
        intros Hwf. now rewrite Hb, (utf8_text_well_formed Hwf).
      + intros k ->. apply columns_number_title in Hb. cbn [fst] in Hb.
        now injection Hb as Hb. }
  intros [H|H].
  - unfold post_notes in H.
    destruct (upsertNote _ _ _ _ _ _ _ _ _) as [[r|e] d0] eqn:E;
      inversion H; subst.
    apply G in E. destruct E as (Hg & (s & Hc & Hs) & Ht).
    split; [exact Hg|]. split; [|exact Ht].
    exists s. split; [|exact Hs].
    destruct c as [| |b|k|s0|vs|]; try discriminate Hc.
    + right. split; [reflexivity|]. now inversion Hc.
    + left. exact Hc.
  - unfold put_note in H. destruct i as [z|]; [|discriminate H].
    destruct (upsertNote _ _ _ _ _ _ _ _ _) as [[r|e] d0] eqn:E;
      inversion H; subst.
    apply G in E. destruct E as (Hg & (s & Hc & Hs) & Ht).
    split; [exact Hg|]. split; [|exact Ht].
    exists s. split; [now left | exact Hs].
Qed.

(** X10. After a delete of an id, a GET of that id and of its backlinks
    answer 404, whatever the database was. *)
Theorem deleted_note_is_not_found fk z d :
  get_note (Some z) (snd (delete_note fk (Some z) d)) = NotFound
  /\ get_backlinks (Some z) (snd (delete_note fk (Some z) d)) = NotFound.
Proof.
  rewrite delete_note_runs. cbn [snd].
  assert (E : get_note (Some z)
                (Db (filter (fun n => negb (has_id z n)) (notes d))
                    (filter (fun l => negb (source_id l =? z)%Z) (links d))
                    (filter (fun r => negb (note_id r =? z)%Z) (tags d))
                    (if existsb (has_id z) (notes d)
                     then fts_delete z (notes_fts d) else notes_fts d))
              = NotFound).
  { unfold get_note. cbn [notes].
    destruct (find (has_id z) (filter _ (notes d))) as [n|] eqn:F;
      [|reflexivity].
    apply find_some in F. destruct F as [F1 F2].
    apply filter_In in F1. destruct F1 as [_ F1]. now rewrite F2 in F1. }
  split; [exact E|]. unfold get_backlinks. now rewrite E.
Qed.

(** ** Backlinks and the graph *)

Lemma insert_desc_in n x sorted :
  In x (insert_desc n sorted) <-> x = n \/ In x sorted.
Proof.
  induction sorted as [|m sorted IH]; simpl.
  - intuition.
  - destruct (text_ltb (updated_at m) (updated_at n)); simpl.
    + intuition.
    + rewrite IH. intuition.
Qed.

Lemma order_by_updated_desc_in x ns :
  In x (order_by_updated_desc ns) <-> In x ns.
Proof.
  unfold order_by_updated_desc.
  assert (G : forall acc, In x (fold_left (fun sorted n => insert_desc n sorted)
                                          ns acc)
                          <-> In x ns \/ In x acc).
  { induction ns as [|m ns IH]; intros acc; simpl.
    - intuition.
    - rewrite IH, insert_desc_in. intuition. }
  rewrite G. simpl. intuition.
Qed.


Lemma in_link_targets t k d :
  In t (link_targets k d)
  <-> exists l, In l (links d) /\ source_id l = k /\ target_title l = t.
Proof.
  unfold link_targets. rewrite in_map_iff. split.
  - intros (l & Et & Hl). apply filter_In in Hl. destruct Hl as [Hl E].
    apply Z.eqb_eq in E. now exists l.
  - intros (l & Hl & Es & Et). exists l. split; [exact Et|].
    apply filter_In. split; [exact Hl|]. now apply Z.eqb_eq.
Qed.

(** X11. On a reachable database the backlinks of a note are the notes
    whose content links to its title: the route answers rows, every row
    is the id and title of a note, and a note is among them exactly
    when [extractLinks] of its content contains the title. *)
Theorem backlinks_are_the_linking_notes ul d b :
  consistent d -> derived_synced ul d ->
  In b (notes d) ->
  exists rows,
    get_backlinks (Some (id b)) d = Json rows
    /\ (forall r, In r rows ->
                  exists a, In a (notes d) /\ r = Ref (id a) (title a))
    /\ (forall a, In a (notes d) ->
                  (In (Ref (id a) (title a)) rows
                   <-> In (title b) (extractLinks (content a)))).
Proof.
  intros [Hnd _] Hd Hb.
  exists (select_backlinks (title b) d).
  split.
  { unfold get_backlinks, get_note.
    now rewrite (@find_by_id_unique (id b) (notes d) b Hnd Hb eq_refl). }
  assert (Hjoin : forall n,
             In n (flat_map
                     (fun l =>
                        if jsstring_eq_dec (target_title l) (title b)
                        then filter (has_id (source_id l)) (notes d)
                        else [])
                     (links d))
             <-> In n (notes d) /\ In (title b) (link_targets (id n) d)).
  { intros n. rewrite in_flat_map, in_link_targets. split.
    - intros (l & Hl & Hn).
      destruct (jsstring_eq_dec (target_title l) (title b)) as [Et|];
        [|destruct Hn].
      apply filter_In in Hn. destruct Hn as [Hn E].
      unfold has_id in E. apply Z.eqb_eq in E.
      split; [exact Hn|]. exists l. now repeat split.
    - intros (Hn & l & Hl & Es & Et). exists l. split; [exact Hl|].
      destruct (jsstring_eq_dec (target_title l) (title b)); [|contradiction].
      apply filter_In. split; [exact Hn|]. unfold has_id. now apply Z.eqb_eq. }
  split.
  - intros r Hr. unfold select_backlinks in Hr. apply in_map_iff in Hr.
    destruct Hr as (n & <- & Hn). apply -> order_by_updated_desc_in in Hn.
    apply -> Hjoin in Hn. exists n. now split.
  - intros a Ha. destruct (Hd a Ha) as [El _]. rewrite <- El.
    unfold select_backlinks. rewrite in_map_iff. split.
    + intros (n & En & Hn). apply -> order_by_updated_desc_in in Hn.
      apply -> Hjoin in Hn. destruct Hn as [Hn Ht].
      injection En as Eid Etitle. now rewrite <- Eid.
    + intros Ht. exists a. split; [reflexivity|].
      apply <- order_by_updated_desc_in. apply <- Hjoin. now split.
Qed.


(** ** Search and retrieval *)

Lemma trim_start_blank s :
  Forall (fun c => CharClass.is_space c = true) s -> trim_start s = [].
Proof.
  induction 1 as [|c s Hc Hs IH]; simpl; [reflexivity|]. now rewrite Hc.
Qed.

Lemma trim_blank s :
  Forall (fun c => CharClass.is_space c = true) s -> trim s = [].
Proof.
  intros H. unfold trim, trim_end. now rewrite (trim_start_blank s H).
Qed.

Lemma in_firstn {A} (k : nat) (l : list A) x : In x (firstn k l) -> In x l.
Proof.
  revert l. induction k as [|k IH]; intros l; simpl; [intros []|].
  destruct l as [|y l]; simpl; [intros []|].
  intros [->|H]; [now left | right; now apply IH].
Qed.

Lemma joined_rows_are_notes {A} (f : note -> A) (rowids : list Z) d x :
  In x (map f (flat_map (fun r => filter (has_id r) (notes d)) rowids)) ->
  exists n, In n (notes d) /\ x = f n.
Proof.
  intros H. apply in_map_iff in H. destruct H as (n & <- & Hn).
  apply in_flat_map in Hn. destruct Hn as (r & _ & Hn).
  apply filter_In in Hn. exists n. now split.
Qed.

(** X14. The search route answers the empty list for a missing, empty or
    blank query without consulting the index; for any other query it
    lets a malformed-query error of the index out of the handler, and
    otherwise answers at most 50 rows, each the id and title of a note
    of the database. *)
Theorem search_route_behaviour fm snip q d :
  (Forall (fun c => CharClass.is_space c = true)
          (match q with Some s => s | None => [] end) ->
   get_search fm snip q d = Json [])
  /\ (forall s, q = Some s -> trim s <> [] ->
                fm (trim s) (notes_fts d) = None ->
                get_search fm snip q d = Uncaught (SqliteError SQLITE_ERROR))
  /\ (forall rows,
        get_search fm snip q d = Json rows ->
        (length rows <= 50)%nat
        /\ forall r, In r rows ->
                     exists n, In n (notes d)
                               /\ s_id r = id n /\ s_title r = title n).
Proof.
  split; [|split].
  - intros H. unfold get_search. cbv zeta.
    destruct q as [s|]; [now rewrite (trim_blank s H) | reflexivity].
  - intros s -> Hs Hfm. unfold get_search. cbv zeta.
    destruct (trim s) as [|c0 s0] eqn:E; [now elim Hs|]. now rewrite Hfm.
  - intros rows H. unfold get_search in H. cbv zeta in H.
    destruct q as [s|].
    2:{ injection H as <-. split; [simpl; lia | intros r []]. }
    destruct (trim s) as [|c0 s0] eqn:E.
    + injection H as <-. split; [simpl; lia | intros r []].
    + destruct (fm (c0 :: s0) (notes_fts d)) as [rowids|]; [|discriminate H].
      match type of H with
      | Json ?X = Json _ => assert (Hrows : rows = X) by congruence
      end.
      subst rows. clear H. split.
      * rewrite length_firstn. lia.
      * intros r Hr. apply in_firstn in Hr.
        apply joined_rows_are_notes in Hr. destruct Hr as (n & Hn & ->).
        exists n. now repeat split.
Qed.

Lemma first_occurrences_length seen rows :
  (length (first_occurrences seen rows) <= length rows)%nat.
Proof.
  revert seen. induction rows as [|r rows IH]; intros seen; simpl; [lia|].
  destruct (existsb (Z.eqb (c_id r)) seen); simpl.
  - specialize (IH seen). lia.
  - specialize (IH (seen ++ [c_id r])). lia.
Qed.

Lemma first_occurrences_in seen rows x :
  In x (first_occurrences seen rows) -> In x rows.
Proof.
  revert seen. induction rows as [|r rows IH]; intros seen; simpl; [auto|].
  destruct (existsb (Z.eqb (c_id r)) seen); simpl.
  - intros H. right. now apply (IH seen).
  - intros [->|H]; [now left|]. right. now apply (IH (seen ++ [c_id r])).
Qed.

Lemma sql_limit_length {A} (k : Z) (rows : list A) :
  (0 <= k)%Z -> (length (sql_limit k rows) <= Z.to_nat k)%nat.
Proof.
  intros Hk. unfold sql_limit.
  destruct (k <? 0)%Z eqn:E; [apply Z.ltb_lt in E; lia|].
  rewrite length_firstn. lia.
Qed.

Lemma sql_limit_in {A} (k : Z) (rows : list A) x :
  In x (sql_limit k rows) -> In x rows.
Proof.
  unfold sql_limit. destruct (k <? 0)%Z; [auto | apply in_firstn].
Qed.

(** The rows of either query are rows of notes, at most [k] of them
    for a [k] that is not negative. *)
Lemma select_match_rows fm q k d rows :
  select_match fm q k d = Ok rows ->
  (forall x, In x rows ->
             exists n, In n (notes d) /\ c_id x = id n /\ c_title x = title n)
  /\ ((0 <= k)%Z -> (length rows <= Z.to_nat k)%nat).
Proof.
  unfold select_match. intros H.
  destruct (negb (limit_ok k)); [discriminate H|].
  destruct (k =? 0)%Z.
  { inversion H; subst rows. split; [intros x []|]. simpl. lia. }
  destruct (fm q (notes_fts d)) as [rowids|]; [|discriminate H].
  inversion H; subst rows; clear H. split.
  - intros x Hx. apply sql_limit_in in Hx.
    apply joined_rows_are_notes in Hx. destruct Hx as (n & Hn & ->).
    exists n. now repeat split.
  - apply sql_limit_length.
Qed.

Lemma select_like_rows pattern k d rows :
  select_like pattern k d = Ok rows ->
  (forall x, In x rows ->
             exists n, In n (notes d) /\ c_id x = id n /\ c_title x = title n)
  /\ ((0 <= k)%Z -> (length rows <= Z.to_nat k)%nat).
Proof.
  unfold select_like. intros H.
  assert (Hsub : forall n,
             In n (filter (fun n => sql_like (utf8_text pattern) (title n))
                          (notes d)) ->
             In n (notes d)).
  { intros n Hn. apply filter_In in Hn. now destruct Hn. }
  destruct (negb (limit_ok k)); [discriminate H|].
  destruct (k =? 0)%Z.
  { inversion H; subst rows. split; [intros x []|]. simpl. lia. }
  destruct (notes d) as [|n0 ns].
  { inversion H; subst rows. split; [intros x []|]. simpl. lia. }
  destruct (like_pattern_limit <? utf8_length pattern)%N; [discriminate H|].
  injection H as <-. split.
  - intros x Hx. apply sql_limit_in in Hx.
    apply in_map_iff in Hx. destruct Hx as (n & <- & Hn).
    exists n. split; [exact (Hsub n Hn) | now split].
  - apply sql_limit_length.
Qed.

(** X15. Whatever the request, a context the retrieval step hands to the
    generation call lists no note id twice, every entry carries the id
    and title of a note of the database, and its size is bounded: at
    most 51 entries with [includeAll], at most [topK] rows plus the
    anchor otherwise (for a non-negative [topK], 5 by default).  A
    missing or blank prompt is refused before any query. *)
Theorem context_is_bounded_and_from_notes
        fm prompt noteId topK (includeAll : bool) d :
  ((prompt = None
    \/ exists p, prompt = Some p
                 /\ Forall (fun c => CharClass.is_space c = true) p) ->
   chat_retrieve fm prompt noteId topK includeAll d = PromptRequired)
  /\ (forall ns,
        chat_retrieve fm prompt noteId topK includeAll d = ContextNotes ns ->
        NoDup (map c_id ns)
        /\ (forall x, In x ns ->
                      exists n, In n (notes d)
                                /\ c_id x = id n /\ c_title x = title n)
        /\ (if includeAll then (length ns <= 51)%nat
            else
              let k := match topK with Some k => k | None => 5%Z end in
              (0 <= k)%Z -> (length ns <= 1 + Z.to_nat k)%nat)).
Proof.
  split.
  - intros [->|(p & -> & Hp)]; [reflexivity|].
    unfold chat_retrieve. destruct p as [|c0 p0]; [reflexivity|].
    now rewrite (trim_blank _ Hp).
  - intros ns H. unfold chat_retrieve in H.
    destruct prompt as [p|]; [|discriminate H].
    destruct p as [|c0 p0]; [discriminate H|].
    destruct (trim (c0 :: p0)) as [|c1 t1]; [discriminate H|].
    set (k := match topK with Some k => k | None => 5%Z end) in *.
    set (st := match noteId with
               | Some i => if negb (i =? 0)%Z
                           then pushNote ([], []) (select_anchor i d)
                           else ([], [])
               | None => ([], [])
               end) in *.
    assert (Hst : chat_state_ok st
                  /\ (length (snd st) <= 1)%nat
                  /\ forall x, In x (snd st) ->
                               exists n, In n (notes d)
                                         /\ c_id x = id n
                                         /\ c_title x = title n).
    { assert (H0 : chat_state_ok ([], [])) by (split; [reflexivity|constructor]).
      unfold st. destruct noteId as [i|].
      2:{ split; [exact H0|]. split; [simpl; lia | intros x []]. }
      destruct (negb (i =? 0)%Z).
      2:{ split; [exact H0|]. split; [simpl; lia | intros x []]. }
      split; [now apply pushNote_ok|].
      unfold select_anchor.
      destruct (find (has_id i) (notes d)) as [n|] eqn:F; simpl.
      - split; [lia|]. intros x [<-|[]]. apply find_some in F.
        exists n. now repeat split.
      - split; [lia | intros x []]. }
    destruct Hst as (Hok & Hlen & Hmem).
    assert (G : forall rows,
               (forall x, In x rows ->
                          exists n, In n (notes d)
                                    /\ c_id x = id n /\ c_title x = title n) ->
               NoDup (map c_id (snd (forEach_pushNote rows st)))
               /\ (forall x, In x (snd (forEach_pushNote rows st)) ->
                             exists n, In n (notes d)
                                       /\ c_id x = id n
                                       /\ c_title x = title n)
               /\ (length (snd (forEach_pushNote rows st))
                   <= 1 + length rows)%nat).
    { intros rows Hrows.
      pose proof (@forEach_pushNote_ok rows st Hok) as [Hm Hn].
      split; [now rewrite <- Hm|].
      rewrite forEach_pushNote_first_occurrences. cbn [snd]. split.
      - intros x Hx. apply in_app_iff in Hx. destruct Hx as [Hx|Hx].
        + now apply Hmem.
        + apply Hrows. eapply first_occurrences_in. exact Hx.
      - rewrite length_app.
        pose proof (first_occurrences_length (fst st) rows). lia. }
    assert (Hproj : forall f rows x,
               (forall n, c_id (f n) = id n /\ c_title (f n) = title n) ->
               (forall n, In n rows -> In n (notes d)) ->
               In x (map f rows) ->
               exists n, In n (notes d) /\ c_id x = id n /\ c_title x = title n).
    { intros f rows x Hf Hsub Hx. apply in_map_iff in Hx.
      destruct Hx as (n & <- & Hn). exists n.
      split; [now apply Hsub | apply Hf]. }
    destruct includeAll.
    + inversion H; subst ns; clear H.
      destruct (G (select_recent d)) as (Hn & Hm & Hl).
      { intros x Hx. unfold select_recent in Hx.
        eapply Hproj; [| |exact Hx]; [now intros n|].
        intros n Hn. apply in_firstn in Hn.
        now apply -> order_by_updated_desc_in in Hn. }
      split; [exact Hn|]. split; [exact Hm|].
      assert (length (select_recent d) <= 50)%nat; [|lia].
      unfold select_recent. rewrite length_map, length_firstn. lia.
    + destruct (select_match fm (strip_quotes (c0 :: p0)) k d)
        as [rows|e] eqn:Em.
      * inversion H; subst ns; clear H.
        apply select_match_rows in Em. destruct Em as [Hrows Hk].
        destruct (G rows Hrows) as (Hn & Hm & Hl).
        split; [exact Hn|]. split; [exact Hm|].
        cbv zeta. fold k. intros Hk0. specialize (Hk Hk0). lia.
      * destruct (select_like (percent :: strip_quotes (c0 :: p0) ++ [percent])
                              k d) as [rows|e'] eqn:El; [|discriminate H].
        inversion H; subst ns; clear H.
        apply select_like_rows in El. destruct El as [Hrows Hk].
        destruct (G rows Hrows) as (Hn & Hm & Hl).
        split; [exact Hn|]. split; [exact Hm|].
        cbv zeta. fold k. intros Hk0. specialize (Hk Hk0). lia.
Qed.

(** ** Writing the same update twice *)

Lemma for_each_insert_link_allowed fk i ts d :
  ts = [] \/ fk && negb (existsb (has_id i) (notes d)) = false ->
  for_each ts (insert_link fk i) d
  = (Ok tt, Db (notes d) (links d ++ map (Link i) (map utf8_text ts)) (tags d)
               (notes_fts d)).
Proof.
  intros [->|H]; [|now apply for_each_insert_link_runs].
  simpl. unfold ret. rewrite app_nil_r. now destruct d.
Qed.

Lemma for_each_insert_tag_allowed fk i ts d :
  ts = [] \/ fk && negb (existsb (has_id i) (notes d)) = false ->
  for_each ts (insert_tag fk i) d
  = (Ok tt, Db (notes d) (links d) (tags d ++ map (Tag i) (map utf8_text ts))
               (notes_fts d)).
Proof.
  intros [->|H]; [|now apply for_each_insert_tag_runs].
  simpl. unfold ret. rewrite app_nil_r. now destruct d.
Qed.

(** An update whose first statement runs and whose rows may be
    inserted returns. *)
Lemma upsertNote_update_runs fk ul et now created z t s d d0 :
  (z =? 0)%Z = false ->
  update_note et t (JString s) now z d = (Ok tt, d0) ->
  (extractLinks s = [] /\ extractTags ul s = [])
  \/ fk && negb (existsb (has_id z) (notes d0)) = false ->
  upsertNote fk ul et now created (Some z) t (JString s) d
  = (Ok (find (has_id z) (notes d0)),
     rows_replaced z (map utf8_text (extractLinks s))
                   (map utf8_text (extractTags ul s)) d0).
Proof.
  intros Hz Hu Hrows. unfold upsertNote. cbn [truthy]. rewrite Hz.
  cbn [negb]. cbv iota.
  erewrite bind_step by (erewrite bind_step by exact Hu; reflexivity).
  erewrite bind_step by reflexivity.
  erewrite bind_step by reflexivity.
  erewrite bind_step by reflexivity.
  erewrite bind_step.
  2:{ unfold transaction. erewrite bind_step.
      2:{ apply for_each_insert_link_allowed. cbn [notes].
          destruct Hrows as [[-> _]|H]; [now left | now right]. }
      rewrite for_each_insert_tag_allowed.
      2:{ cbn [notes]. destruct Hrows as [[_ ->]|H]; [now left | now right]. }
      reflexivity. }
  reflexivity.
Qed.

Lemma update_note_runs t c et now j d vt vc :
  columns et t c = Some (Some vt, Some vc) ->
  existsb (has_id j) (notes d) = true ->
  existsb (fun n => negb (has_id j n) && has_title vt n) (notes d) = false ->
  update_note et t c now j d
  = (Ok tt,
     Db (map (fun n => if has_id j n then updated vt vc now n else n) (notes d))
        (links d) (tags d)
        (fold_left
           (fun docs n =>
              if has_id j n
              then fts_insert (updated vt vc now n) (fts_delete (id n) docs)
              else docs)
           (notes d) (notes_fts d))).
Proof.
  intros Hb Hex Hfree.
  destruct (@columns_update et t c now j _ Hb) as (xs & Hxs & Hp).
  unfold update_note. rewrite Hxs, Hex.
  injection Hp as Ht Hc. rewrite <- Ht, <- Hc. now rewrite Hfree.
Qed.

Lemma update_note_no_row t c et now j d d' :
  existsb (has_id j) (notes d) = false ->
  existsb (has_id j) (notes d') = false ->
  update_note et t c now j d = (Ok tt, d) ->
  update_note et t c now j d' = (Ok tt, d').
Proof.
  unfold update_note. intros H H'. rewrite H, H'.
  destruct (bind_parameters 4 [t; c; JString now; JNumber j]);
    try discriminate; reflexivity.
Qed.

Lemma filter_rows_twice {A} (key : A -> Z) (mk : Z -> jsstring -> A)
      (j : Z) (rows : list A) (xs : list jsstring) :
  (forall x, key (mk j x) = j) ->
  filter (fun a => negb (key a =? j)%Z)
         (filter (fun a => negb (key a =? j)%Z) rows ++ map (mk j) xs)
  = filter (fun a => negb (key a =? j)%Z) rows.
Proof.
  intros Hk. rewrite filter_app.
  assert (E : filter (fun a => negb (key a =? j)%Z) (map (mk j) xs) = []).
  { induction xs as [|x xs IH]; simpl; [reflexivity|].
    now rewrite Hk, Z.eqb_refl. }
  rewrite E, app_nil_r.
  induction rows as [|a rows IH]; simpl; [reflexivity|].
  destruct (negb (key a =? j)%Z) eqn:Ea; simpl; [|exact IH].
  now rewrite Ea, IH.
Qed.

Lemma rows_replaced_twice j ls ts d ns fts :
  rows_replaced j ls ts
    (Db ns (links (rows_replaced j ls ts d)) (tags (rows_replaced j ls ts d))
        fts)
  = Db ns (links (rows_replaced j ls ts d)) (tags (rows_replaced j ls ts d))
       fts.
Proof.
  unfold rows_replaced. cbn [notes links tags notes_fts].
  rewrite (filter_rows_twice source_id Link) by reflexivity.
  now rewrite (filter_rows_twice note_id Tag) by reflexivity.
Qed.

Lemma updated_twice j vt vc now ns :
  map (fun n => if has_id j n then updated vt vc now n else n)
      (map (fun n => if has_id j n then updated vt vc now n else n) ns)
  = map (fun n => if has_id j n then updated vt vc now n else n) ns.
Proof.
  rewrite map_map. apply map_ext. intros n.
  destruct (has_id j n) eqn:E; [|now rewrite E].
  unfold has_id at 1. cbn [updated id]. unfold has_id in E. now rewrite E.
Qed.

Lemma conflict_after_update j vt vc now ns :
  existsb (fun n => negb (has_id j n) && has_title vt n)
          (map (fun n => if has_id j n then updated vt vc now n else n) ns)
  = existsb (fun n => negb (has_id j n) && has_title vt n) ns.
Proof.
  induction ns as [|m ns IH]; simpl; [reflexivity|].
  rewrite IH. destruct (has_id j m) eqn:E; [|now rewrite E].
  unfold has_id at 1. cbn [updated id]. unfold has_id in E. now rewrite E.
Qed.

Lemma find_after_update j vt vc now ns :
  find (has_id j)
       (map (fun n => if has_id j n then updated vt vc now n else n) ns)
  = option_map (updated vt vc now) (find (has_id j) ns).
Proof.
  induction ns as [|m ns IH]; simpl; [reflexivity|].
  destruct (has_id j m) eqn:E.
  - unfold has_id at 1. cbn [updated id]. unfold has_id in E. now rewrite E.
  - now rewrite E.
Qed.

Lemma fts_delete_after_insert j n docs :
  id n = j ->
  fts_delete j (fts_insert n (fts_delete j docs)) = fts_delete j docs.
Proof.
  intros E. unfold fts_delete, fts_insert. rewrite filter_app. simpl.
  rewrite E, Z.eqb_refl. simpl. rewrite app_nil_r.
  induction docs as [|x docs IH]; simpl; [reflexivity|].
  destruct (negb (rowid x =? j)%Z) eqn:Ex; simpl; [|exact IH].
  now rewrite Ex, IH.
Qed.

(** X8. An update is idempotent: on a database whose notes have
    distinct ids, an update (of a non-zero id) that succeeded, sent
    again with the same clock reading, succeeds with the same answer and
    leaves the database exactly as the first one left it. *)
Theorem update_is_idempotent fk ul et now created z t c d r d1 :
  consistent d -> z <> 0%Z ->
  put_note fk ul et now created (Some z) t c d = (Response 200 (JsonNote r), d1) ->
  put_note fk ul et now created (Some z) t c d1
  = (Response 200 (JsonNote r), d1).
Proof.
  intros [Hnd _] Hz H. apply Z.eqb_neq in Hz. unfold put_note in H.
  destruct (upsertNote _ _ _ _ _ _ _ _ _) as [[r0|e] d'] eqn:E;
    inversion H; subst r0 d'; clear H.
  apply upsertNote_outcome in E.
  destruct E as [[_ (e & He)]|(j & d0 & ls & ts & Hran & -> & Hrows)];
    [discriminate He|].
  destruct Hrows as [(s & -> & -> & -> & Hr & Hfk)
                    |(_ & _ & (e & He) & _)]; [|discriminate He].
  injection Hr as ->.
  assert (Hj : j = z).
  { unfold note_statement_ran in Hran. cbn [truthy] in Hran.
    rewrite Hz in Hran. cbn [negb] in Hran. destruct Hran as [Hi _].
    now injection Hi. }
  subst j.
  assert (Hu : update_note et t (JString s) now z d = (Ok tt, d0)).
  { unfold note_statement_ran in Hran. cbn [truthy] in Hran.
    rewrite Hz in Hran. cbn [negb] in Hran. now destruct Hran. }
  clear Hran.
  assert (Hallowed : forall ns,
             existsb (has_id z) ns = existsb (has_id z) (notes d0) ->
             (extractLinks s = [] /\ extractTags ul s = [])
             \/ fk && negb (existsb (has_id z) ns) = false).
  { intros ns Ens. destruct fk; [|now right].
    destruct (Hfk eq_refl) as [[E1 E2]|Hex].
    - left. apply map_eq_nil in E1, E2. now split.
    - right. now rewrite Ens, Hex. }
  unfold put_note.
  pose proof Hu as Heff. apply update_note_full in Heff.
  destruct Heff as [[Hno ->]|(vt & vc & Hb & Hex & Hfree & Hd0)].
  - (* no note has the id *)
    rewrite (upsertNote_update_runs fk ul et now created z t s
               (rows_replaced z (map utf8_text (extractLinks s))
                              (map utf8_text (extractTags ul s)) d)
               (rows_replaced z (map utf8_text (extractLinks s))
                              (map utf8_text (extractTags ul s)) d) Hz).
    + f_equal. destruct d as [ns ls ts fts]. apply rows_replaced_twice.
    + now apply (update_note_no_row t (JString s) et now z d).
    + now apply Hallowed.
  - (* the note was rewritten *)
    assert (Hids : map id (map (fun n => if has_id z n
                                         then updated vt vc now n else n)
                               (notes d))
                   = map id (notes d)).
    { rewrite map_map. apply map_ext. intros n. now destruct (has_id z n). }
    assert (Hu2 : update_note et t (JString s) now z
                    (rows_replaced z (map utf8_text (extractLinks s))
                                   (map utf8_text (extractTags ul s)) d0)
                  = (Ok tt,
                     rows_replaced z (map utf8_text (extractLinks s))
                                   (map utf8_text (extractTags ul s)) d0)).
    { rewrite (update_note_runs t (JString s) et now z _ vt vc Hb).
      2:{ rewrite Hd0. cbn [rows_replaced notes].
          now rewrite existsb_has_id_map. }
      2:{ rewrite Hd0. cbn [rows_replaced notes].
          now rewrite conflict_after_update. }
      rewrite Hd0. cbn [rows_replaced notes links tags notes_fts].
      rewrite updated_twice. f_equal. f_equal.
      rewrite (trigger_au_once z vt vc now (notes d)) by exact Hnd.
      rewrite trigger_au_once by (rewrite Hids; exact Hnd).
      rewrite find_after_update.
      destruct (find (has_id z) (notes d)) as [n|] eqn:F; cbn [option_map].
      - pose proof (@find_has_id z (notes d) n F) as [Fid _].
        rewrite fts_delete_after_insert by exact Fid. reflexivity.
      - apply find_none_existsb in F. congruence. }
    rewrite (upsertNote_update_runs fk ul et now created z t s _ _ Hz Hu2).
    + f_equal. rewrite Hd0. apply rows_replaced_twice.
    + now apply Hallowed.
Qed.

(** ** The primary key *)

(** X1. Note ids stay distinct and positive: from a database whose
    notes have distinct positive ids, every write and delete route
    leaves such a database, whether the request succeeds or fails. *)
Theorem routes_keep_ids_distinct fk ul et now created i t c d :
  consistent d ->
  consistent (snd (post_notes fk ul et now created t c d))
  /\ consistent (snd (put_note fk ul et now created i t c d))
  /\ consistent (snd (delete_note fk i d)).
Proof.
  intros H. split; [|split].
  - now apply post_notes_consistent.
  - now apply put_note_consistent.
  - now apply delete_note_consistent.
Qed.

(** ** Writes are local *)

(** X7. A write touches one note only.  A create leaves every note of
    the database in place, with its Link and Tag rows; an update or a
    delete of an id leaves every note of another id in place, with its
    Link and Tag rows.  This holds whether the request succeeds or
    fails. *)
Theorem writes_leave_other_notes_alone fk ul et now created i t c d n :
  In n (notes d) ->
  (let d' := snd (post_notes fk ul et now created t c d) in
   In n (notes d')
   /\ link_targets (id n) d' = link_targets (id n) d
   /\ tag_names (id n) d' = tag_names (id n) d)
  /\ (Some (id n) <> i ->
      let d' := snd (put_note fk ul et now created i t c d) in
      In n (notes d')
      /\ link_targets (id n) d' = link_targets (id n) d
      /\ tag_names (id n) d' = tag_names (id n) d)
  /\ (Some (id n) <> i ->
      let d' := snd (delete_note fk i d) in
      In n (notes d')
      /\ link_targets (id n) d' = link_targets (id n) d
      /\ tag_names (id n) d' = tag_names (id n) d).
Proof.
  intros Hn.
  assert (G : forall i c r d',
             upsertNote fk ul et now created i t c d = (r, d') ->
             Some (id n) <> i ->
             In n (notes d')
             /\ link_targets (id n) d' = link_targets (id n) d
             /\ tag_names (id n) d' = tag_names (id n) d).
  { intros i0 c0 r d' H Hi. apply upsertNote_outcome in H.
    destruct H as [[-> _]|(j & d1 & ls & ts & Hran & -> & _)];
      [now repeat split|].
    pose proof Hran as Heff. apply note_statement_effect in Heff.
    assert (Hj : id n <> j /\ In n (notes d1)
                 /\ links d1 = links d /\ tags d1 = tags d).
    { destruct Heff as [(Ei & _ & ->)
                       |[(vt & vc & Ei & _ & _ & _ & ->)
                        |(vt & vc & _ & _ & Ej & ->)]].
      - split; [congruence|]. now repeat split.
      - assert (Hne : id n <> j) by congruence.
        split; [exact Hne|]. split; [|now split].
        cbn [notes]. apply in_map_iff. exists n. split; [|exact Hn].
        unfold has_id. apply Z.eqb_neq in Hne. now rewrite Hne.
      - split; [apply next_rowid_fresh in Hn; lia|].
        split; [|now split]. cbn [notes]. apply in_app_iff. now left. }
    destruct Hj as (Hne & Hin & El & Et).
    split; [exact Hin|].
    rewrite link_targets_replaced, tag_names_replaced.
    apply Z.eqb_neq in Hne. rewrite Hne.
    unfold link_targets, tag_names. now rewrite El, Et. }
  split; [|split].
  - cbv zeta. unfold post_notes.
    destruct (upsertNote _ _ _ _ _ _ _ _ _) as [[r|e] d'] eqn:E;
      cbn [snd]; eapply G; try exact E; discriminate.
  - intros Hi. cbv zeta. unfold put_note.
    destruct i as [z|]; [|now repeat split].
    destruct (upsertNote _ _ _ _ _ _ _ _ _) as [[r|e] d'] eqn:E;
      cbn [snd]; eapply G; try exact E; exact Hi.
  - intros Hi. cbv zeta. destruct i as [z|]; [|now repeat split].
    rewrite delete_note_runs. cbn [snd].
    assert (Hne : (id n =? z)%Z = false).
    { apply Z.eqb_neq. congruence. }
    split.
    + cbn [notes]. apply filter_In. split; [exact Hn|].
      unfold has_id. now rewrite Hne.
    + unfold link_targets, tag_names. cbn [links tags]. split; f_equal.
      * induction (links d) as [|l rows IH]; simpl; [reflexivity|].
        destruct (source_id l =? z)%Z eqn:E1; simpl.
        -- apply Z.eqb_eq in E1. rewrite E1, Z.eqb_sym, Hne. exact IH.
        -- destruct (source_id l =? id n)%Z; now rewrite IH.
      * induction (tags d) as [|l rows IH]; simpl; [reflexivity|].
        destruct (note_id l =? z)%Z eqn:E1; simpl.
        -- apply Z.eqb_eq in E1. rewrite E1, Z.eqb_sym, Hne. exact IH.
        -- destruct (note_id l =? id n)%Z; now rewrite IH.
Qed.

(** ** Tag counts *)

Lemma count_rows_snoc t rows r :
  count_rows t (rows ++ [r])
  = (count_rows t rows + if jsstring_eq_dec (tag r) t then 1 else 0)%nat.
Proof.
  unfold count_rows. rewrite filter_app, length_app. simpl.
  unfold has_tag. now destruct (jsstring_eq_dec (tag r) t).
Qed.

Lemma count_tag_in t0 groups g :
  NoDup (map t_tag groups) ->
  In g (count_tag t0 groups)
  <-> (t_tag g <> t0 /\ In g groups)
      \/ (t_tag g = t0
          /\ ((exists h, In h groups /\ t_tag h = t0
                         /\ t_count g = S (t_count h))
              \/ (~ In t0 (map t_tag groups) /\ t_count g = 1%nat))).
Proof.
  induction groups as [|h groups IH]; intros Hnd; simpl.
  - split.
    + intros [<-|[]]. right. split; [reflexivity|]. right. now split.
    + intros [[_ []]|(Et & [(h & [] & _)|(_ & Ec)])].
      left. destruct g. simpl in *. now subst.
  - inversion Hnd as [|? ? Hh Hnd']; subst.
    destruct (jsstring_eq_dec (t_tag h) t0) as [Eh|Eh]; simpl.
    + split.
      * intros [<-|Hg].
        -- right. split; [reflexivity|]. left. exists h. now repeat split; auto.
        -- left. split; [|now right]. intros E. apply Hh. rewrite Eh, <- E.
           now apply in_map.
      * intros [(Hne & [->|Hg])|(Et & [(h' & [<-|Hh'] & Eh' & Ec)|(Hno & _)])].
        -- contradiction.
        -- now right.
        -- left. destruct g. simpl in *. now subst.
        -- exfalso. apply Hh. rewrite Eh, <- Eh'. now apply in_map.
        -- exfalso. apply Hno. now left.
    + rewrite (IH Hnd'). split.
      * intros [->|[(Hne & Hg)|(Et & [(h' & Hh' & Eh' & Ec)|(Hno & Ec)])]].
        -- left. split; [exact Eh | now left].
        -- left. split; [exact Hne | now right].
        -- right. split; [exact Et|]. left. exists h'. split; [now right|].
           now split.
        -- right. split; [exact Et|]. right. split; [|exact Ec].
           intros [E|Hin]; [contradiction | now apply Hno].
      * intros [(Hne & [->|Hg])|(Et & [(h' & [<-|Hh'] & Eh' & Ec)|(Hno & Ec)])].
        -- now left.
        -- right. left. now split.
        -- contradiction.
        -- right. right. split; [exact Et|]. left. now exists h'.
        -- right. right. split; [exact Et|]. right. split; [|exact Ec].
           intros Hin. apply Hno. now right.
Qed.

Lemma count_tag_nodup t0 groups :
  NoDup (map t_tag groups) -> NoDup (map t_tag (count_tag t0 groups)).
Proof.
  induction groups as [|h groups IH]; intros Hnd; simpl.
  - repeat constructor. intros [].
  - inversion Hnd as [|? ? Hh Hnd']; subst.
    destruct (jsstring_eq_dec (t_tag h) t0) as [Eh|Eh]; simpl.
    + constructor; [now rewrite <- Eh | exact Hnd'].
    + constructor; [|now apply IH].
      intros Hin. apply in_map_iff in Hin. destruct Hin as (g & Eg & Hg).
      apply (count_tag_in t0 groups g Hnd') in Hg.
      destruct Hg as [(_ & Hg)|(Et & _)].
      * apply Hh. rewrite <- Eg. now apply in_map.
      * congruence.
Qed.

Lemma groups_of_step groups rows r :
  groups_of groups rows ->
  groups_of (count_tag (tag r) groups) (rows ++ [r]).
Proof.
  intros [Hnd Hin]. split; [now apply count_tag_nodup|].
  intros g. rewrite (count_tag_in (tag r) groups g Hnd), count_rows_snoc.
  destruct (jsstring_eq_dec (tag r) (t_tag g)) as [E|E].
  - split.
    + intros [(Hne & _)|(_ & [(h & Hh & Eh & Ec)|(Hno & Ec)])].
      * congruence.
      * apply Hin in Hh. destruct Hh as [Hc _]. rewrite Eh, E in Hc. lia.
      * split; [|lia].
        assert (count_rows (t_tag g) rows = 0)%nat; [|lia].
        destruct (count_rows (t_tag g) rows) as [|k] eqn:Ek; [reflexivity|].
        exfalso. apply Hno. rewrite E.
        change (t_tag g) with (t_tag (TagCount (t_tag g) (S k))).
        apply in_map. apply Hin. simpl. split; [now rewrite Ek | lia].
    + intros [Hc Hpos]. right. split; [now symmetry|].
      destruct (count_rows (t_tag g) rows) as [|k] eqn:Ek.
      * right. split; [|lia]. intros Hno. apply in_map_iff in Hno.
        destruct Hno as (h & Eh & Hh). apply Hin in Hh.
        rewrite Eh, E, Ek in Hh. lia.
      * left. exists (TagCount (t_tag g) (S k)). split; [|split].
        -- apply Hin. simpl. split; [now rewrite Ek | lia].
        -- now symmetry.
        -- simpl. lia.
  - rewrite Nat.add_0_r. split.
    + intros [(_ & Hg)|(Et & _)]; [now apply Hin | congruence].
    + intros Hg. left. split; [congruence | now apply Hin].
Qed.

Lemma group_by_tag_groups rows : groups_of (group_by_tag rows) rows.
Proof.
  unfold group_by_tag.
  assert (G : forall todo groups done,
             groups_of groups done ->
             groups_of (fold_left (fun groups r => count_tag (tag r) groups)
                                  todo groups)
                       (done ++ todo)).
  { induction todo as [|r todo IH]; intros groups done H; simpl.
    - now rewrite app_nil_r.
    - replace (done ++ r :: todo) with ((done ++ [r]) ++ todo)
        by (now rewrite <- app_assoc).
      apply IH. now apply groups_of_step. }
  apply (G rows [] []). split; [constructor|].
  intros g. split; [intros []|].
  intros [H1 H2]. unfold count_rows in H1. simpl in H1. lia.
Qed.

Lemma insert_tag_count_perm g sorted :
  Permutation (insert_tag_count g sorted) (g :: sorted).
Proof.
  induction sorted as [|h sorted IH]; simpl; [apply Permutation_refl|].
  destruct (tag_before g h); [apply Permutation_refl|].
  eapply perm_trans; [apply perm_skip, IH | apply perm_swap].
Qed.

Lemma get_tags_perm d : Permutation (get_tags d) (group_by_tag (tags d)).
Proof.
  unfold get_tags.
  assert (G : forall gs acc,
             Permutation (fold_left (fun sorted g => insert_tag_count g sorted)
                                    gs acc)
                         (gs ++ acc)).
  { induction gs as [|g gs IH]; intros acc; simpl; [apply Permutation_refl|].
    eapply perm_trans; [apply IH|].
    eapply perm_trans;
      [apply Permutation_app_head, insert_tag_count_perm|].
    apply Permutation_sym, Permutation_middle. }
  rewrite <- (app_nil_r (group_by_tag (tags d))) at 2. apply G.
Qed.

Lemma filter_split {A} (f g : A -> bool) (l : list A) :
  length (filter f l)
  = (length (filter f (filter g l))
     + length (filter f (filter (fun x => negb (g x)) l)))%nat.
Proof.
  induction l as [|x l IH]; simpl; [reflexivity|].
  destruct (g x); simpl; destruct (f x); simpl; lia.
Qed.

(** Rows that all belong to notes are counted note by note. *)
Lemma count_rows_by_note t ns :
  NoDup (map id ns) ->
  forall rows,
    (forall r, In r rows -> In (note_id r) (map id ns)) ->
    count_rows t rows
    = list_sum
        (map (fun n => count_rows
                         t (filter (fun r => (note_id r =? id n)%Z) rows))
             ns).
Proof.
  induction ns as [|n ns IH]; intros Hnd rows Hrows.
  - destruct rows as [|r rows]; [reflexivity|].
    destruct (Hrows r (or_introl eq_refl)).
  - inversion Hnd as [|? ? Hn Hnd']; subst.
    set (F := fun rows (m : note) =>
                count_rows t (filter (fun r => (note_id r =? id m)%Z) rows)).
    change (count_rows t rows = F rows n + list_sum (map (F rows) ns)).
    set (rest := filter (fun r => negb (note_id r =? id n)%Z) rows).
    transitivity (F rows n + count_rows t rest)%nat.
    { unfold F, rest, count_rows. apply filter_split. }
    f_equal. rewrite (IH Hnd' rest).
    + f_equal. apply map_ext_in. intros m Hm. unfold F. f_equal.
      assert (Hne : id m <> id n).
      { intros E. apply Hn. rewrite <- E. now apply in_map. }
      unfold rest. clear - Hne.
      induction rows as [|r rows IH]; simpl; [reflexivity|].
      destruct (note_id r =? id n)%Z eqn:E1; simpl.
      * apply Z.eqb_eq in E1. rewrite E1.
        apply Z.eqb_neq in Hne. rewrite Z.eqb_sym, Hne. exact IH.
      * destruct (note_id r =? id m)%Z; now rewrite IH.
    + intros r Hr. apply filter_In in Hr. destruct Hr as [Hr E].
      apply negb_true_iff, Z.eqb_neq in E.
      destruct (Hrows r Hr) as [E'|Hin]; [congruence | exact Hin].
Qed.

Lemma count_in_nodup t (l : list jsstring) :
  NoDup l ->
  length (filter (fun x => if jsstring_eq_dec x t then true else false) l)
  = if in_dec jsstring_eq_dec t l then 1%nat else 0%nat.
Proof.
  induction 1 as [|x l Hx Hl IH]; simpl; [reflexivity|].
  destruct (jsstring_eq_dec x t) as [E|E]; simpl.
  - subst x. destruct (in_dec jsstring_eq_dec t l); [contradiction|].
    destruct (in_dec jsstring_eq_dec t l) as [|_] in IH; [contradiction|].
    now rewrite IH.
  - rewrite IH. destruct (in_dec jsstring_eq_dec t l) as [Hin|Hno].
    + reflexivity.
    + reflexivity.
Qed.

Lemma list_sum_indicator {A} (b : A -> bool) (l : list A) :
  list_sum (map (fun x => if b x then 1 else 0)%nat l) = length (filter b l).
Proof.
  induction l as [|x l IH]; simpl; [reflexivity|].
  destruct (b x); simpl; now rewrite IH.
Qed.

Lemma count_rows_of_note ul t d n :
  tag_names (id n) d = extractTags ul (content n) ->
  count_rows t (filter (fun r => (note_id r =? id n)%Z) (tags d))
  = if in_dec jsstring_eq_dec t (extractTags ul (content n))
    then 1%nat else 0%nat.
Proof.
  intros E. rewrite <- (count_in_nodup t _ (extractTags_nodup ul (content n))).
  rewrite <- E. unfold tag_names, count_rows.
  induction (filter (fun r => (note_id r =? id n)%Z) (tags d))
    as [|r rows IH]; simpl; [reflexivity|].
  unfold has_tag at 1. destruct (jsstring_eq_dec (tag r) t); simpl;
    now rewrite IH.
Qed.

Lemma insert_tag_count_sorted g sorted :
  StronglySorted count_ge sorted ->
  StronglySorted count_ge (insert_tag_count g sorted).
Proof.
  induction 1 as [|h sorted Hs IH Hh]; simpl.
  - repeat constructor.
  - destruct (tag_before g h) eqn:E.
    + assert (Hgh : count_ge g h).
      { unfold tag_before in E. unfold count_ge.
        apply orb_true_iff in E. destruct E as [E|E].
        - apply Nat.ltb_lt in E. lia.
        - apply andb_true_iff in E. destruct E as [E _].
          apply Nat.eqb_eq in E. lia. }
      constructor; [now constructor|].
      constructor; [exact Hgh|].
      eapply Forall_impl; [|exact Hh]. unfold count_ge in *. intros x Hx. lia.
    + constructor; [exact IH|].
      eapply Permutation_Forall;
        [apply Permutation_sym, insert_tag_count_perm|].
      constructor; [|exact Hh].
      unfold tag_before in E. unfold count_ge.
      apply orb_false_iff in E. destruct E as [E _].
      apply Nat.ltb_ge in E. exact E.
Qed.

Lemma get_tags_sorted d : StronglySorted count_ge (get_tags d).
Proof.
  unfold get_tags.
  assert (G : forall gs acc,
             StronglySorted count_ge acc ->
             StronglySorted count_ge
               (fold_left (fun sorted g => insert_tag_count g sorted) gs acc)).
  { induction gs as [|g gs IH]; intros acc H; simpl; [exact H|].
    apply IH. now apply insert_tag_count_sorted. }
  apply G. constructor.
Qed.

(** X13. The tag list is in order of falling count.  On a reachable
    database without orphan rows it has one entry per tag in use, and
    the count of a tag is the number of notes whose content carries
    it. *)
Theorem tag_counts_count_notes ul d :
  consistent d -> derived_synced ul d -> no_orphans d ->
  StronglySorted (fun a b => (t_count b <= t_count a)%nat) (get_tags d)
  /\ NoDup (map t_tag (get_tags d))
  /\ forall g,
       In g (get_tags d)
       <-> t_count g = length (notes_tagged ul (t_tag g) (notes d))
           /\ (0 < t_count g)%nat.
Proof.
  intros [Hnd _] Hd [_ Hown].
  split; [exact (get_tags_sorted d)|].
  pose proof (get_tags_perm d) as Hperm.
  destruct (group_by_tag_groups (tags d)) as [Hgn Hgin].
  split.
  - eapply Permutation_NoDup; [|exact Hgn].
    apply Permutation_map, Permutation_sym, Hperm.
  - intros g.
    assert (Hcount : forall t,
               count_rows t (tags d) = length (notes_tagged ul t (notes d))).
    { intros t. rewrite (count_rows_by_note t (notes d) Hnd).
      - unfold notes_tagged. rewrite <- list_sum_indicator. f_equal.
        apply map_ext_in. intros n Hn.
        rewrite (count_rows_of_note ul t d n) by (now apply Hd).
        now destruct (in_dec jsstring_eq_dec t (extractTags ul (content n))).
      - intros r Hr. apply existsb_has_id_in. now apply Hown. }
    rewrite <- Hcount, <- Hgin. split.
    + apply Permutation_in. exact Hperm.
    + apply Permutation_in. apply Permutation_sym. exact Hperm.
Qed.

(** ** Instances on a database of two notes *)

Lemma two_notes_consistent : consistent two_notes.
Proof.
  split; simpl.
  - repeat constructor; simpl; intuition discriminate.
  - repeat constructor.
Qed.

Lemma two_notes_titles : titles_unique two_notes.
Proof.
  unfold titles_unique. simpl.
  repeat constructor; simpl; intuition discriminate.
Qed.

Lemma two_notes_synced : fts_synced two_notes.
Proof.
  apply Permutation_refl.
Qed.

Lemma two_notes_derived : derived_synced CharClass.is_word two_notes.
Proof.
  intros n [<-|[<-|[]]]; split; reflexivity.
Qed.

Lemma two_notes_owned : no_orphans two_notes.
Proof.
  split; intros r [<-|[]]; reflexivity.
Qed.

Lemma routes_keep_ids_distinct_witness :
  consistent (snd (post_notes true CharClass.is_word (fun _ => []) (str "t2") (str "t2")
                              (JString (str "C")) (JString (str "[[A]]"))
                              two_notes)).
Proof.
  exact (proj1 (routes_keep_ids_distinct true CharClass.is_word (fun _ => []) (str "t2")
                  (str "t2") (Some 1%Z) (JString (str "C"))
                  (JString (str "[[A]]")) two_notes two_notes_consistent)).
Defined.

Lemma routes_keep_titles_unique_witness :
  titles_unique (snd (put_note true CharClass.is_word (fun _ => []) (str "t2") (str "t2")
                               (Some 1%Z) (JString (str "C"))
                               (JString (str "[[A]]")) two_notes)).
Proof.
  exact (proj1 (proj2 (routes_keep_titles_unique
                         true CharClass.is_word (fun _ => []) (str "t2") (str "t2")
                         (Some 1%Z) (JString (str "C"))
                         (JString (str "[[A]]")) two_notes
                         two_notes_consistent two_notes_titles))).
Defined.

Lemma routes_keep_search_index_synced_witness :
  fts_synced (snd (put_note true CharClass.is_word (fun _ => []) (str "t2") (str "t2")
                            (Some 1%Z) (JString (str "C"))
                            (JString (str "[[A]]")) two_notes)).
Proof.
  exact (proj1 (proj2 (routes_keep_search_index_synced
                         true CharClass.is_word (fun _ => []) (str "t2") (str "t2")
                         (Some 1%Z) (JString (str "C"))
                         (JString (str "[[A]]")) two_notes
                         two_notes_consistent two_notes_synced))).
Defined.

Lemma link_to_A_well_formed : well_formed (str "[[A]]").
Proof.
  split; repeat constructor.
Qed.

Lemma routes_keep_derived_rows_synced_witness :
  derived_synced CharClass.is_word
    (snd (put_note true CharClass.is_word (fun _ => []) (str "t2") (str "t2")
                   (Some 1%Z) (JString (str "C")) (JString (str "[[A]]"))
                   two_notes)).
Proof.
  exact (proj2 (proj1 (routes_keep_derived_rows_synced
                         true CharClass.is_word (fun _ => []) (str "t2")
                         (str "t2") (Some 1%Z) (JString (str "C"))
                         (JString (str "[[A]]")) two_notes
                         two_notes_derived)
                      link_to_A_well_formed)).
Defined.

Lemma enforced_foreign_keys_keep_rows_owned_witness :
  no_orphans (snd (put_note true CharClass.is_word (fun _ => []) (str "t2") (str "t2")
                            (Some 7%Z) (JString (str "C"))
                            (JString (str "[[A]]")) two_notes)).
Proof.
  exact (proj1 (proj2 (enforced_foreign_keys_keep_rows_owned
                         CharClass.is_word (fun _ => []) (str "t2") (str "t2")
                         (Some 7%Z) (JString (str "C"))
                         (JString (str "[[A]]")) two_notes two_notes_owned))).
Defined.

Lemma failed_text_write_changes_nothing_witness :
  snd (put_note true CharClass.is_word (fun _ => []) (str "t2") (str "t2") (Some 7%Z)
                (JString (str "C")) (JString (str "[[A]]")) two_notes)
  = two_notes.
Proof.
  apply (proj2 (proj2 (failed_text_write_changes_nothing
                         true CharClass.is_word (fun _ => []) (str "t2") (str "t2")
                         (Some 7%Z) (JString (str "C")) (str "[[A]]")
                         (SqliteError SQLITE_CONSTRAINT_FOREIGNKEY)
                         two_notes
                         (snd (put_note true CharClass.is_word (fun _ => []) (str "t2")
                                        (str "t2") (Some 7%Z)
                                        (JString (str "C"))
                                        (JString (str "[[A]]")) two_notes))
                         (or_intror two_notes_owned)))).
  reflexivity.
Defined.

Lemma written_note_is_read_back_witness :
  get_note (Some 3%Z)
           (snd (post_notes true CharClass.is_word (fun _ => []) (str "t2") (str "t3")
                            (JString (str "C")) (JString (str "[[A]]"))
                            two_notes))
  = Json (Note 3 (str "C") (str "[[A]]") (str "t3") (str "t2")).
Proof.
  exact (proj1 (written_note_is_read_back
                  true CharClass.is_word (fun _ => []) (str "t2") (str "t3") None
                  (JString (str "C")) (JString (str "[[A]]")) two_notes
                  (Note 3 (str "C") (str "[[A]]") (str "t3") (str "t2"))
                  (snd (post_notes true CharClass.is_word (fun _ => []) (str "t2") (str "t3")
                                   (JString (str "C")) (JString (str "[[A]]"))
                                   two_notes))
                  (or_introl eq_refl))).
Defined.

Lemma backlinks_are_the_linking_notes_witness :
  exists rows,
    get_backlinks (Some 2%Z) two_notes = Json rows
    /\ In (Ref 1 (str "A")) rows.
Proof.
  destruct (backlinks_are_the_linking_notes
              CharClass.is_word two_notes
              (Note 2 (str "B") [] (str "t0") (str "t1"))
              two_notes_consistent two_notes_derived
              (or_intror (or_introl eq_refl)))
    as (rows & Hget & _ & Hin).
  exists rows. split; [exact Hget|].
  apply (Hin (Note 1 (str "A") (str "See [[B]] #t") (str "t0") (str "t0"))).
  - left. reflexivity.
  - left. reflexivity.
Defined.


Lemma update_is_idempotent_witness :
  let once := put_note true CharClass.is_word (fun _ => []) (str "t2") (str "t2")
                       (Some 1%Z) (JString (str "A"))
                       (JString (str "Now [[C]] #u")) two_notes in
  put_note true CharClass.is_word (fun _ => []) (str "t2") (str "t2") (Some 1%Z)
           (JString (str "A")) (JString (str "Now [[C]] #u")) (snd once)
  = once.
Proof.
  cbv zeta.
  apply (update_is_idempotent
           true CharClass.is_word (fun _ => []) (str "t2") (str "t2") 1%Z
           (JString (str "A")) (JString (str "Now [[C]] #u")) two_notes
           (Some (Note 1 (str "A") (str "Now [[C]] #u") (str "t0") (str "t2")))
           _ two_notes_consistent).
  - discriminate.
  - reflexivity.
Defined.

Lemma writes_leave_other_notes_alone_witness :
  let d' := snd (delete_note true (Some 2%Z) two_notes) in
  In (Note 1 (str "A") (str "See [[B]] #t") (str "t0") (str "t0")) (notes d')
  /\ link_targets 1 d' = [str "B"]
  /\ tag_names 1 d' = [str "t"].
Proof.
  apply (proj2 (proj2 (writes_leave_other_notes_alone
                         true CharClass.is_word (fun _ => []) (str "t2") (str "t2")
                         (Some 2%Z) JNull JNull two_notes
                         (Note 1 (str "A") (str "See [[B]] #t")
                               (str "t0") (str "t0"))
                         (or_introl eq_refl)))).
  discriminate.
Defined.

Lemma tag_counts_count_notes_witness :
  In (TagCount (str "t") 1) (get_tags two_notes).
Proof.
  destruct (tag_counts_count_notes CharClass.is_word two_notes
              two_notes_consistent two_notes_derived two_notes_owned)
    as (_ & _ & H).
  apply H. split; [reflexivity | simpl; lia].
Defined.

(** ** The note list *)

Lemma text_ltb_asym a b : text_ltb a b = true -> text_ltb b a = false.
Proof.
  revert b. induction a as [|x a IH]; intros [|y b] H; simpl in *;
    try reflexivity; try discriminate.
  apply orb_true_iff in H. apply orb_false_iff.
  destruct H as [H|H].
  - apply N.ltb_lt in H. split.
    + apply N.ltb_ge. lia.
    + apply andb_false_iff. left. apply N.eqb_neq. lia.
  - apply andb_true_iff in H. destruct H as [E H].
    apply N.eqb_eq in E. subst y. split.
    + apply N.ltb_irrefl.
    + rewrite N.eqb_refl. simpl. now apply IH.
Qed.

Lemma text_ltb_trans a b c :
  text_ltb a b = true -> text_ltb b c = true -> text_ltb a c = true.
Proof.
  revert b c. induction a as [|x a IH]; intros [|y b] [|z c] H1 H2;
    simpl in *; try reflexivity; try discriminate.
  apply orb_true_iff in H1. apply orb_true_iff in H2. apply orb_true_iff.
  destruct H1 as [H1|H1], H2 as [H2|H2].
  - apply N.ltb_lt in H1, H2. left. apply N.ltb_lt. lia.
  - apply andb_true_iff in H2. destruct H2 as [E _]. apply N.eqb_eq in E.
    subst z. now left.
  - apply andb_true_iff in H1. destruct H1 as [E _]. apply N.eqb_eq in E.
    subst y. now left.
  - apply andb_true_iff in H1. destruct H1 as [E1 H1].
    apply andb_true_iff in H2. destruct H2 as [E2 H2].
    apply N.eqb_eq in E1, E2. subst y z. right.
    rewrite N.eqb_refl. simpl. now apply IH with b.
Qed.

Lemma insert_desc_perm n sorted :
  Permutation (insert_desc n sorted) (n :: sorted).
Proof.
  induction sorted as [|m sorted IH]; simpl; [reflexivity|].
  destruct (text_ltb (updated_at m) (updated_at n)); [reflexivity|].
  rewrite IH. apply perm_swap.
Qed.

Lemma order_by_updated_desc_perm ns :
  Permutation (order_by_updated_desc ns) ns.
Proof.
  unfold order_by_updated_desc.
  assert (G : forall acc,
             Permutation
               (fold_left (fun sorted n => insert_desc n sorted) ns acc)
               (acc ++ ns)).
  { induction ns as [|n ns IH]; intros acc; simpl.
    - now rewrite app_nil_r.
    - rewrite IH, insert_desc_perm. apply Permutation_middle. }
  apply (G []).
Qed.

Lemma insert_desc_sorted n sorted :
  StronglySorted (fun a b => not_earlier (updated_at a) (updated_at b)) sorted ->
  StronglySorted (fun a b => not_earlier (updated_at a) (updated_at b))
                 (insert_desc n sorted).
Proof.
  induction 1 as [|m sorted Hs IH Hm]; simpl.
  - repeat constructor.
  - destruct (text_ltb (updated_at m) (updated_at n)) eqn:E.
    + constructor; [now constructor|].
      constructor; [now apply text_ltb_asym|].
      eapply Forall_impl; [|exact Hm]. unfold not_earlier.
      intros x Hx.
      destruct (text_ltb (updated_at n) (updated_at x)) eqn:F; [|reflexivity].
      rewrite (text_ltb_trans _ _ _ E F) in Hx. discriminate.
    + constructor; [exact IH|].
      eapply Permutation_Forall;
        [apply Permutation_sym, insert_desc_perm|].
      constructor; [exact E|exact Hm].
Qed.

Lemma order_by_updated_desc_sorted ns :
  StronglySorted (fun a b => not_earlier (updated_at a) (updated_at b))
                 (order_by_updated_desc ns).
Proof.
  unfold order_by_updated_desc.
  assert (G : forall acc,
             StronglySorted
               (fun a b => not_earlier (updated_at a) (updated_at b)) acc ->
             StronglySorted
               (fun a b => not_earlier (updated_at a) (updated_at b))
               (fold_left (fun sorted n => insert_desc n sorted) ns acc)).
  { induction ns as [|n ns IH]; intros acc H; simpl; [exact H|].
    apply IH. now apply insert_desc_sorted. }
  apply G. constructor.
Qed.

Lemma StronglySorted_map {A B} (f : A -> B) (R : B -> B -> Prop) l :
  StronglySorted (fun a b => R (f a) (f b)) l ->
  StronglySorted R (map f l).
Proof.
  induction 1 as [|a l Hs IH Ha]; simpl; constructor; [exact IH|].
  apply Forall_map. exact Ha.
Qed.

Lemma sql_substr_short k s :
  code_units s ->
  Forall (fun c => c <> 0%N) (CodePoint.decode s) ->
  (length s <= k)%nat ->
  sql_substr k s = s.
Proof.
  intros Hs Hnul Hk. unfold sql_substr.
  rewrite (before_nul_all Hnul).
  rewrite firstn_all2 by (pose proof (decode_length s); lia).
  now apply encode_decode.
Qed.

Lemma before_nul_prefix cps : exists rest, cps = before_nul cps ++ rest.
Proof.
  induction cps as [|c cps (rest & IH)]; [now exists []|]. simpl.
  destruct (c =? 0)%N.
  - now exists (c :: cps).
  - exists rest. simpl. now rewrite <- IH.
Qed.

Lemma sql_substr_prefix k s :
  code_units s -> exists rest, s = sql_substr k s ++ rest.
Proof.
  intros Hs. unfold sql_substr.
  destruct (before_nul_prefix (CodePoint.decode s)) as (r1 & E1).
  exists (CodePoint.encode
            (skipn k (before_nul (CodePoint.decode s)) ++ r1)).
  unfold CodePoint.encode. rewrite <- flat_map_app, app_assoc.
  rewrite firstn_skipn, <- E1.
  symmetry. now apply encode_decode.
Qed.

(** X18. The note list has a row for every note and no other, the
    latest update first: no row is followed by a row of a later
    [updated_at].  A row carries the id, title and [updated_at] of its
    note.  Its snippet is the beginning of the content, and the whole
    content when that has at most 300 code units and no NUL character
    (at which SQLite's [substr] stops). *)
Theorem note_list_has_every_note_latest_first d :
  Permutation (map l_id (get_notes d)) (map id (notes d))
  /\ StronglySorted
       (fun a b => not_earlier (l_updated_at a) (l_updated_at b))
       (get_notes d)
  /\ forall r,
       In r (get_notes d) ->
       exists n,
         In n (notes d)
         /\ l_id r = id n /\ l_title r = title n
         /\ l_updated_at r = updated_at n
         /\ (code_units (content n) ->
             (exists rest, content n = l_snippet r ++ rest)
             /\ (Forall (fun c => c <> 0%N) (CodePoint.decode (content n)) ->
                 (length (content n) <= 300)%nat ->
                 l_snippet r = content n)).
Proof.
  unfold get_notes. repeat split.
  - rewrite map_map. cbn [l_id].
    apply Permutation_map, order_by_updated_desc_perm.
  - apply StronglySorted_map. cbn [l_updated_at].
    apply order_by_updated_desc_sorted.
  - intros r Hr. apply in_map_iff in Hr. destruct Hr as (n & <- & Hn).
    apply -> order_by_updated_desc_in in Hn.
    exists n. cbn [l_id l_title l_updated_at l_snippet].
    repeat split; auto.
    + now apply sql_substr_prefix.
    + intros Hnul Hk. now apply sql_substr_short.
Qed.
